(** * Event lifecycle, registration, ordering and attendance engine

    A shallow embedding of the Express/Mongoose backend
    ([backend/routes/event.js], [backend/routes/admin.js] and the Mongoose
    schemas of [backend/models]) together with the properties of the
    specification that are settled against it.

    Modelling conventions.
    - A Mongo collection is a [list] of documents in insertion order.
      [Model.findOne(filter)] is stdpp's [list_find]: it yields the position
      and the value of the first matching document; [doc.save()] writes the
      document back at that position with list insert.
    - A JavaScript [Date] is the integer of its [valueOf()] (milliseconds since
      the epoch), a Mongoose [Number] is an integer, an [ObjectId] is an
      integer compared by equality only.
    - [new Date()], [Date.now()] and [Math.random()] are inputs of the
      handlers ([now], [rnd]): every handler is a function from the store and
      the request to the new store and the HTTP response.
    - [authMiddleware] and [roleMiddleware] are not part of the modelled
      files; the handlers start after them, with [req.user.id] given.
    - [sendTicketEmail] and [postEventToDiscord] are fire-and-forget and touch
      no collection; only the dereferences made to build their arguments are
      modelled (a [null] participant raises a [TypeError], caught as a 500). *)

From stdpp Require Import base strings list pretty.
From Stdlib Require Import ZArith Lia.

Local Open Scope Z_scope.

(** ** Data model (backend/models) *)

Definition ObjectId := Z.
Definition Date := Z.

(** [statusOverride] enum of [eventSchema]. *)
Inductive Status := Draft | Published | Ongoing | Completed | Closed.

(** [type] enum of [eventSchema]: "normal", "merchandise". *)
Inductive EventType := normal | merchandise.

(** [eligibility] enum of [eventSchema]: "iiit", "non-iiit", "all". *)
Inductive Eligibility := elig_iiit | elig_non_iiit | elig_all.

(** [participantType] enum of [userSchema]: "iiit", "non-iiit". *)
Inductive ParticipantType := iiit | non_iiit.

(** [role] enum of [userSchema]. *)
Inductive Role := role_participant | role_organizer | role_admin.

(** [paymentStatus] enum of [registrationSchema]:
    "Not Applicable", "Pending", "Approved", "Rejected". *)
Inductive PaymentStatus := NotApplicable | Pending | Approved | Rejected.

(** [fieldType] enum of [formFieldSchema]. *)
Inductive FieldType := ft_text | ft_dropdown | ft_checkbox | ft_file.

Global Instance Status_eq_dec : EqDecision Status.
Proof. solve_decision. Defined.
Global Instance EventType_eq_dec : EqDecision EventType.
Proof. solve_decision. Defined.
Global Instance Eligibility_eq_dec : EqDecision Eligibility.
Proof. solve_decision. Defined.
Global Instance ParticipantType_eq_dec : EqDecision ParticipantType.
Proof. solve_decision. Defined.
Global Instance Role_eq_dec : EqDecision Role.
Proof. solve_decision. Defined.
Global Instance PaymentStatus_eq_dec : EqDecision PaymentStatus.
Proof. solve_decision. Defined.

(** [formFieldSchema]. *)
Module FormField.
Record t := mk {
  label : string;
  fieldType : FieldType;
  isRequired : bool;
  options : list string
}.
End FormField.

(** [merchandiseVariantSchema]; [stock] and [price] carry [min: 0]. *)
Module Variant.
Record t := mk {
  _id : ObjectId;
  size : string;
  color : string;
  stock : Z;
  price : Z
}.

Definition set_stock (n : Z) (v : t) : t :=
  mk (_id v) (size v) (color v) n (price v).
End Variant.

(** [eventSchema]. [registrationLimit] has no default and may be absent. *)
Module Event.
Record t := mk {
  _id : ObjectId;
  name : string;
  description : string;
  type : EventType;
  organizerId : ObjectId;
  eligibility : Eligibility;
  tags : list string;
  registrationDeadline : Date;
  startDate : Date;
  endDate : Date;
  registrationLimit : option Z;
  statusOverride : Status;
  registrationFee : Z;
  customForm : list FormField.t;
  isFormLocked : bool;
  merchandiseVariants : list Variant.t;
  purchaseLimitPerUser : Z;
  requiresPaymentApproval : bool
}.

(** Field writes ([event.f = x]). *)
Definition set_id (x : ObjectId) (e : t) : t :=
  mk x (name e) (description e) (type e) (organizerId e) (eligibility e)
     (tags e) (registrationDeadline e) (startDate e) (endDate e)
     (registrationLimit e) (statusOverride e) (registrationFee e)
     (customForm e) (isFormLocked e) (merchandiseVariants e)
     (purchaseLimitPerUser e) (requiresPaymentApproval e).
Definition set_name (x : string) (e : t) : t :=
  mk (_id e) x (description e) (type e) (organizerId e) (eligibility e)
     (tags e) (registrationDeadline e) (startDate e) (endDate e)
     (registrationLimit e) (statusOverride e) (registrationFee e)
     (customForm e) (isFormLocked e) (merchandiseVariants e)
     (purchaseLimitPerUser e) (requiresPaymentApproval e).
Definition set_description (x : string) (e : t) : t :=
  mk (_id e) (name e) x (type e) (organizerId e) (eligibility e) (tags e)
     (registrationDeadline e) (startDate e) (endDate e) (registrationLimit e)
     (statusOverride e) (registrationFee e) (customForm e) (isFormLocked e)
     (merchandiseVariants e) (purchaseLimitPerUser e)
     (requiresPaymentApproval e).
Definition set_type (x : EventType) (e : t) : t :=
  mk (_id e) (name e) (description e) x (organizerId e) (eligibility e)
     (tags e) (registrationDeadline e) (startDate e) (endDate e)
     (registrationLimit e) (statusOverride e) (registrationFee e)
     (customForm e) (isFormLocked e) (merchandiseVariants e)
     (purchaseLimitPerUser e) (requiresPaymentApproval e).
Definition set_organizerId (x : ObjectId) (e : t) : t :=
  mk (_id e) (name e) (description e) (type e) x (eligibility e) (tags e)
     (registrationDeadline e) (startDate e) (endDate e) (registrationLimit e)
     (statusOverride e) (registrationFee e) (customForm e) (isFormLocked e)
     (merchandiseVariants e) (purchaseLimitPerUser e)
     (requiresPaymentApproval e).
Definition set_eligibility (x : Eligibility) (e : t) : t :=
  mk (_id e) (name e) (description e) (type e) (organizerId e) x (tags e)
     (registrationDeadline e) (startDate e) (endDate e) (registrationLimit e)
     (statusOverride e) (registrationFee e) (customForm e) (isFormLocked e)
     (merchandiseVariants e) (purchaseLimitPerUser e)
     (requiresPaymentApproval e).
Definition set_tags (x : list string) (e : t) : t :=
  mk (_id e) (name e) (description e) (type e) (organizerId e)
     (eligibility e) x (registrationDeadline e) (startDate e) (endDate e)
     (registrationLimit e) (statusOverride e) (registrationFee e)
     (customForm e) (isFormLocked e) (merchandiseVariants e)
     (purchaseLimitPerUser e) (requiresPaymentApproval e).
Definition set_registrationDeadline (x : Date) (e : t) : t :=
  mk (_id e) (name e) (description e) (type e) (organizerId e)
     (eligibility e) (tags e) x (startDate e) (endDate e)
     (registrationLimit e) (statusOverride e) (registrationFee e)
     (customForm e) (isFormLocked e) (merchandiseVariants e)
     (purchaseLimitPerUser e) (requiresPaymentApproval e).
Definition set_startDate (x : Date) (e : t) : t :=
  mk (_id e) (name e) (description e) (type e) (organizerId e)
     (eligibility e) (tags e) (registrationDeadline e) x (endDate e)
     (registrationLimit e) (statusOverride e) (registrationFee e)
     (customForm e) (isFormLocked e) (merchandiseVariants e)
     (purchaseLimitPerUser e) (requiresPaymentApproval e).
Definition set_endDate (x : Date) (e : t) : t :=
  mk (_id e) (name e) (description e) (type e) (organizerId e)
     (eligibility e) (tags e) (registrationDeadline e) (startDate e) x
     (registrationLimit e) (statusOverride e) (registrationFee e)
     (customForm e) (isFormLocked e) (merchandiseVariants e)
     (purchaseLimitPerUser e) (requiresPaymentApproval e).
Definition set_registrationLimit (x : option Z) (e : t) : t :=
  mk (_id e) (name e) (description e) (type e) (organizerId e)
     (eligibility e) (tags e) (registrationDeadline e) (startDate e)
     (endDate e) x (statusOverride e) (registrationFee e) (customForm e)
     (isFormLocked e) (merchandiseVariants e) (purchaseLimitPerUser e)
     (requiresPaymentApproval e).
Definition set_statusOverride (x : Status) (e : t) : t :=
  mk (_id e) (name e) (description e) (type e) (organizerId e)
     (eligibility e) (tags e) (registrationDeadline e) (startDate e)
     (endDate e) (registrationLimit e) x (registrationFee e) (customForm e)
     (isFormLocked e) (merchandiseVariants e) (purchaseLimitPerUser e)
     (requiresPaymentApproval e).
Definition set_registrationFee (x : Z) (e : t) : t :=
  mk (_id e) (name e) (description e) (type e) (organizerId e)
     (eligibility e) (tags e) (registrationDeadline e) (startDate e)
     (endDate e) (registrationLimit e) (statusOverride e) x (customForm e)
     (isFormLocked e) (merchandiseVariants e) (purchaseLimitPerUser e)
     (requiresPaymentApproval e).
Definition set_customForm (x : list FormField.t) (e : t) : t :=
  mk (_id e) (name e) (description e) (type e) (organizerId e)
     (eligibility e) (tags e) (registrationDeadline e) (startDate e)
     (endDate e) (registrationLimit e) (statusOverride e) (registrationFee e)
     x (isFormLocked e) (merchandiseVariants e) (purchaseLimitPerUser e)
     (requiresPaymentApproval e).
Definition set_isFormLocked (x : bool) (e : t) : t :=
  mk (_id e) (name e) (description e) (type e) (organizerId e)
     (eligibility e) (tags e) (registrationDeadline e) (startDate e)
     (endDate e) (registrationLimit e) (statusOverride e) (registrationFee e)
     (customForm e) x (merchandiseVariants e) (purchaseLimitPerUser e)
     (requiresPaymentApproval e).
Definition set_merchandiseVariants (x : list Variant.t) (e : t) : t :=
  mk (_id e) (name e) (description e) (type e) (organizerId e)
     (eligibility e) (tags e) (registrationDeadline e) (startDate e)
     (endDate e) (registrationLimit e) (statusOverride e) (registrationFee e)
     (customForm e) (isFormLocked e) x (purchaseLimitPerUser e)
     (requiresPaymentApproval e).
Definition set_purchaseLimitPerUser (x : Z) (e : t) : t :=
  mk (_id e) (name e) (description e) (type e) (organizerId e)
     (eligibility e) (tags e) (registrationDeadline e) (startDate e)
     (endDate e) (registrationLimit e) (statusOverride e) (registrationFee e)
     (customForm e) (isFormLocked e) (merchandiseVariants e) x
     (requiresPaymentApproval e).
Definition set_requiresPaymentApproval (x : bool) (e : t) : t :=
  mk (_id e) (name e) (description e) (type e) (organizerId e)
     (eligibility e) (tags e) (registrationDeadline e) (startDate e)
     (endDate e) (registrationLimit e) (statusOverride e) (registrationFee e)
     (customForm e) (isFormLocked e) (merchandiseVariants e)
     (purchaseLimitPerUser e) x.
End Event.

(** [registrationSchema]. [ticketId] is absent until the registration is
    confirmed; [quantity] defaults to 1. *)
Module Registration.
Record t := mk {
  _id : ObjectId;
  eventId : ObjectId;
  participantId : ObjectId;
  ticketId : option string;
  formData : list (string * string);
  variantId : option ObjectId;
  quantity : Z;
  paymentProofUrl : option string;
  paymentStatus : PaymentStatus;
  attended : bool;
  attendanceTimestamp : option Date;
  manualOverride : bool;
  overrideReason : option string;
  overriddenBy : option ObjectId
}.

(** Field writes ([reg.f = x]). *)
Definition set_ticketId (x : option string) (r : t) : t :=
  mk (_id r) (eventId r) (participantId r) x (formData r) (variantId r)
     (quantity r) (paymentProofUrl r) (paymentStatus r) (attended r)
     (attendanceTimestamp r) (manualOverride r) (overrideReason r)
     (overriddenBy r).
Definition set_paymentProofUrl (x : option string) (r : t) : t :=
  mk (_id r) (eventId r) (participantId r) (ticketId r) (formData r)
     (variantId r) (quantity r) x (paymentStatus r) (attended r)
     (attendanceTimestamp r) (manualOverride r) (overrideReason r)
     (overriddenBy r).
Definition set_paymentStatus (x : PaymentStatus) (r : t) : t :=
  mk (_id r) (eventId r) (participantId r) (ticketId r) (formData r)
     (variantId r) (quantity r) (paymentProofUrl r) x (attended r)
     (attendanceTimestamp r) (manualOverride r) (overrideReason r)
     (overriddenBy r).
Definition set_attended (x : bool) (r : t) : t :=
  mk (_id r) (eventId r) (participantId r) (ticketId r) (formData r)
     (variantId r) (quantity r) (paymentProofUrl r) (paymentStatus r) x
     (attendanceTimestamp r) (manualOverride r) (overrideReason r)
     (overriddenBy r).
Definition set_attendanceTimestamp (x : option Date) (r : t) : t :=
  mk (_id r) (eventId r) (participantId r) (ticketId r) (formData r)
     (variantId r) (quantity r) (paymentProofUrl r) (paymentStatus r)
     (attended r) x (manualOverride r) (overrideReason r) (overriddenBy r).
Definition set_manualOverride (x : bool) (r : t) : t :=
  mk (_id r) (eventId r) (participantId r) (ticketId r) (formData r)
     (variantId r) (quantity r) (paymentProofUrl r) (paymentStatus r)
     (attended r) (attendanceTimestamp r) x (overrideReason r)
     (overriddenBy r).
Definition set_overrideReason (x : option string) (r : t) : t :=
  mk (_id r) (eventId r) (participantId r) (ticketId r) (formData r)
     (variantId r) (quantity r) (paymentProofUrl r) (paymentStatus r)
     (attended r) (attendanceTimestamp r) (manualOverride r) x
     (overriddenBy r).
Definition set_overriddenBy (x : option ObjectId) (r : t) : t :=
  mk (_id r) (eventId r) (participantId r) (ticketId r) (formData r)
     (variantId r) (quantity r) (paymentProofUrl r) (paymentStatus r)
     (attended r) (attendanceTimestamp r) (manualOverride r)
     (overrideReason r) x.
End Registration.

(** The fields of [userSchema] the routes read. *)
Module User.
Record t := mk {
  _id : ObjectId;
  firstName : string;
  email : string;
  role : Role;
  participantType : option ParticipantType
}.
End User.

(** The fields of [organizerSchema] the routes read. *)
Module Organizer.
Record t := mk {
  _id : ObjectId;
  userId : ObjectId;
  discordWebhookUrl : option string
}.
End Organizer.

(** The collections of the database. *)
Record Store := mkStore {
  events : list Event.t;
  registrations : list Registration.t;
  organizers : list Organizer.t;
  users : list User.t
}.

Definition set_events (x : list Event.t) (st : Store) : Store :=
  mkStore x (registrations st) (organizers st) (users st).
Definition set_registrations (x : list Registration.t) (st : Store) : Store :=
  mkStore (events st) x (organizers st) (users st).

(** ** Status resolver (routes/event.js, getEffectiveStatus)

    The source reads the clock with [new Date()]; it is the argument [now]. *)
Definition getEffectiveStatus (event : Event.t) (now : Date) : Status :=
  if bool_decide (Event.statusOverride event ∈ [Draft; Closed])
  then Event.statusOverride event
  else if decide (Event.statusOverride event = Completed) then Completed
  else if decide (now < Event.startDate event) then Published
  else if decide (now >= Event.startDate event ∧ now <= Event.endDate event)
       then Ongoing
  else Completed.

(** The case analysis of the specification, over the four values it names.
    The three time cases are read in the order they are written. *)
Definition effectiveStatus_spec
    (statusOverride : Status) (startDate endDate now : Date) : Status :=
  match statusOverride with
  | Draft => Draft
  | Closed => Closed
  | Completed => Completed
  | Published | Ongoing =>
      if now <? startDate then Published
      else if (startDate <=? now) && (now <=? endDate) then Ongoing
      else Completed
  end.

(** ** HTTP responses

    A response is the status code with its JSON body. Each body constructor
    stands for one literal of the source, quoted in its comment. *)

(** [err.message] of an exception caught by the handler's [catch]. *)
Inductive MongoError :=
| E11000_duplicate_key   (* a unique index rejects the write *)
| ValidationError        (* a schema validator rejects the document *)
| TypeError.             (* a property of [null] is read *)

(** Keys of a request body sent to [PUT /:id]: the paths of [eventSchema]
    and any other property name. *)
Inductive Key :=
| Kname | Kdescription | Ktype | KorganizerId | Keligibility | Ktags
| KregistrationDeadline | KstartDate | KendDate | KregistrationLimit
| KstatusOverride | KregistrationFee | KcustomForm | KisFormLocked
| KmerchandiseVariants | KpurchaseLimitPerUser | KrequiresPaymentApproval
| Kother (k : string).

Global Instance MongoError_eq_dec : EqDecision MongoError.
Proof. solve_decision. Defined.
Global Instance Key_eq_dec : EqDecision Key.
Proof. solve_decision. Defined.

Inductive Body :=
| OrganizerProfileNotFound      (* "Organizer profile not found." *)
| EventNotFound                 (* "Event not found." *)
| NotAuthorized                 (* "Not authorized." *)
| ServerError (e : MongoError)  (* { error: err.message } *)
| EventCreatedAsDraft           (* "Event created as draft." *)
| CannotEditOncePublished (key : Key)
                                (* `Cannot edit "${key}" once published.` *)
| CanOnlyExtendDeadline         (* "Can only extend the deadline." *)
| CanOnlyIncreaseLimit    (* "Can only increase the registration limit." *)
| OnlyStatusCanBeChanged  (* "Only status can be changed at this stage." *)
| Saved                         (* "Saved." *)
| OnlyDraftCanBeDeleted         (* "Only Draft events can be deleted." *)
| EventDeleted                  (* "Event deleted." *)
| UseOrderForMerchandise        (* "Use /order for merchandise events." *)
| RegistrationNotAvailable (status : Status)
                     (* `Registration not available (event is ${status}).` *)
| RegistrationDeadlinePassed    (* "Registration deadline has passed." *)
| ForIIITOnly                   (* "This event is for IIIT students only." *)
| ForNonIIITOnly      (* "This event is for non-IIIT participants only." *)
| RegistrationLimitReached      (* "Registration limit reached." *)
| AlreadyRegistered             (* "Already registered." *)
| Registered (ticketId : string)
                                (* "Registered.", ticketId, registration *)
| MerchandiseOnly     (* "This endpoint is for merchandise events only." *)
| OrdersNotAvailable (status : Status)
                           (* `Orders not available (event is ${status}).` *)
| OrderDeadlinePassed           (* "Order deadline has passed." *)
| VariantIdRequired             (* "variantId is required." *)
| VariantNotFound               (* "Variant not found." *)
| PurchaseLimitExceeded (limit : Z)
                                (* `Purchase limit per user is ${limit}.` *)
| AlreadyHaveActiveOrder
                    (* "You already have an active order for this event." *)
| OrderPlacedUploadProof (registrationId : ObjectId)
        (* "Order placed. Please upload your payment proof.", registrationId *)
| InsufficientStock             (* "Insufficient stock." *)
| OrderPlaced (ticketId : string)
                                (* "Order placed.", ticketId, registration *)
| PaymentProofRequired          (* "paymentProofUrl is required." *)
| OrderNotFound                 (* "Order not found." *)
| OnlyPendingProof    (* "Only Pending orders can have proof uploaded." *)
| PaymentProofSubmitted
              (* "Payment proof submitted. Awaiting organizer approval." *)
| OnlyPendingApproved           (* "Only Pending orders can be approved." *)
| InsufficientStockToApprove    (* "Insufficient stock to approve." *)
| OrderApproved (ticketId : string)
         (* "Order approved. Ticket generated and email sent.", ticketId *)
| OnlyPendingRejected           (* "Only Pending orders can be rejected." *)
| OrderRejected                 (* "Order rejected." *)
| TicketIdRequired              (* "ticketId is required." *)
| TicketNotFound                (* "Ticket not found." *)
| TicketOfDifferentEvent
                         (* "This ticket belongs to a different event." *)
| DuplicateScan (alreadyScannedAt : option Date)
            (* "Duplicate scan - already marked present.", alreadyScannedAt *)
| AttendanceMarked (attendanceTimestamp : Date)
                   (totalRegistrations scanned remaining : Z)
            (* "Attendance marked.", attendanceTimestamp, liveDashboard *)
| AttendedAndReasonRequired
                      (* "attended (boolean) and reason are required." *)
| RegistrationNotFound          (* "Registration not found." *)
| AttendanceManuallySet (attended : bool)
          (* `Attendance manually set to ${attended ? "Present" : "Absent"}.` *)
| OrganizerNotFound             (* "Organizer not found." *)
| OrganizerDeleted (deletedEventCount : Z).
        (* "Organizer and all associated data permanently deleted." *)

Record Response := res { status : Z; body : Body }.

(** A response reports success when its status code is 2xx. *)
Definition succeeded (r : Response) : Prop := 200 <= status r < 300.

Global Instance succeeded_dec r : Decision (succeeded r).
Proof. unfold succeeded. apply _. Defined.

(** ** Request bodies of [PUT /:id]

    One entry per own property of [req.body], in the order of
    [Object.keys]; the value has the type the schema casts to. *)
Inductive Update :=
| U_name (x : string)
| U_description (x : string)
| U_type (x : EventType)
| U_organizerId (x : ObjectId)
| U_eligibility (x : Eligibility)
| U_tags (x : list string)
| U_registrationDeadline (x : Date)
| U_startDate (x : Date)
| U_endDate (x : Date)
| U_registrationLimit (x : Z)
| U_statusOverride (x : Status)
| U_registrationFee (x : Z)
| U_customForm (x : list FormField.t)
| U_isFormLocked (x : bool)
| U_merchandiseVariants (x : list Variant.t)
| U_purchaseLimitPerUser (x : Z)
| U_requiresPaymentApproval (x : bool)
| U_other (k : string).

(** The property name of an entry. *)
Definition key (u : Update) : Key :=
  match u with
  | U_name _ => Kname
  | U_description _ => Kdescription
  | U_type _ => Ktype
  | U_organizerId _ => KorganizerId
  | U_eligibility _ => Keligibility
  | U_tags _ => Ktags
  | U_registrationDeadline _ => KregistrationDeadline
  | U_startDate _ => KstartDate
  | U_endDate _ => KendDate
  | U_registrationLimit _ => KregistrationLimit
  | U_statusOverride _ => KstatusOverride
  | U_registrationFee _ => KregistrationFee
  | U_customForm _ => KcustomForm
  | U_isFormLocked _ => KisFormLocked
  | U_merchandiseVariants _ => KmerchandiseVariants
  | U_purchaseLimitPerUser _ => KpurchaseLimitPerUser
  | U_requiresPaymentApproval _ => KrequiresPaymentApproval
  | U_other k => Kother k
  end.

(** [event[key] = updates[key]]. A property outside the schema is dropped
    by Mongoose's strict mode. *)
Definition assign (u : Update) (event : Event.t) : Event.t :=
  match u with
  | U_name x => Event.set_name x event
  | U_description x => Event.set_description x event
  | U_type x => Event.set_type x event
  | U_organizerId x => Event.set_organizerId x event
  | U_eligibility x => Event.set_eligibility x event
  | U_tags x => Event.set_tags x event
  | U_registrationDeadline x => Event.set_registrationDeadline x event
  | U_startDate x => Event.set_startDate x event
  | U_endDate x => Event.set_endDate x event
  | U_registrationLimit x => Event.set_registrationLimit (Some x) event
  | U_statusOverride x => Event.set_statusOverride x event
  | U_registrationFee x => Event.set_registrationFee x event
  | U_customForm x => Event.set_customForm x event
  | U_isFormLocked x => Event.set_isFormLocked x event
  | U_merchandiseVariants x => Event.set_merchandiseVariants x event
  | U_purchaseLimitPerUser x => Event.set_purchaseLimitPerUser x event
  | U_requiresPaymentApproval x => Event.set_requiresPaymentApproval x event
  | U_other _ => event
  end.

(** [Object.assign(event, updates)]. *)
Definition Object_assign (event : Event.t) (updates : list Update) : Event.t :=
  foldl (λ e u, assign u e) event updates.

(** ** Storage layer (Mongoose models) *)

(** [Event.findById(id)]. *)
Definition Event_findById (id : ObjectId) (evs : list Event.t)
  : option (nat * Event.t) :=
  list_find (λ e, Event._id e = id) evs.

(** [Organizer.findOne({ userId })]. *)
Definition Organizer_findOne (userId : ObjectId) (os : list Organizer.t)
  : option (nat * Organizer.t) :=
  list_find (λ o, Organizer.userId o = userId) os.

(** [Organizer.findById(id)]. *)
Definition Organizer_findById (id : ObjectId) (os : list Organizer.t)
  : option (nat * Organizer.t) :=
  list_find (λ o, Organizer._id o = id) os.

(** [User.findById(id)]. *)
Definition User_findById (id : ObjectId) (us : list User.t)
  : option (nat * User.t) :=
  list_find (λ u, User._id u = id) us.

(** [event.merchandiseVariants.id(variantId)]. *)
Definition variants_id (variantId : ObjectId) (vs : list Variant.t)
  : option (nat * Variant.t) :=
  list_find (λ v, Variant._id v = variantId) vs.

(** The filter [{ eventId, participantId }]. *)
Definition of_pair (eventId participantId : ObjectId) (r : Registration.t)
  : Prop :=
  Registration.eventId r = eventId ∧
  Registration.participantId r = participantId.

Global Instance of_pair_dec e p r : Decision (of_pair e p r).
Proof. unfold of_pair. apply _. Defined.

(** [Registration.findOne({ eventId, participantId })]. *)
Definition Registration_findOne (eventId participantId : ObjectId)
    (regs : list Registration.t) : option (nat * Registration.t) :=
  list_find (of_pair eventId participantId) regs.

(** [Registration.find({ eventId, participantId })]. *)
Definition Registration_find (eventId participantId : ObjectId)
    (regs : list Registration.t) : list Registration.t :=
  filter (of_pair eventId participantId) regs.

(** [Registration.findOne({ _id: regId, eventId })]. *)
Definition Registration_findOrder (regId eventId : ObjectId)
    (regs : list Registration.t) : option (nat * Registration.t) :=
  list_find (λ r, Registration._id r = regId ∧
                  Registration.eventId r = eventId) regs.

(** [Registration.findOne({ _id: regId, eventId, participantId })]. *)
Definition Registration_findOwnOrder (regId eventId participantId : ObjectId)
    (regs : list Registration.t) : option (nat * Registration.t) :=
  list_find (λ r, Registration._id r = regId ∧
                  Registration.eventId r = eventId ∧
                  Registration.participantId r = participantId) regs.

(** [Registration.findOne({ ticketId })]. *)
Definition Registration_findByTicket (ticketId : string)
    (regs : list Registration.t) : option (nat * Registration.t) :=
  list_find (λ r, Registration.ticketId r = Some ticketId) regs.

(** [Registration.countDocuments({ eventId })]. *)
Definition countDocuments (eventId : ObjectId) (regs : list Registration.t)
  : Z :=
  Z.of_nat (length (filter (λ r, Registration.eventId r = eventId) regs)).

(** [Registration.countDocuments({ eventId, attended: true })]. *)
Definition countAttended (eventId : ObjectId) (regs : list Registration.t)
  : Z :=
  Z.of_nat (length (filter (λ r, Registration.eventId r = eventId ∧
                                 Registration.attended r = true) regs)).

(** A new [ObjectId], different from the ones in use. *)
Definition newObjectId (used : list ObjectId) : ObjectId :=
  1 + foldr Z.max 0 used.

(** The unique compound index [{ eventId: 1, participantId: 1 }] of
    [registrationSchema]: some stored document has this pair. *)
Definition pair_indexed (eventId participantId : ObjectId)
    (regs : list Registration.t) : Prop :=
  Exists (of_pair eventId participantId) regs.

(** The unique sparse index on [ticketId]: a document without a ticket is
    not indexed; a ticket collides when some stored document carries it. *)
Definition ticket_indexed (ticketId : option string)
    (regs : list Registration.t) : Prop :=
  match ticketId with
  | None => False
  | Some t => Exists (λ r, Registration.ticketId r = Some t) regs
  end.

Global Instance pair_indexed_dec e p regs : Decision (pair_indexed e p regs).
Proof. unfold pair_indexed. apply _. Defined.
Global Instance ticket_indexed_dec t regs : Decision (ticket_indexed t regs).
Proof. unfold ticket_indexed. destruct t; apply _. Defined.

(** [Registration.create(doc)]: the insert is refused with E11000 when a
    unique index already holds the document's key. *)
Definition Registration_create (doc : Registration.t)
    (regs : list Registration.t) : MongoError + list Registration.t :=
  if decide (pair_indexed (Registration.eventId doc)
                          (Registration.participantId doc) regs)
  then inl E11000_duplicate_key
  else if decide (ticket_indexed (Registration.ticketId doc) regs)
  then inl E11000_duplicate_key
  else inr (regs ++ [doc]).

(** [reg.save()] of the document loaded from position [i] after its
    [ticketId] was set: the ticket index is checked against the other
    documents. *)
Definition Registration_save_ticket (i : nat) (doc : Registration.t)
    (regs : list Registration.t) : MongoError + list Registration.t :=
  if decide (ticket_indexed (Registration.ticketId doc) (delete i regs))
  then inl E11000_duplicate_key
  else inr (<[i := doc]> regs).

(** The document [Registration.create] builds from the given fields and the
    schema defaults. *)
Definition new_registration (regs : list Registration.t)
    (eventId participantId : ObjectId) (ticketId : option string)
    (formData : list (string * string)) (variantId : option ObjectId)
    (quantity : Z) (paymentStatus : PaymentStatus) : Registration.t :=
  Registration.mk (newObjectId (Registration._id <$> regs))
    eventId participantId ticketId formData variantId quantity None
    paymentStatus false None false None None.

(** Validators of [eventSchema] on one path: a [required] string is not
    empty; [stock] and [price] of a variant have [min: 0]. *)
Definition path_valid (k : Key) (event : Event.t) : bool :=
  match k with
  | Kname => bool_decide (Event.name event ≠ EmptyString)
  | Kdescription => bool_decide (Event.description event ≠ EmptyString)
  | KmerchandiseVariants =>
      forallb (λ v, bool_decide (0 <= Variant.stock v) &&
                    bool_decide (0 <= Variant.price v))
              (Event.merchandiseVariants event)
  | _ => true
  end.

(** Validation run by [event.save()] on the modified paths. *)
Definition Event_validate (modified : list Key) (event : Event.t) : bool :=
  forallb (λ k, path_valid k event) modified.

Definition schema_paths : list Key :=
  [Kname; Kdescription; Ktype; KorganizerId; Keligibility; Ktags;
   KregistrationDeadline; KstartDate; KendDate; KregistrationLimit;
   KstatusOverride; KregistrationFee; KcustomForm; KisFormLocked;
   KmerchandiseVariants; KpurchaseLimitPerUser; KrequiresPaymentApproval].

(** ** Ticket issuer (routes/event.js, generateTicketId)

    [`TKT-${Date.now()}-${Math.random().toString(36).substr(2, 6)
    .toUpperCase()}`]; [rnd] is the random suffix. *)
Definition generateTicketId (now : Date) (rnd : string) : string :=
  "TKT-" +:+ pretty now +:+ "-" +:+ rnd.

(** ** Route handlers (routes/event.js)

    Every clock read of one request returns the same instant [now]. *)

(** JavaScript truthiness of an optional string: [undefined] and the empty
    string are falsy. *)
Definition truthy (s : option string) : option string :=
  match s with
  | Some (String _ _) => s
  | _ => None
  end.

(** [POST /] : create an event as Draft. [body] holds the fields of
    [req.body]; [_id] is assigned by the database. *)
Definition createEvent (st : Store) (userId : ObjectId) (body : Event.t)
  : Store * Response :=
  match Organizer_findOne userId (organizers st) with
  | None => (st, res 404 OrganizerProfileNotFound)
  | Some (_, organizer) =>
  let event :=
    Event.set_statusOverride Draft
      (Event.set_organizerId (Organizer._id organizer)
         (Event.set_id (newObjectId (Event._id <$> events st)) body)) in
  if Event_validate schema_paths event
  then (set_events (events st ++ [event]) st, res 201 EventCreatedAsDraft)
  else (st, res 500 (ServerError ValidationError))
  end.

(** The fields editable once published. *)
Definition allowed : list Key :=
  [Kdescription; KregistrationDeadline; KregistrationLimit; KstatusOverride].

(** [updates[key] < event.registrationLimit]: a comparison with an absent
    limit ([undefined]) is false. *)
Definition lt_limit (x : Z) (limit : option Z) : bool :=
  match limit with
  | Some l => bool_decide (x < l)
  | None => false
  end.

(** The loop of the Published branch: the first illegal key returns its
    400 response; otherwise the in-memory event with every key assigned. *)
Fixpoint editPublished (event : Event.t) (updates : list Update)
  : Response + Event.t :=
  match updates with
  | [] => inr event
  | u :: rest =>
      if bool_decide (key u ∉ allowed)
      then inl (res 400 (CannotEditOncePublished (key u)))
      else
        match u with
        | U_registrationDeadline x =>
            if decide (x < Event.registrationDeadline event)
            then inl (res 400 CanOnlyExtendDeadline)
            else editPublished (assign u event) rest
        | U_registrationLimit x =>
            if lt_limit x (Event.registrationLimit event)
            then inl (res 400 CanOnlyIncreaseLimit)
            else editPublished (assign u event) rest
        | _ => editPublished (assign u event) rest
        end
  end.

(** The status branches of [PUT /:id]: a 400 response, or the in-memory
    event with the paths it modified. No branch handles Closed. *)
Definition editBranches (event : Event.t) (currentStatus : Status)
    (updates : list Update) : Response + (Event.t * list Key) :=
  if decide (currentStatus = Draft)
  then inr (Object_assign event updates, key <$> updates)
  else if decide (currentStatus = Published)
  then match editPublished event updates with
       | inl r => inl r
       | inr event' => inr (event', key <$> updates)
       end
  else if bool_decide (currentStatus ∈ [Ongoing; Completed])
  then match updates with
       | [U_statusOverride x] =>
           inr (Event.set_statusOverride x event, [KstatusOverride])
       | _ => inl (res 400 OnlyStatusCanBeChanged)
       end
  else inr (event, []).

(** [PUT /:id] : edit or publish an event. *)
Definition editEvent (st : Store) (userId eventId : ObjectId)
    (updates : list Update) (now : Date) : Store * Response :=
  match Organizer_findOne userId (organizers st) with
  | None => (st, res 404 OrganizerProfileNotFound)
  | Some (_, organizer) =>
  match Event_findById eventId (events st) with
  | None => (st, res 404 EventNotFound)
  | Some (i, event) =>
  if decide (Event.organizerId event ≠ Organizer._id organizer)
  then (st, res 403 NotAuthorized) else
  let currentStatus := getEffectiveStatus event now in
  match editBranches event currentStatus updates with
  | inl r => (st, r)
  | inr (event', modified) =>
      if Event_validate modified event'
      then (set_events (<[i := event']> (events st)) st, res 200 Saved)
      else (st, res 500 (ServerError ValidationError))
  end
  end
  end.

(** [DELETE /:id] : delete a Draft event and its registrations. *)
Definition deleteEvent (st : Store) (userId eventId : ObjectId) (now : Date)
  : Store * Response :=
  match Organizer_findOne userId (organizers st) with
  | None => (st, res 404 OrganizerProfileNotFound)
  | Some (_, organizer) =>
  match Event_findById eventId (events st) with
  | None => (st, res 404 EventNotFound)
  | Some (i, event) =>
  if decide (Event.organizerId event ≠ Organizer._id organizer)
  then (st, res 403 NotAuthorized) else
  if decide (getEffectiveStatus event now ≠ Draft)
  then (st, res 400 OnlyDraftCanBeDeleted) else
  (set_registrations
     (filter (λ r, Registration.eventId r ≠ eventId) (registrations st))
     (set_events (delete i (events st)) st),
   res 200 EventDeleted)
  end
  end.

(** The two eligibility guards of [/register] and [/order]:
    [event.eligibility === "iiit" && participant.participantType !== "iiit"]
    and its "non-iiit" twin. [participant] is read only when the left
    operand holds; reading it when [null] throws. *)
Definition eligibility_guard (event : Event.t) (participant : option User.t)
  : option Response :=
  match Event.eligibility event with
  | elig_iiit =>
      match participant with
      | None => Some (res 500 (ServerError TypeError))
      | Some p =>
          if decide (User.participantType p ≠ Some iiit)
          then Some (res 403 ForIIITOnly) else None
      end
  | elig_non_iiit =>
      match participant with
      | None => Some (res 500 (ServerError TypeError))
      | Some p =>
          if decide (User.participantType p ≠ Some non_iiit)
          then Some (res 403 ForNonIIITOnly) else None
      end
  | elig_all => None
  end.

(** The capacity guard of [/register]:
    [if (event.registrationLimit) { count = ...; if (count >= limit) ... }].
    An absent limit and the number 0 are falsy. *)
Definition limit_reached (event : Event.t) (regs : list Registration.t)
  : bool :=
  match Event.registrationLimit event with
  | None => false
  | Some limit =>
      if decide (limit = 0) then false
      else bool_decide (countDocuments (Event._id event) regs >= limit)
  end.

(** [POST /:id/register] : register for a normal event. *)
Definition register (st : Store) (userId eventId : ObjectId)
    (formData : list (string * string)) (now : Date) (rnd : string)
  : Store * Response :=
  let participant := snd <$> User_findById userId (users st) in
  match Event_findById eventId (events st) with
  | None => (st, res 404 EventNotFound)
  | Some (i, event) =>
  if decide (Event.type event ≠ normal)
  then (st, res 400 UseOrderForMerchandise) else
  let status := getEffectiveStatus event now in
  if bool_decide (status ∉ [Published; Ongoing])
  then (st, res 400 (RegistrationNotAvailable status)) else
  if decide (now > Event.registrationDeadline event)
  then (st, res 400 RegistrationDeadlinePassed) else
  match eligibility_guard event participant with
  | Some r => (st, r)
  | None =>
  if limit_reached event (registrations st)
  then (st, res 400 RegistrationLimitReached) else
  match Registration_findOne (Event._id event) userId (registrations st) with
  | Some _ => (st, res 400 AlreadyRegistered)
  | None =>
  let ticketId := generateTicketId now rnd in
  match Registration_create
          (new_registration (registrations st) (Event._id event) userId
             (Some ticketId) formData None 1 NotApplicable)
          (registrations st) with
  | inl e => (st, res 500 (ServerError e))
  | inr regs' =>
  let st1 := set_registrations regs' st in
  let st2 :=
    if Event.isFormLocked event then st1
    else set_events (<[i := Event.set_isFormLocked true event]> (events st))
                    st1 in
  match participant with
  | None => (st2, res 500 (ServerError TypeError))
  | Some _ => (st2, res 201 (Registered ticketId))
  end
  end
  end
  end
  end.

(** [pastOrders.reduce((sum, r) => sum + (r.quantity || 0), 0)]. *)
Definition totalBought (pastOrders : list Registration.t) : Z :=
  foldl (λ sum r, sum + Registration.quantity r) 0 pastOrders.

(** [POST /:id/order] : place a merchandise order. [quantity] is [None]
    when the request body has none (the destructuring default is 1);
    [variantId] is [None] when absent or falsy. *)
Definition order (st : Store) (userId eventId : ObjectId)
    (variantId : option ObjectId) (quantity : option Z)
    (now : Date) (rnd : string) : Store * Response :=
  let participant := snd <$> User_findById userId (users st) in
  match Event_findById eventId (events st) with
  | None => (st, res 404 EventNotFound)
  | Some (i, event) =>
  if decide (Event.type event ≠ merchandise)
  then (st, res 400 MerchandiseOnly) else
  let status := getEffectiveStatus event now in
  if bool_decide (status ∉ [Published; Ongoing])
  then (st, res 400 (OrdersNotAvailable status)) else
  if decide (now > Event.registrationDeadline event)
  then (st, res 400 OrderDeadlinePassed) else
  match eligibility_guard event participant with
  | Some r => (st, r)
  | None =>
  let quantity := default 1 quantity in
  match variantId with
  | None => (st, res 400 VariantIdRequired)
  | Some variantId =>
  match variants_id variantId (Event.merchandiseVariants event) with
  | None => (st, res 404 VariantNotFound)
  | Some (j, variant) =>
  let pastOrders :=
    Registration_find (Event._id event) userId (registrations st) in
  if decide (totalBought pastOrders + quantity
             > Event.purchaseLimitPerUser event)
  then (st, res 400 (PurchaseLimitExceeded (Event.purchaseLimitPerUser event)))
  else
  match Registration_findOne (Event._id event) userId (registrations st) with
  | Some _ => (st, res 400 AlreadyHaveActiveOrder)
  | None =>
  if Event.requiresPaymentApproval event then
    let doc :=
      new_registration (registrations st) (Event._id event) userId
        None [] (Some variantId) quantity Pending in
    match Registration_create doc (registrations st) with
    | inl e => (st, res 500 (ServerError e))
    | inr regs' =>
        (set_registrations regs' st,
         res 201 (OrderPlacedUploadProof (Registration._id doc)))
    end
  else
    if decide (Variant.stock variant < quantity)
    then (st, res 400 InsufficientStock) else
    let variant' :=
      Variant.set_stock (Variant.stock variant - quantity) variant in
    if decide (Variant.stock variant' < 0)
    then (st, res 500 (ServerError ValidationError)) else
    let event' :=
      Event.set_merchandiseVariants
        (<[j := variant']> (Event.merchandiseVariants event)) event in
    let st1 := set_events (<[i := event']> (events st)) st in
    let ticketId := generateTicketId now rnd in
    match Registration_create
            (new_registration (registrations st) (Event._id event) userId
               (Some ticketId) [] (Some variantId) quantity Approved)
            (registrations st) with
    | inl e => (st1, res 500 (ServerError e))
    | inr regs' =>
        let st2 := set_registrations regs' st1 in
        match participant with
        | None => (st2, res 500 (ServerError TypeError))
        | Some _ => (st2, res 201 (OrderPlaced ticketId))
        end
    end
  end
  end
  end
  end
  end.

(** [PATCH /:id/orders/:regId/proof] : attach a payment proof. *)
Definition uploadProof (st : Store) (userId eventId regId : ObjectId)
    (paymentProofUrl : option string) : Store * Response :=
  match truthy paymentProofUrl with
  | None => (st, res 400 PaymentProofRequired)
  | Some url =>
  match Registration_findOwnOrder regId eventId userId (registrations st) with
  | None => (st, res 404 OrderNotFound)
  | Some (k, reg) =>
  if decide (Registration.paymentStatus reg ≠ Pending)
  then (st, res 400 OnlyPendingProof) else
  (set_registrations
     (<[k := Registration.set_paymentProofUrl (Some url) reg]>
        (registrations st)) st,
   res 200 PaymentProofSubmitted)
  end
  end.

(** [PUT /:id/orders/:regId/approve] : approve a pending order. *)
Definition approve (st : Store) (userId eventId regId : ObjectId)
    (now : Date) (rnd : string) : Store * Response :=
  match Organizer_findOne userId (organizers st) with
  | None => (st, res 404 OrganizerProfileNotFound)
  | Some (_, organizer) =>
  match Event_findById eventId (events st) with
  | None => (st, res 404 EventNotFound)
  | Some (i, event) =>
  if decide (Event.organizerId event ≠ Organizer._id organizer)
  then (st, res 403 NotAuthorized) else
  match Registration_findOrder regId (Event._id event) (registrations st) with
  | None => (st, res 404 OrderNotFound)
  | Some (k, reg) =>
  if decide (Registration.paymentStatus reg ≠ Pending)
  then (st, res 400 OnlyPendingApproved) else
  match Registration.variantId reg ≫=
          (λ v, variants_id v (Event.merchandiseVariants event)) with
  | None => (st, res 400 InsufficientStockToApprove)
  | Some (j, variant) =>
  if decide (Variant.stock variant < Registration.quantity reg)
  then (st, res 400 InsufficientStockToApprove) else
  let variant' :=
    Variant.set_stock (Variant.stock variant - Registration.quantity reg)
                      variant in
  if decide (Variant.stock variant' < 0)
  then (st, res 500 (ServerError ValidationError)) else
  let event' :=
    Event.set_merchandiseVariants
      (<[j := variant']> (Event.merchandiseVariants event)) event in
  let st1 := set_events (<[i := event']> (events st)) st in
  let ticketId := generateTicketId now rnd in
  let reg' :=
    Registration.set_ticketId (Some ticketId)
      (Registration.set_paymentStatus Approved reg) in
  match Registration_save_ticket k reg' (registrations st) with
  | inl e => (st1, res 500 (ServerError e))
  | inr regs' =>
  let st2 := set_registrations regs' st1 in
  match User_findById (Registration.participantId reg) (users st) with
  | None => (st2, res 500 (ServerError TypeError))
  | Some _ => (st2, res 200 (OrderApproved ticketId))
  end
  end
  end
  end
  end
  end.

(** [PUT /:id/orders/:regId/reject] : reject a pending order. *)
Definition reject (st : Store) (userId eventId regId : ObjectId)
  : Store * Response :=
  match Organizer_findOne userId (organizers st) with
  | None => (st, res 404 OrganizerProfileNotFound)
  | Some (_, organizer) =>
  match Event_findById eventId (events st) with
  | None => (st, res 404 EventNotFound)
  | Some (i, event) =>
  if decide (Event.organizerId event ≠ Organizer._id organizer)
  then (st, res 403 NotAuthorized) else
  match Registration_findOrder regId (Event._id event) (registrations st) with
  | None => (st, res 404 OrderNotFound)
  | Some (k, reg) =>
  if decide (Registration.paymentStatus reg ≠ Pending)
  then (st, res 400 OnlyPendingRejected) else
  (set_registrations
     (<[k := Registration.set_paymentStatus Rejected reg]> (registrations st))
     st,
   res 200 OrderRejected)
  end
  end
  end.

(** [POST /:id/scan] : mark attendance from a scanned ticket. *)
Definition scan (st : Store) (userId eventId : ObjectId)
    (ticketId : option string) (now : Date) : Store * Response :=
  match truthy ticketId with
  | None => (st, res 400 TicketIdRequired)
  | Some ticketId =>
  match Organizer_findOne userId (organizers st) with
  | None => (st, res 404 OrganizerProfileNotFound)
  | Some (_, organizer) =>
  match Event_findById eventId (events st) with
  | None => (st, res 404 EventNotFound)
  | Some (i, event) =>
  if decide (Event.organizerId event ≠ Organizer._id organizer)
  then (st, res 403 NotAuthorized) else
  match Registration_findByTicket ticketId (registrations st) with
  | None => (st, res 404 TicketNotFound)
  | Some (k, reg) =>
  if decide (Registration.eventId reg ≠ eventId)
  then (st, res 400 TicketOfDifferentEvent) else
  if Registration.attended reg
  then (st, res 409 (DuplicateScan (Registration.attendanceTimestamp reg)))
  else
  let reg' :=
    Registration.set_attendanceTimestamp (Some now)
      (Registration.set_attended true reg) in
  let regs' := <[k := reg']> (registrations st) in
  let totalRegs := countDocuments (Event._id event) regs' in
  let totalScanned := countAttended (Event._id event) regs' in
  (set_registrations regs' st,
   res 200 (AttendanceMarked now totalRegs totalScanned
                             (totalRegs - totalScanned)))
  end
  end
  end
  end.

(** [PUT /:id/attendance/:regId/override] : manual attendance override.
    [attended] is [None] when the request value is not a boolean. *)
Definition override (st : Store) (userId eventId regId : ObjectId)
    (attended : option bool) (reason : option string) (now : Date)
  : Store * Response :=
  match attended, truthy reason with
  | Some attended, Some reason =>
  match Organizer_findOne userId (organizers st) with
  | None => (st, res 404 OrganizerProfileNotFound)
  | Some (_, organizer) =>
  match Event_findById eventId (events st) with
  | None => (st, res 404 EventNotFound)
  | Some (i, event) =>
  if decide (Event.organizerId event ≠ Organizer._id organizer)
  then (st, res 403 NotAuthorized) else
  match Registration_findOrder regId (Event._id event) (registrations st) with
  | None => (st, res 404 RegistrationNotFound)
  | Some (k, reg) =>
  let reg' :=
    Registration.set_overriddenBy (Some userId)
      (Registration.set_overrideReason (Some reason)
         (Registration.set_manualOverride true
            (Registration.set_attendanceTimestamp
               (if attended then Some now else None)
               (Registration.set_attended attended reg)))) in
  (set_registrations (<[k := reg']> (registrations st)) st,
   res 200 (AttendanceManuallySet attended))
  end
  end
  end
  | _, _ => (st, res 400 AttendedAndReasonRequired)
  end.

(** ** Organizer deletion (routes/admin.js, DELETE /organizers/:userId)

    The cascade runs in one transaction; forum messages and password reset
    requests are outside the modelled collections. *)
Definition adminDeleteOrganizer (st : Store) (userId : ObjectId)
  : Store * Response :=
  match list_find (λ u, User._id u = userId ∧ User.role u = role_organizer)
                  (users st) with
  | None => (st, res 404 OrganizerNotFound)
  | Some (_, user) =>
  match Organizer_findOne (User._id user) (organizers st) with
  | None => (st, res 404 OrganizerProfileNotFound)
  | Some (_, organizer) =>
  let owned := λ e, Event.organizerId e = Organizer._id organizer in
  let eventIds := Event._id <$> filter owned (events st) in
  let regs' :=
    filter (λ r, Registration.eventId r ∉ eventIds) (registrations st) in
  let events' := filter (λ e, ¬ owned e) (events st) in
  let organizers' :=
    match Organizer_findById (Organizer._id organizer) (organizers st) with
    | Some (o, _) => delete o (organizers st)
    | None => organizers st
    end in
  let users' :=
    match User_findById (User._id user) (users st) with
    | Some (u, _) => delete u (users st)
    | None => users st
    end in
  (mkStore events' regs' organizers' users',
   res 200 (OrganizerDeleted (Z.of_nat (length eventIds))))
  end
  end.

(** ** The system as a transition function *)

(** One request, after authentication. *)
Inductive Op :=
| OpCreateEvent (userId : ObjectId) (body : Event.t)
| OpEditEvent (userId eventId : ObjectId) (updates : list Update)
| OpDeleteEvent (userId eventId : ObjectId)
| OpRegister (userId eventId : ObjectId) (formData : list (string * string))
| OpOrder (userId eventId : ObjectId) (variantId : option ObjectId)
          (quantity : option Z)
| OpUploadProof (userId eventId regId : ObjectId)
                (paymentProofUrl : option string)
| OpApprove (userId eventId regId : ObjectId)
| OpReject (userId eventId regId : ObjectId)
| OpScan (userId eventId : ObjectId) (ticketId : option string)
| OpOverride (userId eventId regId : ObjectId) (attended : option bool)
             (reason : option string)
| OpAdminDeleteOrganizer (userId : ObjectId).

(** What a request reads from its environment: the clock and the random
    suffix of a ticket. *)
Record Env := mkEnv { now : Date; rnd : string }.

Definition step (st : Store) (op : Op) (env : Env) : Store * Response :=
  match op with
  | OpCreateEvent u body => createEvent st u body
  | OpEditEvent u e updates => editEvent st u e updates (now env)
  | OpDeleteEvent u e => deleteEvent st u e (now env)
  | OpRegister u e formData => register st u e formData (now env) (rnd env)
  | OpOrder u e v q => order st u e v q (now env) (rnd env)
  | OpUploadProof u e r url => uploadProof st u e r url
  | OpApprove u e r => approve st u e r (now env) (rnd env)
  | OpReject u e r => reject st u e r
  | OpScan u e t => scan st u e t (now env)
  | OpOverride u e r a reason => override st u e r a reason (now env)
  | OpAdminDeleteOrganizer u => adminDeleteOrganizer st u
  end.

(** The store after a sequence of requests. *)
Definition run (st : Store) (trace : list (Op * Env)) : Store :=
  foldl (λ s oe, (step s oe.1 oe.2).1) st trace.

(** ** Specification vocabulary *)

(** The caller [userId] has an organizer profile and owns the event stored
    at position [i] under [eventId]: the three guards that open every
    organizer route pass. *)
Definition owns (st : Store) (userId eventId : ObjectId) (i : nat)
    (event : Event.t) : Prop :=
  ∃ o organizer,
    Organizer_findOne userId (organizers st) = Some (o, organizer) ∧
    Event_findById eventId (events st) = Some (i, event) ∧
    Event.organizerId event = Organizer._id organizer.



(** The ticket [ticketId] presented by organizer [userId] at event
    [eventId] reaches a registration of that event already marked attended
    at [scannedAt]. *)
Definition scanned_at (st : Store) (userId eventId : ObjectId)
    (ticketId : string) (scannedAt : Date) : Prop :=
  ∃ i event k reg,
    owns st userId eventId i event ∧
    Registration_findByTicket ticketId (registrations st) = Some (k, reg) ∧
    Registration.eventId reg = eventId ∧
    Registration.attended reg = true ∧
    Registration.attendanceTimestamp reg = Some scannedAt.

(** A trace made of scan requests only. *)
Definition scans_only (trace : list (Op * Env)) : Prop :=
  Forall (λ oe, ∃ u e t, oe.1 = OpScan u e t) trace.

(** A trace with no manual attendance override and no deletion of an
    event or of an organizer. *)
Definition no_override_or_deletion (trace : list (Op * Env)) : Prop :=
  Forall (λ oe, match oe.1 with
                | OpOverride _ _ _ _ _ | OpDeleteEvent _ _
                | OpAdminDeleteOrganizer _ => False
                | _ => True
                end) trace.

(** Every registration of [regs] is still stored at its position in
    [regs'], and one that was marked attended keeps the mark and its
    timestamp. *)
Definition keeps_attendance (regs regs' : list Registration.t) : Prop :=
  ∀ k r, regs !! k = Some r →
    ∃ r', regs' !! k = Some r' ∧
      (Registration.attended r = true →
       Registration.attended r' = true ∧
       Registration.attendanceTimestamp r'
       = Registration.attendanceTimestamp r).

(** [/order] is open to the participant: the event is a merchandise event
    in a phase and before the deadline that accept orders, the participant
    exists and is eligible, and the variant exists. *)
Definition order_open (st : Store) (userId eventId variantId : ObjectId)
    (now : Date) (i : nat) (event : Event.t)
    (j : nat) (variant : Variant.t) : Prop :=
  Event_findById eventId (events st) = Some (i, event) ∧
  Event.type event = merchandise ∧
  getEffectiveStatus event now ∈ [Published; Ongoing] ∧
  now <= Event.registrationDeadline event ∧
  (∃ p participant,
     User_findById userId (users st) = Some (p, participant) ∧
     eligibility_guard event (Some participant) = None) ∧
  variants_id variantId (Event.merchandiseVariants event)
    = Some (j, variant).

(** The guards of [/order] that precede the stock handling all pass: the
    route is open, the quantity is within the purchase limit and the
    participant holds no registration for the event. *)
Definition order_cleared (st : Store) (userId eventId variantId : ObjectId)
    (quantity : Z) (now : Date) (i : nat) (event : Event.t)
    (j : nat) (variant : Variant.t) : Prop :=
  order_open st userId eventId variantId now i event j variant ∧
  quantity <= Event.purchaseLimitPerUser event ∧
  Registration_findOne (Event._id event) userId (registrations st) = None.

(** [/register] is open to the participant: the event is a normal event
    in a phase and before the deadline that accept registrations, and the
    participant exists and is eligible. *)
Definition register_open (st : Store) (userId eventId : ObjectId)
    (now : Date) (i : nat) (event : Event.t) : Prop :=
  Event_findById eventId (events st) = Some (i, event) ∧
  Event.type event = normal ∧
  getEffectiveStatus event now ∈ [Published; Ongoing] ∧
  now <= Event.registrationDeadline event ∧
  (∃ p participant,
     User_findById userId (users st) = Some (p, participant) ∧
     eligibility_guard event (Some participant) = None).

(** The guards of [/register] other than the capacity guard all pass. *)
Definition register_cleared (st : Store) (userId eventId : ObjectId)
    (now : Date) (i : nat) (event : Event.t) : Prop :=
  register_open st userId eventId now i event ∧
  Registration_findOne (Event._id event) userId (registrations st) = None.

(** The event after [variant.stock -= quantity] on its variant [j]. *)
Definition with_stock_taken (event : Event.t) (j : nat) (variant : Variant.t)
    (quantity : Z) : Event.t :=
  Event.set_merchandiseVariants
    (<[j := Variant.set_stock (Variant.stock variant - quantity) variant]>
       (Event.merchandiseVariants event)) event.

(** The organizer [userId] owns the event and [regId] names a registration
    of that event: the guards of the approve and reject routes before the
    payment-status check pass. *)
Definition order_located (st : Store) (userId eventId regId : ObjectId)
    (i : nat) (event : Event.t) (k : nat) (reg : Registration.t) : Prop :=
  owns st userId eventId i event ∧
  Registration_findOrder regId (Event._id event) (registrations st)
    = Some (k, reg).

(** The order's variant exists on the event, at position [j], with stock
    at least the order's quantity. *)
Definition in_stock (event : Event.t) (reg : Registration.t)
    (j : nat) (variant : Variant.t) : Prop :=
  Registration.variantId reg ≫=
    (λ v, variants_id v (Event.merchandiseVariants event))
    = Some (j, variant) ∧
  Registration.quantity reg <= Variant.stock variant.

(** The key of a registration in the compound index. *)
Definition pair_of (r : Registration.t) : ObjectId * ObjectId :=
  (Registration.eventId r, Registration.participantId r).

(** At most one registration per (event, participant) pair. *)
Definition unique_pairs (regs : list Registration.t) : Prop :=
  NoDup (pair_of <$> regs).

(** A trace made of register and place-order requests only. *)
Definition registrations_only (trace : list (Op * Env)) : Prop :=
  Forall (λ oe, match oe.1 with
                | OpRegister _ _ _ | OpOrder _ _ _ _ => True
                | _ => False
                end) trace.

(** The answers of the guards of [/register] that run before its
    duplicate check. *)
Definition register_guard_error (r : Response) : Prop :=
  match body r with
  | EventNotFound => status r = 404
  | UseOrderForMerchandise | RegistrationNotAvailable _
  | RegistrationDeadlinePassed | RegistrationLimitReached => status r = 400
  | ForIIITOnly | ForNonIIITOnly => status r = 403
  | ServerError TypeError => status r = 500
  | _ => False
  end.

(** The answers of the guards of [/order] that run before its duplicate
    check. *)
Definition order_guard_error (r : Response) : Prop :=
  match body r with
  | EventNotFound | VariantNotFound => status r = 404
  | MerchandiseOnly | OrdersNotAvailable _ | OrderDeadlinePassed
  | VariantIdRequired | PurchaseLimitExceeded _ => status r = 400
  | ForIIITOnly | ForNonIIITOnly => status r = 403
  | ServerError TypeError => status r = 500
  | _ => False
  end.

(** The event [eventId] is stored and its custom form is locked. *)
Definition form_locked_in (evs : list Event.t) (eventId : ObjectId) : Prop :=
  ∃ i event,
    Event_findById eventId evs = Some (i, event) ∧
    Event.isFormLocked event = true.

Definition form_locked (st : Store) (eventId : ObjectId) : Prop :=
  form_locked_in (events st) eventId.

(** The event [eventId] is stored and its effective status is Draft. *)
Definition in_draft (st : Store) (eventId : ObjectId) (now : Date) : Prop :=
  ∃ i event,
    Event_findById eventId (events st) = Some (i, event) ∧
    getEffectiveStatus event now = Draft.

(** The requests that can clear the lock of event [eventId] or remove the
    event: an edit sent while it is Draft whose body sets [isFormLocked] to
    false, its deletion while it is Draft, and the deletion of the
    organizer who owns it. *)
Definition unlocks (st : Store) (eventId : ObjectId) (op : Op) (env : Env)
  : Prop :=
  match op with
  | OpEditEvent _ e updates =>
      e = eventId ∧ in_draft st eventId (now env) ∧
      U_isFormLocked false ∈ updates
  | OpDeleteEvent _ e => e = eventId ∧ in_draft st eventId (now env)
  | OpAdminDeleteOrganizer u => ∃ i event, owns st u eventId i event
  | _ => False
  end.

(** No request of the trace, run from [st], is one of those. *)
Fixpoint never_unlocks (st : Store) (eventId : ObjectId)
    (trace : list (Op * Env)) : Prop :=
  match trace with
  | [] => True
  | (op, env) :: rest =>
      ¬ unlocks st eventId op env ∧
      never_unlocks (step st op env).1 eventId rest
  end.

(** [evs'] is [evs], possibly with one event rewritten in place by an
    event with the same [_id] that, if it is event [eventId] with its form
    locked, still has its form locked. *)
Definition rewrites_locked (eventId : ObjectId) (evs evs' : list Event.t)
  : Prop :=
  evs' = evs ∨
  ∃ i ev ev',
    evs !! i = Some ev ∧ Event._id ev' = Event._id ev ∧
    (Event._id ev = eventId → Event.isFormLocked ev = true →
     Event.isFormLocked ev' = true) ∧
    evs' = <[i := ev']> evs.

(** ** Sample data

    One organizer (user 10, profile 100) with a normal event (1) and a
    merchandise event (2), and two participants (20 and 21). Both events
    are scheduled with deadline 50, start 100 and end 200. *)
Module Sample.
Definition organiser : Organizer.t := Organizer.mk 100 10 None.
Definition olga : User.t :=
  User.mk 10 "Olga" "olga@clubs.iiit.ac.in" role_organizer None.
Definition alice : User.t :=
  User.mk 20 "Alice" "alice@students.iiit.ac.in" role_participant (Some iiit).
Definition bob : User.t :=
  User.mk 21 "Bob" "bob@example.org" role_participant (Some non_iiit).

Definition fest (statusOverride : Status) : Event.t :=
  Event.mk 1 "Fest" "Annual fest" normal 100 elig_all [] 50 100 200 (Some 5)
           statusOverride 0 [] false [] 1 false.

Definition tshirt (stock : Z) : Variant.t := Variant.mk 31 "M" "black" stock 250.

Definition merch (stock limit : Z) (requiresPaymentApproval : bool)
  : Event.t :=
  Event.mk 2 "Merch" "Club t-shirts" merchandise 100 elig_all [] 50 100 200
           None Published 0 [] false [tshirt stock] limit
           requiresPaymentApproval.

(** Alice's registration for the fest, holding a ticket. *)
Definition reg_fest (ticketId : string) (attended : bool)
    (attendanceTimestamp : option Date) : Registration.t :=
  Registration.mk 501 1 20 (Some ticketId) [] None 1 None NotApplicable
                  attended attendanceTimestamp false None None.

(** Alice's order of [quantity] t-shirts. *)
Definition reg_merch (ticketId : option string) (quantity : Z)
    (paymentStatus : PaymentStatus) : Registration.t :=
  Registration.mk 502 2 20 ticketId [] (Some 31) quantity None paymentStatus
                  false None false None None.

Definition store (evs : list Event.t) (regs : list Registration.t) : Store :=
  mkStore evs regs [organiser] [olga; alice; bob].
End Sample.

(** ** Store invariants *)

(** No variant of any stored event has a negative stock. *)
Definition stock_nonneg (st : Store) : Prop :=
  Forall (λ e, Forall (λ v, 0 <= Variant.stock v)
                      (Event.merchandiseVariants e)) (events st).

(** The tickets issued so far, in storage order. *)
Definition tickets (regs : list Registration.t) : list string :=
  omap Registration.ticketId regs.

(** No two stored registrations carry the same ticket. *)
Definition unique_tickets (regs : list Registration.t) : Prop :=
  NoDup (tickets regs).

(** No two stored events have the same [_id]. *)
Definition unique_event_ids (evs : list Event.t) : Prop :=
  NoDup (Event._id <$> evs).

(** Every stored registration refers to a stored event. *)
Definition refers_to_events (st : Store) : Prop :=
  Forall (λ r, Registration.eventId r ∈ Event._id <$> events st)
         (registrations st).

(** ** What one request does to the collections *)

(** Requests that remove documents. *)
Definition is_deletion (op : Op) : Prop :=
  match op with
  | OpDeleteEvent _ _ | OpAdminDeleteOrganizer _ => True
  | _ => False
  end.

Global Instance is_deletion_dec op : Decision (is_deletion op).
Proof. destruct op; simpl; apply _. Defined.

(** [regs'] is the registrations of [st] with one document inserted, for
    a stored event, which neither unique index held. *)
Definition reg_appended (st : Store) (regs' : list Registration.t) : Prop :=
  ∃ doc,
    regs' = registrations st ++ [doc] ∧
    ¬ pair_indexed (Registration.eventId doc)
                   (Registration.participantId doc) (registrations st) ∧
    ¬ ticket_indexed (Registration.ticketId doc) (registrations st) ∧
    Registration.eventId doc ∈ Event._id <$> events st.

(** [regs'] is the registrations of [st] with the document at one
    position rewritten: for the same event and participant; with the same
    ticket, unless the document was a Pending order, which may receive a
    ticket held by no other document; and with the same payment status
    unless that was Pending. *)
Definition reg_rewritten (st : Store) (regs' : list Registration.t) : Prop :=
  ∃ k r r',
    registrations st !! k = Some r ∧
    regs' = <[k := r']> (registrations st) ∧
    pair_of r' = pair_of r ∧
    (Registration.ticketId r' = Registration.ticketId r ∨
     (Registration.paymentStatus r = Pending ∧
      ¬ ticket_indexed (Registration.ticketId r')
                       (delete k (registrations st)))) ∧
    (Registration.paymentStatus r ≠ Pending →
     Registration.paymentStatus r' = Registration.paymentStatus r).

(** [evs'] is the events of [st] with the event at one position rewritten
    by one with the same [_id]. *)
Definition ev_rewritten (st : Store) (evs' : list Event.t) : Prop :=
  ∃ i ev ev',
    events st !! i = Some ev ∧ Event._id ev' = Event._id ev ∧
    evs' = <[i := ev']> (events st).

(** [evs'] is the events of [st] with one event inserted under a new
    [_id]. *)
Definition ev_appended (st : Store) (evs' : list Event.t) : Prop :=
  ∃ ev,
    evs' = events st ++ [ev] ∧
    Event._id ev = newObjectId (Event._id <$> events st).

(** Every registration of [regs] is still stored at its position in
    [regs'], for the same event and participant, and one whose payment
    status is not Pending keeps that status and its ticket. *)
Definition keeps_payment (regs regs' : list Registration.t) : Prop :=
  ∀ k r, regs !! k = Some r →
    ∃ r', regs' !! k = Some r' ∧
      pair_of r' = pair_of r ∧
      (Registration.paymentStatus r ≠ Pending →
       Registration.paymentStatus r' = Registration.paymentStatus r ∧
       Registration.ticketId r' = Registration.ticketId r).

(** A trace without deletion of an event or of an organizer. *)
Definition no_deletion (trace : list (Op * Env)) : Prop :=
  Forall (λ oe, ¬ is_deletion oe.1) trace.

(** ** Sample traces *)
Module SampleTrace.
(** Both sample events published, no registration yet. *)
Definition start : Store :=
  Sample.store [Sample.fest Published; Sample.merch 3 2 true] [].

(** Alice registers for the fest and orders two t-shirts, Bob tries to
    order five and then minus five, the owner approves Alice's order,
    scans her fest ticket and closes the fest. *)
Definition busy : list (Op * Env) :=
  [(OpRegister 20 1 [], mkEnv 40 "AAAAAA");
   (OpOrder 20 2 (Some 31) (Some 2), mkEnv 41 "BBBBBB");
   (OpOrder 21 2 (Some 31) (Some 5), mkEnv 42 "CCCCCC");
   (OpOrder 21 2 (Some 31) (Some (-5)), mkEnv 43 "DDDDDD");
   (OpApprove 10 2 2, mkEnv 44 "EEEEEE");
   (OpScan 10 1 (Some "TKT-40-AAAAAA"), mkEnv 150 "r");
   (OpEditEvent 10 1 [U_statusOverride Closed], mkEnv 160 "r")].
End SampleTrace.

(** ** Read-only routes *)

(** [canAccessForum] (routes/forum.js): the truthiness of its result. *)
Definition canAccessForum (st : Store) (userId : ObjectId) (userRole : Role)
    (eventId : ObjectId) : bool :=
  match userRole with
  | role_admin => true
  | role_organizer =>
      match Organizer_findOne userId (organizers st),
            Event_findById eventId (events st) with
      | Some (_, organizer), Some (_, event) =>
          bool_decide (Event.organizerId event = Organizer._id organizer)
      | _, _ => false
      end
  | role_participant =>
      match Registration_findOne eventId userId (registrations st) with
      | Some _ => true
      | None => false
      end
  end.

(** [Registration.find({ eventId }).sort({ createdAt: -1 })]: the
    registrations of the event, newest first. *)
Definition Registration_findByEvent (eventId : ObjectId)
    (regs : list Registration.t) : list Registration.t :=
  reverse (filter (λ r, Registration.eventId r = eventId) regs).

(** The numbers of the [analytics] object of [GET /:id/organizer-details]. *)
Module Analytics.
Record t := mk {
  totalRegistrations : Z;
  attendanceCount : Z;
  revenue : Z
}.
End Analytics.

(** [totalRevenue] of the organizer details: the fee times the number of
    registrations for a normal event; for merchandise the sum over every
    registration whose variant exists of [reg.quantity * variant.price]. *)
Definition totalRevenue (event : Event.t) (registrations : list Registration.t)
  : Z :=
  match Event.type event with
  | normal => Z.of_nat (length registrations) * Event.registrationFee event
  | merchandise =>
      foldl (λ totalRevenue reg,
               match Registration.variantId reg ≫=
                       (λ v, variants_id v (Event.merchandiseVariants event))
               with
               | Some (_, variant) =>
                   totalRevenue
                   + Registration.quantity reg * Variant.price variant
               | None => totalRevenue
               end) 0 registrations
  end.

(** [GET /:id/organizer-details] : the analytics of an owned event. *)
Definition organizerDetails (st : Store) (userId eventId : ObjectId)
  : Response + Analytics.t :=
  match Organizer_findOne userId (organizers st) with
  | None => inl (res 404 OrganizerProfileNotFound)
  | Some (_, organizer) =>
  match Event_findById eventId (events st) with
  | None => inl (res 404 EventNotFound)
  | Some (_, event) =>
  if decide (Event.organizerId event ≠ Organizer._id organizer)
  then inl (res 403 NotAuthorized) else
  let registrations :=
    Registration_findByEvent (Event._id event) (registrations st) in
  let totalRegistrations := Z.of_nat (length registrations) in
  let attendedCount :=
    Z.of_nat (length (filter (λ r, Registration.attended r = true)
                             registrations)) in
  inr (Analytics.mk totalRegistrations attendedCount
                    (totalRevenue event registrations))
  end
  end.

(** The [summary] object of [GET /:id/attendance] without the formatted
    rate. *)
Module Summary.
Record t := mk { total : Z; present : Z; absent : Z }.
End Summary.

(** [GET /:id/attendance] : the live attendance summary of an owned event.
    The route sorts the registrations by [attendanceTimestamp], which does
    not change the three lengths. *)
Definition attendance (st : Store) (userId eventId : ObjectId)
  : Response + Summary.t :=
  match Organizer_findOne userId (organizers st) with
  | None => inl (res 404 OrganizerProfileNotFound)
  | Some (_, organizer) =>
  match Event_findById eventId (events st) with
  | None => inl (res 404 EventNotFound)
  | Some (_, event) =>
  if decide (Event.organizerId event ≠ Organizer._id organizer)
  then inl (res 403 NotAuthorized) else
  let registrations :=
    filter (λ r, Registration.eventId r = Event._id event)
           (registrations st) in
  let scanned := filter (λ r, Registration.attended r = true) registrations in
  let notScanned :=
    filter (λ r, Registration.attended r ≠ true) registrations in
  inr (Summary.mk (Z.of_nat (length registrations))
                  (Z.of_nat (length scanned))
                  (Z.of_nat (length notScanned)))
  end
  end.

(** The base query of [GET /] (browse): the events whose override is
    neither Draft nor Closed and that have not ended. The optional search,
    type, eligibility, date and followed filters only narrow this list. *)
Definition browse_base (evs : list Event.t) (now : Date) : list Event.t :=
  filter (λ e, (Event.statusOverride e ∉ [Draft; Closed]) ∧
               (Event.endDate e >= now)) evs.

(** ** Further vocabulary *)

(** The order in which an event passes through its statuses. *)
Definition phase (s : Status) : Z :=
  match s with
  | Draft => 0
  | Published => 1
  | Ongoing => 2
  | Completed => 3
  | Closed => 4
  end.

(** The organizer and the event a request of an organizer route names. *)
Definition organizer_route (op : Op) : option (ObjectId * ObjectId) :=
  match op with
  | OpEditEvent u e _ | OpDeleteEvent u e | OpApprove u e _ | OpReject u e _
  | OpScan u e _ | OpOverride u e _ _ _ => Some (u, e)
  | _ => None
  end.

(** The registration [reg] after the five field writes of the override
    route. *)
Definition overridden (userId : ObjectId) (attended : bool) (reason : string)
    (now : Date) (reg : Registration.t) : Registration.t :=
  Registration.set_overriddenBy (Some userId)
    (Registration.set_overrideReason (Some reason)
       (Registration.set_manualOverride true
          (Registration.set_attendanceTimestamp
             (if attended then Some now else None)
             (Registration.set_attended attended reg)))).

(** Two registrations agree on the fields the analytics read. *)
Definition same_for_analytics (r r' : Registration.t) : Prop :=
  Registration.eventId r = Registration.eventId r' ∧
  Registration.attended r = Registration.attended r' ∧
  Registration.variantId r = Registration.variantId r' ∧
  Registration.quantity r = Registration.quantity r'.

(** The unique indexes of the organizer collection: [_id] and [userId]. *)
Definition unique_organizers (os : list Organizer.t) : Prop :=
  NoDup (Organizer._id <$> os) ∧ NoDup (Organizer.userId <$> os).

(** ** Forum (models/Message.js, routes/forum.js) *)

(** [reactionSchema]. *)
Module Reaction.
Record t := mk { userId : ObjectId; emoji : string }.
End Reaction.

Global Instance Reaction_eq_dec : EqDecision Reaction.t.
Proof. solve_decision. Defined.

(** [messageSchema]. *)
Module Message.
Record t := mk {
  _id : ObjectId;
  eventId : ObjectId;
  authorId : ObjectId;
  content : string;
  parentId : option ObjectId;
  isPinned : bool;
  isAnnouncement : bool;
  isDeleted : bool;
  reactions : list Reaction.t
}.

Definition set_content (x : string) (m : t) : t :=
  mk (_id m) (eventId m) (authorId m) x (parentId m) (isPinned m)
     (isAnnouncement m) (isDeleted m) (reactions m).
Definition set_isPinned (x : bool) (m : t) : t :=
  mk (_id m) (eventId m) (authorId m) (content m) (parentId m) x
     (isAnnouncement m) (isDeleted m) (reactions m).
Definition set_isDeleted (x : bool) (m : t) : t :=
  mk (_id m) (eventId m) (authorId m) (content m) (parentId m) (isPinned m)
     (isAnnouncement m) x (reactions m).
Definition set_reactions (x : list Reaction.t) (m : t) : t :=
  mk (_id m) (eventId m) (authorId m) (content m) (parentId m) (isPinned m)
     (isAnnouncement m) (isDeleted m) x.
End Message.

(** [Message.findById(id)]. *)
Definition Message_findById (id : ObjectId) (messages : list Message.t)
  : option (nat * Message.t) :=
  list_find (λ m, Message._id m = id) messages.

(** The responses of the forum routes. *)
Module Forum.
Inductive Body :=
| MessageNotFound            (* "Message not found." *)
| NotAuthorizedToDelete      (* "Not authorized to delete this message." *)
| Deleted                    (* "Deleted." *)
| OnlyOrganizersCanPin       (* "Only organizers can pin messages." *)
| NotYourEvent               (* "Not your event." *)
| MessagePinned (isPinned : bool)
                     (* `Message ${msg.isPinned ? "pinned" : "unpinned"}.` *)
| EmojiRequired              (* "emoji is required." *)
| MustBeRegistered
               (* "Must be a registered participant or organizer." *)
| ReactionUpdated (reactions : list Reaction.t).
                             (* "Reaction updated.", reactions *)

Record Response := res { status : Z; body : Body }.
End Forum.

(** The caller is an organizer who owns the event: the test shared by
    [canAccessForum], the delete route and the pin route. *)
Definition ownsEvent (st : Store) (userId eventId : ObjectId) : bool :=
  match Organizer_findOne userId (organizers st),
        Event_findById eventId (events st) with
  | Some (_, organizer), Some (_, event) =>
      bool_decide (Event.organizerId event = Organizer._id organizer)
  | _, _ => false
  end.

(** [DELETE /:id/forum/:messageId] : soft-delete a message. *)
Definition deleteMessage (st : Store) (messages : list Message.t)
    (userId : ObjectId) (userRole : Role) (eventId messageId : ObjectId)
  : list Message.t * Forum.Response :=
  match Message_findById messageId messages with
  | None => (messages, Forum.res 404 Forum.MessageNotFound)
  | Some (k, msg) =>
  if decide (Message.eventId msg ≠ eventId)
  then (messages, Forum.res 404 Forum.MessageNotFound) else
  let canDelete :=
    if decide (userRole = role_organizer) then ownsEvent st userId eventId
    else bool_decide (Message.authorId msg = userId) in
  if negb canDelete
  then (messages, Forum.res 403 Forum.NotAuthorizedToDelete) else
  (<[k := Message.set_content "[Message deleted]"
            (Message.set_isDeleted true msg)]> messages,
   Forum.res 200 Forum.Deleted)
  end.

(** [PUT /:id/forum/:messageId/pin] : pin or unpin a message. *)
Definition pin (st : Store) (messages : list Message.t)
    (userId : ObjectId) (userRole : Role) (eventId messageId : ObjectId)
  : list Message.t * Forum.Response :=
  if decide (userRole ≠ role_organizer)
  then (messages, Forum.res 403 Forum.OnlyOrganizersCanPin) else
  if negb (ownsEvent st userId eventId)
  then (messages, Forum.res 403 Forum.NotYourEvent) else
  match Message_findById messageId messages with
  | None => (messages, Forum.res 404 Forum.MessageNotFound)
  | Some (k, msg) =>
  let msg' := Message.set_isPinned (negb (Message.isPinned msg)) msg in
  (<[k := msg']> messages,
   Forum.res 200 (Forum.MessagePinned (Message.isPinned msg')))
  end.

(** The reaction toggle of the react route: [findIndex] of the caller's
    reaction with this emoji, then [splice(existingIdx, 1)] or [push]. *)
Definition toggleReaction (reactions : list Reaction.t) (userId : ObjectId)
    (emoji : string) : list Reaction.t :=
  match list_find (λ r, Reaction.userId r = userId ∧ Reaction.emoji r = emoji)
                  reactions with
  | Some (existingIdx, _) => delete existingIdx reactions
  | None => reactions ++ [Reaction.mk userId emoji]
  end.

(** [POST /:id/forum/:messageId/react] : toggle a reaction. *)
Definition react (st : Store) (messages : list Message.t)
    (userId : ObjectId) (userRole : Role) (eventId messageId : ObjectId)
    (emoji : option string) : list Message.t * Forum.Response :=
  match truthy emoji with
  | None => (messages, Forum.res 400 Forum.EmojiRequired)
  | Some emoji =>
  if negb (canAccessForum st userId userRole eventId)
  then (messages, Forum.res 403 Forum.MustBeRegistered) else
  match Message_findById messageId messages with
  | None => (messages, Forum.res 404 Forum.MessageNotFound)
  | Some (k, msg) =>
  let reactions := toggleReaction (Message.reactions msg) userId emoji in
  (<[k := Message.set_reactions reactions msg]> messages,
   Forum.res 200 (Forum.ReactionUpdated reactions))
  end
  end.

(** ** Organizer dashboard (organizer routes, GET /dashboard) *)

(** An event the dashboard counts as completed. *)
Definition dashboard_completed (now : Date) (e : Event.t) : Prop :=
  Event.statusOverride e = Completed ∨ now > Event.endDate e.

Global Instance dashboard_completed_dec now e
  : Decision (dashboard_completed now e).
Proof. unfold dashboard_completed. apply _. Defined.







(** ** The custom form after the first registration *)

(** The event [eventId] is stored with [form] as its custom form. *)
Definition has_form_in (evs : list Event.t) (eventId : ObjectId)
    (form : list FormField.t) : Prop :=
  ∃ i event,
    Event_findById eventId evs = Some (i, event) ∧
    Event.customForm event = form.

Definition has_form (st : Store) (eventId : ObjectId)
    (form : list FormField.t) : Prop :=
  has_form_in (events st) eventId form.

(** The requests that can clear the lock of event [eventId], replace its
    custom form or remove the event: those of [unlocks], and an edit sent
    while the event is Draft whose body names [customForm]. *)
Definition rewrites_form (st : Store) (eventId : ObjectId) (op : Op)
    (env : Env) : Prop :=
  unlocks st eventId op env ∨
  match op with
  | OpEditEvent _ e updates =>
      e = eventId ∧ in_draft st eventId (now env) ∧
      KcustomForm ∈ key <$> updates
  | _ => False
  end.

(** No request of the trace, run from [st], is one of those. *)
Fixpoint never_rewrites_form (st : Store) (eventId : ObjectId)
    (trace : list (Op * Env)) : Prop :=
  match trace with
  | [] => True
  | (op, env) :: rest =>
      ¬ rewrites_form st eventId op env ∧
      never_rewrites_form (step st op env).1 eventId rest
  end.

(** [evs'] is [evs], possibly with one event rewritten in place by an
    event with the same [_id] that, if it is event [eventId], has the same
    custom form. *)
Definition keeps_form (eventId : ObjectId) (evs evs' : list Event.t)
  : Prop :=
  evs' = evs ∨
  ∃ i ev ev',
    evs !! i = Some ev ∧ Event._id ev' = Event._id ev ∧
    (Event._id ev = eventId → Event.customForm ev' = Event.customForm ev) ∧
    evs' = <[i := ev']> evs.

(** * Properties *)

(** ** Status resolver *)

Lemma getEffectiveStatus_spec (event : Event.t) (now : Date) :
  getEffectiveStatus event now =
  effectiveStatus_spec (Event.statusOverride event) (Event.startDate event)
                       (Event.endDate event) now.
Proof.
  unfold getEffectiveStatus, effectiveStatus_spec.
  destruct (Event.statusOverride event); simpl;
    repeat case_decide; try done;
    destruct (Z.ltb_spec now (Event.startDate event)); try lia;
    destruct (Z.leb_spec (Event.startDate event) now); try lia;
    destruct (Z.leb_spec now (Event.endDate event)); simpl; try done; lia.
Qed.

(** C1. The effective status is a function of the stored override, the
    start and end dates and the current time, equal to the case analysis
    of the specification (read in the order written: Draft and Closed are
    returned unchanged, Completed stays Completed, otherwise a time before
    the start gives Published, a time within start and end gives Ongoing
    and a later time gives Completed; for a schedule with start <= end the
    three time cases are disjoint). Hence equal inputs give equal results,
    Draft and Closed do not change as time advances, and a Completed event
    stays Completed at every later time. *)
Theorem C1_effective_status_case_analysis (event : Event.t) (now : Date) :
  let so := Event.statusOverride event in
  let s := Event.startDate event in
  let e := Event.endDate event in
  getEffectiveStatus event now = effectiveStatus_spec so s e now
  ∧ (so = Draft ∨ so = Closed → getEffectiveStatus event now = so)
  ∧ (so = Completed → getEffectiveStatus event now = Completed)
  ∧ (so = Published ∨ so = Ongoing →
       (now < s → getEffectiveStatus event now = Published)
       ∧ (s <= now <= e → getEffectiveStatus event now = Ongoing)
       ∧ (s <= now → now > e → getEffectiveStatus event now = Completed)
       ∧ (s <= e → now > e → getEffectiveStatus event now = Completed))
  ∧ (∀ event' : Event.t,
       Event.statusOverride event' = so → Event.startDate event' = s →
       Event.endDate event' = e →
       getEffectiveStatus event' now = getEffectiveStatus event now)
  ∧ (∀ now' : Date,
       so = Draft ∨ so = Closed →
       getEffectiveStatus event now' = getEffectiveStatus event now)
  ∧ (∀ now' : Date,
       now <= now' → getEffectiveStatus event now = Completed →
       getEffectiveStatus event now' = Completed).
Proof.
  intros so s e. subst so s e. split_and!.
  - apply getEffectiveStatus_spec.
  - intros [H|H]; rewrite getEffectiveStatus_spec, H; done.
  - intros H; rewrite getEffectiveStatus_spec, H; done.
  - intros H. unfold getEffectiveStatus.
    assert (Hn : Event.statusOverride event ∉ [Draft; Closed])
      by (rewrite !not_elem_of_cons; destruct H as [-> | ->];
          split_and!; try done; apply not_elem_of_nil).
    rewrite (bool_decide_eq_false_2 _ Hn).
    split_and!; intros; repeat case_decide; try done; try lia;
      destruct H; congruence.
  - intros event' H1 H2 H3.
    rewrite !getEffectiveStatus_spec, H1, H2, H3. done.
  - intros now' [H|H]; rewrite !getEffectiveStatus_spec, H; done.
  - intros now' Hle. unfold getEffectiveStatus.
    repeat case_decide; try done; intros; try congruence; lia.
Qed.

(** The case analysis at a sample event: override Published, start 10,
    end 20, seen at time 25. *)
Lemma C1_effective_status_witness :
  let event :=
    Event.mk 1 "Fest" "Annual fest" normal 7 elig_all [] 5 10 20 None
             Published 0 [] false [] 1 false in
  getEffectiveStatus event 25 = Completed
  ∧ getEffectiveStatus event 30 = Completed.
Proof.
  intros event.
  destruct (C1_effective_status_case_analysis event 25)
    as (_ & _ & _ & Hcase & _ & _ & Hmono).
  destruct (Hcase (or_introl eq_refl)) as (_ & _ & _ & Hlate).
  assert (H25 : getEffectiveStatus event 25 = Completed).
  { apply Hlate; simpl; lia. }
  split; [exact H25 | apply Hmono; [lia | exact H25]].
Defined.

(** ** Edit authorizer *)








Lemma allowed_cases k :
  k ∈ allowed →
  k = Kdescription ∨ k = KregistrationDeadline ∨ k = KregistrationLimit ∨
  k = KstatusOverride.
Proof.
  unfold allowed. rewrite !elem_of_cons, elem_of_nil. tauto.
Qed.









(** On a Closed event no branch of [PUT /:id] applies: the unmodified
    document is saved and the handler answers 200 "Saved.". *)
Lemma editEvent_closed st userId eventId i event updates now :
  owns st userId eventId i event →
  getEffectiveStatus event now = Closed →
  editEvent st userId eventId updates now = (st, res 200 Saved).
Proof.
  intros (o & organizer & Horg & Hev & Hown) Hstatus.
  unfold editEvent, editBranches.
  rewrite Horg, Hev, Hstatus.
  rewrite decide_False by (by rewrite Hown; intros []).
  simpl.
  apply list_find_Some in Hev as (Hi & _ & _).
  rewrite list_insert_id by done.
  by destruct st.
Qed.

(** C6 (the code departs from the claim). A Closed event edited by its
    owner: the request is answered 200 "Saved." and the store is
    unchanged, where the claim requires an error. *)
Theorem C6_closed_edit_reports_saved :
  let st := Sample.store [Sample.fest Closed] [] in
  editEvent st 10 1 [U_description "Reopened"] 40 = (st, res 200 Saved)
  ∧ succeeded (editEvent st 10 1 [U_description "Reopened"] 40).2.
Proof.
  intros st. split; [reflexivity |].
  unfold succeeded. simpl. lia.
Qed.

(** ** Finding and rewriting stored documents *)

Section list_find_insert.
Context {A : Type} (P : A → Prop) `{!∀ x, Decision (P x)}.

(** Rewriting a document keeps the answer of a query that finds another
    position, when the rewrite does not change whether it matches. *)
Lemma list_find_insert_other (l : list A) j x y k r :
  l !! j = Some x → (P x ↔ P y) → k ≠ j →
  list_find P l = Some (k, r) → list_find P (<[j := y]> l) = Some (k, r).
Proof.
  intros Hj Hxy Hne (Hk & HP & Hmin)%list_find_Some.
  apply list_find_Some. split_and!.
  - by rewrite list_lookup_insert_ne.
  - done.
  - intros j' z Hz Hlt. destruct (decide (j' = j)) as [-> | Hne'].
    + rewrite list_lookup_insert_eq in Hz by (by eapply lookup_lt_Some).
      injection Hz as <-. rewrite <- Hxy. by eapply Hmin.
    + rewrite list_lookup_insert_ne in Hz by done. by eapply Hmin.
Qed.

(** Rewriting the document a query finds, with one that still matches,
    makes the query find the rewritten document at the same position. *)
Lemma list_find_insert_same (l : list A) k r y :
  P y → list_find P l = Some (k, r) →
  list_find P (<[k := y]> l) = Some (k, y).
Proof.
  intros Hy (Hk & HP & Hmin)%list_find_Some.
  apply list_find_Some. split_and!.
  - rewrite list_lookup_insert_eq; [done | by eapply lookup_lt_Some].
  - done.
  - intros j z Hz Hlt. rewrite list_lookup_insert_ne in Hz by lia.
    by eapply Hmin.
Qed.
End list_find_insert.

Lemma truthy_Some (s : string) : s ≠ EmptyString → truthy (Some s) = Some s.
Proof. by destruct s. Qed.

(** A scan request writes only the registrations. *)
Lemma scan_frame st userId eventId ticketId now :
  events (scan st userId eventId ticketId now).1 = events st ∧
  organizers (scan st userId eventId ticketId now).1 = organizers st.
Proof. unfold scan. repeat (case_match; try done). Qed.

(** ** Capacity and inventory guard *)

Lemma Registration_find_None eventId participantId regs :
  Registration_findOne eventId participantId regs = None →
  Registration_find eventId participantId regs = [].
Proof.
  intros Hall%list_find_None. unfold Registration_find.
  induction Hall as [|r regs Hr _ IH]; [done |].
  by rewrite filter_cons_False.
Qed.

Lemma Registration_findOne_None_not_indexed eventId participantId regs :
  Registration_findOne eventId participantId regs = None ↔
  ¬ pair_indexed eventId participantId regs.
Proof.
  unfold Registration_findOne, pair_indexed.
  rewrite list_find_None, Forall_forall, Exists_exists. split.
  - intros Hall (r & Hr & HP). by eapply Hall.
  - intros Hnone r Hr HP. apply Hnone. eauto.
Qed.

Lemma Registration_create_ok doc regs :
  Registration_findOne (Registration.eventId doc)
                       (Registration.participantId doc) regs = None →
  ¬ ticket_indexed (Registration.ticketId doc) regs →
  Registration_create doc regs = inr (regs ++ [doc]).
Proof.
  intros Hpair%Registration_findOne_None_not_indexed Hticket.
  unfold Registration_create. by rewrite !decide_False.
Qed.

(** The stock handling of [/order], reached when the earlier guards pass. *)
Lemma order_cleared_unfold st userId eventId variantId quantity now rnd
    i event j variant :
  order_cleared st userId eventId variantId (default 1 quantity) now
                 i event j variant →
  order st userId eventId (Some variantId) quantity now rnd =
  let q := default 1 quantity in
  let regs := registrations st in
  if Event.requiresPaymentApproval event then
    let doc := new_registration regs (Event._id event) userId None []
                                (Some variantId) q Pending in
    (set_registrations (regs ++ [doc]) st,
     res 201 (OrderPlacedUploadProof (Registration._id doc)))
  else if decide (Variant.stock variant < q)
  then (st, res 400 InsufficientStock)
  else
    let st1 := set_events (<[i := with_stock_taken event j variant q]>
                             (events st)) st in
    let ticketId := generateTicketId now rnd in
    match Registration_create
            (new_registration regs (Event._id event) userId (Some ticketId)
                              [] (Some variantId) q Approved) regs with
    | inl e => (st1, res 500 (ServerError e))
    | inr regs' => (set_registrations regs' st1, res 201 (OrderPlaced ticketId))
    end.
Proof.
  intros ((Hev & Htype & Hstatus & Hdl & (p & participant & Hp & Helig)
           & Hvar) & Hlim & Hnone).
  unfold order. rewrite Hev, Hp. simpl.
  rewrite decide_False by (by rewrite Htype; intros []).
  rewrite bool_decide_eq_false_2 by (by intros []).
  rewrite decide_False by lia.
  rewrite Helig, Hvar.
  rewrite (Registration_find_None _ _ _ Hnone). simpl.
  rewrite decide_False by (unfold totalBought; simpl; lia).
  rewrite Hnone.
  destruct (Event.requiresPaymentApproval event).
  - by rewrite Registration_create_ok by (done || by intros []).
  - case_decide; [done |].
    rewrite decide_False by (simpl; lia).
    unfold with_stock_taken.
    by destruct (Registration_create _ _).
Qed.



(** C9 (the code departs from the claim). [/order] never compares the
    quantity with 1. An order of quantity 0 is confirmed with a ticket and
    stored with quantity 0; an order of quantity -5 is confirmed, stored
    with quantity -5, and raises the stock from 3 to 8; with payment
    approval an order of quantity 0 is stored as Pending. *)
Theorem C9_order_accepts_nonpositive_quantity :
  order (Sample.store [Sample.merch 3 1 false] []) 20 2 (Some 31) (Some 0)
        40 "AB12CD"
  = (Sample.store [Sample.merch 3 1 false]
       [Registration.mk 1 2 20 (Some "TKT-40-AB12CD") [] (Some 31) 0 None
                        Approved false None false None None],
     res 201 (OrderPlaced "TKT-40-AB12CD"))
  ∧ order (Sample.store [Sample.merch 3 1 false] []) 20 2 (Some 31)
          (Some (-5)) 40 "AB12CD"
    = (Sample.store [Sample.merch 8 1 false]
         [Registration.mk 1 2 20 (Some "TKT-40-AB12CD") [] (Some 31) (-5) None
                          Approved false None false None None],
       res 201 (OrderPlaced "TKT-40-AB12CD"))
  ∧ order (Sample.store [Sample.merch 3 1 true] []) 20 2 (Some 31) (Some 0)
          40 "AB12CD"
    = (Sample.store [Sample.merch 3 1 true]
         [Registration.mk 1 2 20 None [] (Some 31) 0 None
                          Pending false None false None None],
       res 201 (OrderPlacedUploadProof 1)).
Proof. split_and!; reflexivity. Qed.

(** The tail of [/register], reached when the guards other than the
    capacity guard pass. *)
Lemma register_cleared_unfold st userId eventId formData now rnd i event :
  register_cleared st userId eventId now i event →
  register st userId eventId formData now rnd =
  if limit_reached event (registrations st)
  then (st, res 400 RegistrationLimitReached)
  else
    let ticketId := generateTicketId now rnd in
    match Registration_create
            (new_registration (registrations st) (Event._id event) userId
               (Some ticketId) formData None 1 NotApplicable)
            (registrations st) with
    | inl e => (st, res 500 (ServerError e))
    | inr regs' =>
        let st1 := set_registrations regs' st in
        (if Event.isFormLocked event then st1
         else set_events
                (<[i := Event.set_isFormLocked true event]> (events st)) st1,
         res 201 (Registered ticketId))
    end.
Proof.
  intros ((Hev & Htype & Hstatus & Hdl & (p & participant & Hp & Helig))
          & Hnone).
  unfold register. rewrite Hev, Hp. simpl.
  rewrite decide_False by (by rewrite Htype; intros []).
  rewrite bool_decide_eq_false_2 by (by intros []).
  rewrite decide_False by lia.
  rewrite Helig, Hnone.
  destruct (limit_reached _ _); [done |].
  by destruct (Registration_create _ _).
Qed.

(** C10. In [/register] the capacity guard runs only for a limit that is
    present and not 0. For a registration that passes the other guards
    (the issued ticket being new): with no limit or the limit 0 it is
    accepted whatever the number of registrations of the event; with a
    limit other than 0 it is rejected with "Registration limit reached."
    exactly when that number has reached the limit. *)
Theorem C10_zero_limit_is_unlimited
    (st : Store) (userId eventId : ObjectId)
    (formData : list (string * string)) (now : Date) (rnd : string)
    (i : nat) (event : Event.t) :
  let ticketId := generateTicketId now rnd in
  let count := countDocuments (Event._id event) (registrations st) in
  let out := register st userId eventId formData now rnd in
  register_cleared st userId eventId now i event →
  ¬ ticket_indexed (Some ticketId) (registrations st) →
  (Event.registrationLimit event = None ∨
   Event.registrationLimit event = Some 0 →
     out.2 = res 201 (Registered ticketId)
     ∧ registrations out.1
       = registrations st ++
         [new_registration (registrations st) (Event._id event) userId
            (Some ticketId) formData None 1 NotApplicable])
  ∧ (∀ limit, Event.registrationLimit event = Some limit → limit ≠ 0 →
       (count >= limit → out = (st, res 400 RegistrationLimitReached))
       ∧ (count < limit → out.2 = res 201 (Registered ticketId))).
Proof.
  intros ticketId count out Hclr Hfresh.
  pose proof (register_cleared_unfold _ _ _ formData _ rnd _ _ Hclr) as Hout.
  fold out in Hout. cbv zeta in Hout.
  destruct Hclr as [_ Hnone].
  rewrite Registration_create_ok in Hout by done.
  split.
  - intros Hlim.
    assert (Hno : limit_reached event (registrations st) = false).
    { unfold limit_reached. destruct Hlim as [-> | ->]; [done |].
      by rewrite decide_True. }
    rewrite Hout, Hno. split; [done |].
    by destruct (Event.isFormLocked event).
  - intros limit Hlim Hnz. unfold limit_reached in Hout.
    rewrite Hlim, decide_False in Hout by done. split; intros Hcount.
    + by rewrite Hout, bool_decide_eq_true_2.
    + by rewrite Hout, bool_decide_eq_false_2 by (fold count; lia).
Qed.

(** The fest with limit 0 and with limit 5, each already holding a
    registration of Bob: Alice's registration is accepted under limit 0. *)
Lemma C10_zero_limit_witness :
  let fest0 := Event.set_registrationLimit (Some 0) (Sample.fest Published) in
  let bobs := Registration.mk 500 1 21 (Some "TKT-7-BOB") [] None 1 None
                              NotApplicable false None false None None in
  let st := Sample.store [fest0] [bobs] in
  (register st 20 1 [] 40 "AB12CD").2 = res 201 (Registered "TKT-40-AB12CD").
Proof.
  intros fest0 bobs st.
  assert (Hclr : register_cleared st 20 1 40 0 fest0).
  { split; [| reflexivity].
    unfold register_open. split_and!; try reflexivity.
    - apply elem_of_cons. by left.
    - simpl. lia.
    - exists 1%nat, Sample.alice. split; reflexivity. }
  refine (proj1 (proj1 (C10_zero_limit_is_unlimited st 20 1 [] 40 "AB12CD"
                          0 fest0 Hclr _) (or_intror eq_refl))).
  simpl. intros [Heq | ?%Exists_nil]%Exists_cons; [| done].
  simpl in Heq. discriminate.
Defined.

(** ** Order approval workflow *)

(** [approve] and [reject] after their common guards. *)
Lemma approve_located_unfold st userId eventId regId now rnd i event k reg :
  order_located st userId eventId regId i event k reg →
  approve st userId eventId regId now rnd =
  if decide (Registration.paymentStatus reg ≠ Pending)
  then (st, res 400 OnlyPendingApproved)
  else
    match Registration.variantId reg ≫=
            (λ v, variants_id v (Event.merchandiseVariants event)) with
    | None => (st, res 400 InsufficientStockToApprove)
    | Some (j, variant) =>
        if decide (Variant.stock variant < Registration.quantity reg)
        then (st, res 400 InsufficientStockToApprove)
        else
          let st1 :=
            set_events
              (<[i := with_stock_taken event j variant
                        (Registration.quantity reg)]> (events st)) st in
          let ticketId := generateTicketId now rnd in
          match Registration_save_ticket k
                  (Registration.set_ticketId (Some ticketId)
                     (Registration.set_paymentStatus Approved reg))
                  (registrations st) with
          | inl e => (st1, res 500 (ServerError e))
          | inr regs' =>
              match User_findById (Registration.participantId reg)
                                  (users st) with
              | None => (set_registrations regs' st1,
                         res 500 (ServerError TypeError))
              | Some _ => (set_registrations regs' st1,
                           res 200 (OrderApproved ticketId))
              end
          end
    end.
Proof.
  intros [(o & organizer & Horg & Hev & Hown) Hreg].
  unfold approve. rewrite Horg, Hev.
  rewrite decide_False by (by rewrite Hown; intros []).
  rewrite Hreg.
  case_decide; [done |].
  destruct (_ ≫= _) as [[j variant]|]; [| done].
  case_decide; [done |].
  rewrite decide_False by (simpl; lia).
  done.
Qed.




(** ** Registration ledger: one registration per (event, participant) *)

Lemma pair_indexed_pair_of eventId participantId regs :
  pair_indexed eventId participantId regs ↔
  (eventId, participantId) ∈ pair_of <$> regs.
Proof.
  unfold pair_indexed. rewrite Exists_exists, list_elem_of_fmap. split.
  - intros (r & Hr & He & Hp). exists r. split; [| done].
    unfold pair_of. by rewrite He, Hp.
  - intros (r & [= -> ->] & Hr). by exists r.
Qed.

Lemma pair_indexed_app eventId participantId regs docs :
  pair_indexed eventId participantId regs →
  pair_indexed eventId participantId (regs ++ docs).
Proof. unfold pair_indexed. rewrite Exists_app. by left. Qed.

(** The compound index at work: an insert either is refused or keeps the
    pairs unique. No prior read is involved. *)
Lemma Registration_create_inv doc regs regs' :
  Registration_create doc regs = inr regs' →
  regs' = regs ++ [doc] ∧
  ¬ pair_indexed (Registration.eventId doc)
                 (Registration.participantId doc) regs.
Proof.
  unfold Registration_create. repeat case_decide; try done.
  by intros [= <-].
Qed.

Lemma Registration_create_duplicate doc regs :
  pair_indexed (Registration.eventId doc) (Registration.participantId doc)
               regs →
  Registration_create doc regs = inl E11000_duplicate_key.
Proof. intros Hin. unfold Registration_create. by rewrite decide_True. Qed.

Lemma unique_pairs_insert doc regs :
  unique_pairs regs →
  ¬ pair_indexed (Registration.eventId doc) (Registration.participantId doc)
                 regs →
  unique_pairs (regs ++ [doc]).
Proof.
  unfold unique_pairs. intros Hnd Hfresh.
  rewrite fmap_app. apply NoDup_app. split_and!; [done | | apply NoDup_singleton].
  intros pr Hpr ->%list_elem_of_singleton.
  by apply Hfresh, pair_indexed_pair_of.
Qed.

Lemma Event_findById_id eventId evs i event :
  Event_findById eventId evs = Some (i, event) → Event._id event = eventId.
Proof. by intros (_ & ? & _)%list_find_Some. Qed.

Lemma eligibility_guard_error event participant r :
  eligibility_guard event participant = Some r →
  r = res 403 ForIIITOnly ∨ r = res 403 ForNonIIITOnly ∨
  r = res 500 (ServerError TypeError).
Proof.
  unfold eligibility_guard.
  destruct (Event.eligibility event), participant;
    try case_decide; intros [= <-]; auto.
Qed.

(** What one [/register] request does to the registrations: nothing, with
    a response that is not a success; or one insert for the pair of the
    request, which the index did not hold. *)
Lemma register_effect st userId eventId formData now rnd :
  let out := register st userId eventId formData now rnd in
  (registrations out.1 = registrations st ∧ ¬ succeeded out.2)
  ∨ (∃ doc, pair_of doc = (eventId, userId) ∧
            ¬ pair_indexed eventId userId (registrations st) ∧
            registrations out.1 = registrations st ++ [doc]).
Proof.
  assert (Hfail : ∀ s b, ¬ (200 <= s < 300) →
            registrations st = registrations st ∧ ¬ succeeded (res s b))
    by (intros; split; done).
  unfold register. simpl.
  destruct (Event_findById _ _) as [[i event]|] eqn:Hev;
    [| left; apply Hfail; lia].
  apply Event_findById_id in Hev. subst eventId.
  case_decide; [left; apply Hfail; lia |].
  case_bool_decide; [left; apply Hfail; lia |].
  case_decide; [left; apply Hfail; lia |].
  destruct (eligibility_guard _ _) as [r|] eqn:Hel.
  { left. split; [done |].
    apply eligibility_guard_error in Hel as [-> | [-> | ->]];
      unfold succeeded; simpl; lia. }
  destruct (limit_reached _ _); [left; apply Hfail; lia |].
  destruct (Registration_findOne _ _ _); [left; apply Hfail; lia |].
  destruct (Registration_create _ _) as [e|regs'] eqn:Hcreate;
    [left; apply Hfail; lia |].
  apply Registration_create_inv in Hcreate as [-> Hfresh].
  right. eexists. split_and!; [| exact Hfresh |].
  2: by destruct (snd <$> _), (Event.isFormLocked event).
  done.
Qed.

(** The same for one [/order] request. *)
Lemma order_effect st userId eventId variantId quantity now rnd :
  let out := order st userId eventId variantId quantity now rnd in
  (registrations out.1 = registrations st ∧ ¬ succeeded out.2)
  ∨ (∃ doc, pair_of doc = (eventId, userId) ∧
            ¬ pair_indexed eventId userId (registrations st) ∧
            registrations out.1 = registrations st ++ [doc]).
Proof.
  assert (Hfail : ∀ s b, ¬ (200 <= s < 300) →
            registrations st = registrations st ∧ ¬ succeeded (res s b))
    by (intros; split; done).
  unfold order. simpl.
  destruct (Event_findById _ _) as [[i event]|] eqn:Hev;
    [| left; apply Hfail; lia].
  apply Event_findById_id in Hev. subst eventId.
  case_decide; [left; apply Hfail; lia |].
  case_bool_decide; [left; apply Hfail; lia |].
  case_decide; [left; apply Hfail; lia |].
  destruct (eligibility_guard _ _) as [r|] eqn:Hel.
  { left. split; [done |].
    apply eligibility_guard_error in Hel as [-> | [-> | ->]];
      unfold succeeded; simpl; lia. }
  destruct variantId as [variantId|]; [| left; apply Hfail; lia].
  destruct (variants_id _ _) as [[j variant]|]; [| left; apply Hfail; lia].
  case_decide; [left; apply Hfail; lia |].
  destruct (Registration_findOne _ _ _); [left; apply Hfail; lia |].
  destruct (Event.requiresPaymentApproval event).
  - destruct (Registration_create _ _) as [e|regs'] eqn:Hcreate;
      [left; apply Hfail; lia |].
    apply Registration_create_inv in Hcreate as [-> Hfresh].
    right. eexists. split_and!; [| exact Hfresh |]; [| done]. done.
  - case_decide; [left; apply Hfail; lia |].
    case_decide; [left; apply Hfail; lia |].
    destruct (Registration_create _ _) as [e|regs'] eqn:Hcreate;
      [left; split; [done | unfold succeeded; simpl; lia] |].
    apply Registration_create_inv in Hcreate as [-> Hfresh].
    right. eexists. split_and!; [| exact Hfresh |].
    2: by destruct (snd <$> _).
    done.
Qed.

Lemma register_guard_error_fails r : register_guard_error r → ¬ succeeded r.
Proof.
  destruct r as [s b]. unfold register_guard_error, succeeded. simpl.
  destruct b as [| | |[]| | | | | | | | | | | | | | | | | | | | | | | | | | | |
                 | | | | | | | | | | | | | | | | |];
    try done; intros ->; lia.
Qed.

Lemma order_guard_error_fails r : order_guard_error r → ¬ succeeded r.
Proof.
  destruct r as [s b]. unfold order_guard_error, succeeded. simpl.
  destruct b as [| | |[]| | | | | | | | | | | | | | | | | | | | | | | | | | | |
                 | | | | | | | | | | | | | | | | |];
    try done; intros ->; lia.
Qed.

(** A [/register] request of a participant who holds a registration for
    the event writes nothing and is answered by the duplicate check or by
    a guard that runs before it. *)
Lemma register_second_call st userId eventId formData now rnd :
  pair_indexed eventId userId (registrations st) →
  let out := register st userId eventId formData now rnd in
  out.1 = st ∧
  (out.2 = res 400 AlreadyRegistered ∨ register_guard_error out.2).
Proof.
  intros Hin. unfold register. simpl.
  destruct (Event_findById _ _) as [[i event]|] eqn:Hev;
    [| split; [done | by right]].
  apply Event_findById_id in Hev. subst eventId.
  case_decide; [split; [done | by right] |].
  case_bool_decide; [split; [done | by right] |].
  case_decide; [split; [done | by right] |].
  destruct (eligibility_guard _ _) as [r|] eqn:Hel.
  { split; [done | right].
    by apply eligibility_guard_error in Hel as [-> | [-> | ->]]. }
  destruct (limit_reached _ _); [split; [done | by right] |].
  destruct (Registration_findOne _ _ _) eqn:Hfind; [split; [done | by left] |].
  by apply Registration_findOne_None_not_indexed in Hfind.
Qed.

Lemma order_second_call st userId eventId variantId quantity now rnd :
  pair_indexed eventId userId (registrations st) →
  let out := order st userId eventId variantId quantity now rnd in
  out.1 = st ∧
  (out.2 = res 400 AlreadyHaveActiveOrder ∨ order_guard_error out.2).
Proof.
  intros Hin. unfold order. simpl.
  destruct (Event_findById _ _) as [[i event]|] eqn:Hev;
    [| split; [done | by right]].
  apply Event_findById_id in Hev. subst eventId.
  case_decide; [split; [done | by right] |].
  case_bool_decide; [split; [done | by right] |].
  case_decide; [split; [done | by right] |].
  destruct (eligibility_guard _ _) as [r|] eqn:Hel.
  { split; [done | right].
    by apply eligibility_guard_error in Hel as [-> | [-> | ->]]. }
  destruct variantId as [variantId|]; [| split; [done | by right]].
  destruct (variants_id _ _) as [[j variant]|]; [| split; [done | by right]].
  case_decide; [split; [done | by right] |].
  destruct (Registration_findOne _ _ _) eqn:Hfind; [split; [done | by left] |].
  by apply Registration_findOne_None_not_indexed in Hfind.
Qed.

(** When the guards before the duplicate check pass, the answer is the
    duplicate error. *)
Lemma register_duplicate st userId eventId formData now rnd i event :
  register_open st userId eventId now i event →
  limit_reached event (registrations st) = false →
  pair_indexed eventId userId (registrations st) →
  (register st userId eventId formData now rnd).2 = res 400 AlreadyRegistered.
Proof.
  intros (Hev & Htype & Hstatus & Hdl & (p & participant & Hp & Helig))
         Hlimit Hin.
  unfold register. rewrite Hev, Hp. simpl.
  rewrite decide_False by (by rewrite Htype; intros []).
  rewrite bool_decide_eq_false_2 by (by intros []).
  rewrite decide_False by lia.
  rewrite Helig, Hlimit.
  rewrite (Event_findById_id _ _ _ _ Hev).
  destruct (Registration_findOne _ _ _) eqn:Hfind; [done |].
  by apply Registration_findOne_None_not_indexed in Hfind.
Qed.

Lemma order_duplicate st userId eventId variantId quantity now rnd
    i event j variant :
  order_open st userId eventId variantId now i event j variant →
  totalBought (Registration_find eventId userId (registrations st))
  + default 1 quantity <= Event.purchaseLimitPerUser event →
  pair_indexed eventId userId (registrations st) →
  (order st userId eventId (Some variantId) quantity now rnd).2
  = res 400 AlreadyHaveActiveOrder.
Proof.
  intros (Hev & Htype & Hstatus & Hdl & (p & participant & Hp & Helig) & Hvar)
         Hlimit Hin.
  unfold order. rewrite Hev, Hp. simpl.
  rewrite decide_False by (by rewrite Htype; intros []).
  rewrite bool_decide_eq_false_2 by (by intros []).
  rewrite decide_False by lia.
  rewrite Helig, Hvar.
  rewrite (Event_findById_id _ _ _ _ Hev).
  rewrite decide_False by lia.
  destruct (Registration_findOne _ _ _) eqn:Hfind; [done |].
  by apply Registration_findOne_None_not_indexed in Hfind.
Qed.

(** One register or order request keeps the pairs unique and the indexed
    pairs indexed. *)
Lemma step_registration_effect st op env :
  match op with
  | OpRegister _ _ _ | OpOrder _ _ _ _ => True
  | _ => False
  end →
  registrations (step st op env).1 = registrations st
  ∨ ∃ doc, ¬ pair_indexed (Registration.eventId doc)
                          (Registration.participantId doc) (registrations st)
           ∧ registrations (step st op env).1 = registrations st ++ [doc].
Proof.
  destruct op; try done; intros _; simpl.
  - destruct (register_effect st userId eventId formData (now env) (rnd env))
      as [[Hsame _] | (doc & [= He Hp] & Hfresh & Hregs)]; [by left |].
    right. exists doc. by rewrite He, Hp.
  - destruct (order_effect st userId eventId variantId quantity
                           (now env) (rnd env))
      as [[Hsame _] | (doc & [= He Hp] & Hfresh & Hregs)]; [by left |].
    right. exists doc. by rewrite He, Hp.
Qed.

Lemma run_registrations_only st trace :
  registrations_only trace →
  (unique_pairs (registrations st) →
   unique_pairs (registrations (run st trace)))
  ∧ (∀ eventId userId,
       pair_indexed eventId userId (registrations st) →
       pair_indexed eventId userId (registrations (run st trace))).
Proof.
  revert st. induction trace as [|[op env] trace IH]; intros st Hops.
  - done.
  - apply Forall_cons in Hops as [Hop Hops]. simpl in Hop.
    change (run st ((op, env) :: trace)) with (run (step st op env).1 trace).
    destruct (IH (step st op env).1 Hops) as [IHu IHp].
    destruct (step_registration_effect st op env Hop)
      as [Hsame | (doc & Hfresh & Hregs)].
    + rewrite Hsame in IHu, IHp. done.
    + rewrite Hregs in IHu, IHp. split.
      * intros Hu. by apply IHu, unique_pairs_insert.
      * intros e u Hin. by apply IHp, pair_indexed_app.
Qed.

(** C2, as the specification states it, fails on the code: Alice's second
    order for the same merchandise event (purchase limit 1) is rejected,
    but by the purchase-limit guard, which runs before the duplicate check
    and counts her first order; the answer is "Purchase limit per user is
    1.", not the duplicate error. *)
Lemma C2_second_order_answered_by_purchase_limit :
  let st0 := Sample.store [Sample.merch 3 1 false] [] in
  let first := order st0 20 2 (Some 31) (Some 1) 40 "AB12CD" in
  let second := order first.1 20 2 (Some 31) (Some 1) 41 "EF34GH" in
  first.2 = res 201 (OrderPlaced "TKT-40-AB12CD")
  ∧ pair_indexed 2 20 (registrations first.1)
  ∧ second.2 = res 400 (PurchaseLimitExceeded 1)
  ∧ second.2 ≠ res 400 AlreadyHaveActiveOrder.
Proof.
  split_and!.
  - reflexivity.
  - apply (bool_decide_unpack _). vm_compute. exact I.
  - reflexivity.
  - discriminate.
Qed.

(** C2, amended. Along every sequence of register and place-order
    requests, the pairs (event, participant) of the stored registrations
    stay unique and a pair once registered stays registered. A successful
    register or order request leaves its pair registered. A further
    register or order request for a registered pair writes nothing and does
    not succeed: it is answered by the duplicate check, or by one of the
    guards that run before it (for orders this includes the purchase-limit
    guard); when those guards pass, the answer is the duplicate error.
    Independently of that prior read, the unique compound index refuses
    with E11000 every insert for a registered pair. *)
Theorem C2_one_registration_per_pair
    (st : Store) (trace : list (Op * Env)) :
  registrations_only trace →
  unique_pairs (registrations st) →
  let st' := run st trace in
  unique_pairs (registrations st')
  ∧ (∀ eventId userId,
       pair_indexed eventId userId (registrations st) →
       pair_indexed eventId userId (registrations st'))
  ∧ (∀ userId eventId formData now rnd,
       let out := register st' userId eventId formData now rnd in
       (succeeded out.2 → pair_indexed eventId userId (registrations out.1))
       ∧ (pair_indexed eventId userId (registrations st') →
          out.1 = st' ∧ ¬ succeeded out.2
          ∧ (out.2 = res 400 AlreadyRegistered ∨ register_guard_error out.2)
          ∧ ∀ i event,
              register_open st' userId eventId now i event →
              limit_reached event (registrations st') = false →
              out.2 = res 400 AlreadyRegistered))
  ∧ (∀ userId eventId variantId quantity now rnd,
       let out := order st' userId eventId variantId quantity now rnd in
       (succeeded out.2 → pair_indexed eventId userId (registrations out.1))
       ∧ (pair_indexed eventId userId (registrations st') →
          out.1 = st' ∧ ¬ succeeded out.2
          ∧ (out.2 = res 400 AlreadyHaveActiveOrder ∨ order_guard_error out.2)
          ∧ ∀ v i event j variant,
              variantId = Some v →
              order_open st' userId eventId v now i event j variant →
              totalBought (Registration_find eventId userId
                                             (registrations st'))
              + default 1 quantity <= Event.purchaseLimitPerUser event →
              out.2 = res 400 AlreadyHaveActiveOrder))
  ∧ (∀ doc,
       pair_indexed (Registration.eventId doc)
                    (Registration.participantId doc) (registrations st') →
       Registration_create doc (registrations st')
       = inl E11000_duplicate_key).
Proof.
  intros Hops Hunique st'.
  destruct (run_registrations_only st trace Hops) as [Hu Hp].
  assert (Hcreated : ∀ (regs : list Registration.t) eventId userId doc,
            pair_of doc = (eventId, userId) →
            pair_indexed eventId userId (regs ++ [doc])).
  { intros regs e u doc [= He Hp']. unfold pair_indexed.
    rewrite Exists_app. right. apply Exists_cons. by left. }
  split_and!.
  - by apply Hu.
  - exact Hp.
  - intros userId eventId formData now rnd out. split.
    + intros Hs.
      destruct (register_effect st' userId eventId formData now rnd)
        as [[_ Hfail] | (doc & Hpair & _ & Hregs)]; [done |].
      fold out in Hregs. rewrite Hregs. by apply Hcreated.
    + intros Hin.
      destruct (register_second_call st' userId eventId formData now rnd Hin)
        as [Hst Hresp].
      split_and!; [done | | done |].
      * destruct Hresp as [Hr | Hr].
        -- fold out in Hr. rewrite Hr. unfold succeeded. simpl. lia.
        -- by apply register_guard_error_fails.
      * intros i event Hopen Hlimit. by eapply register_duplicate.
  - intros userId eventId variantId quantity now rnd out. split.
    + intros Hs.
      destruct (order_effect st' userId eventId variantId quantity now rnd)
        as [[_ Hfail] | (doc & Hpair & _ & Hregs)]; [done |].
      fold out in Hregs. rewrite Hregs. by apply Hcreated.
    + intros Hin.
      destruct (order_second_call st' userId eventId variantId quantity
                                  now rnd Hin) as [Hst Hresp].
      split_and!; [done | | done |].
      * destruct Hresp as [Hr | Hr].
        -- fold out in Hr. rewrite Hr. unfold succeeded. simpl. lia.
        -- by apply order_guard_error_fails.
      * intros v i event j variant -> Hopen Hlimit. by eapply order_duplicate.
  - intros doc. apply Registration_create_duplicate.
Qed.

(** Alice registers for the fest; her second registration request, and a
    direct insert for her pair, are both refused. *)
Lemma C2_one_registration_witness :
  let st := Sample.store [Sample.fest Published] [] in
  let st' := run st [(OpRegister 20 1 [], mkEnv 40 "AB12CD")] in
  unique_pairs (registrations st')
  ∧ (register st' 20 1 [] 41 "EF34GH").2 = res 400 AlreadyRegistered
  ∧ Registration_create (Sample.reg_fest "TKT-9" false None)
                        (registrations st')
    = inl E11000_duplicate_key.
Proof.
  intros st st'.
  destruct (C2_one_registration_per_pair st
              [(OpRegister 20 1 [], mkEnv 40 "AB12CD")])
    as (Hu & _ & Hreg & _ & Hcreate).
  { repeat constructor. }
  { apply NoDup_nil_2. }
  assert (Hin : pair_indexed 1 20 (registrations st')).
  { apply (bool_decide_unpack _). vm_compute. exact I. }
  split_and!.
  - exact Hu.
  - destruct (Hreg 20 1 [] 41 "EF34GH") as [_ Hsecond].
    destruct (Hsecond Hin) as (_ & _ & _ & Hdup).
    apply (Hdup 0%nat (Event.set_isFormLocked true (Sample.fest Published))).
    + unfold register_open. split_and!; try reflexivity.
      * apply elem_of_cons. by left.
      * simpl. lia.
      * exists 1%nat, Sample.alice. split; reflexivity.
    + reflexivity.
  - apply Hcreate. exact Hin.
Defined.

(** ** Form lock *)

Section list_find_remove.
Context {A : Type} (Q : A → Prop) `{!∀ x, Decision (Q x)}.

(** Removing documents that a query does not find keeps its answer, up to
    the position. *)
Lemma list_find_filter_keep (P : A → Prop) `{!∀ x, Decision (P x)} l i x :
  list_find Q l = Some (i, x) → P x →
  ∃ i', list_find Q (filter P l) = Some (i', x).
Proof.
  revert i. induction l as [|a l IH]; intros i; simpl; [done |].
  case_decide as Ha.
  - intros [= <- <-] HP. rewrite filter_cons_True by done.
    exists 0%nat. simpl. by case_decide.
  - destruct (list_find Q l) as [[i0 x0]|] eqn:Hl; [| done].
    simpl. intros [= <- <-] HP. destruct (IH i0 eq_refl HP) as [i' Hi'].
    destruct (decide (P a)).
    + rewrite filter_cons_True by done. exists (S i'). simpl.
      case_decide; [done |]. by rewrite Hi'.
    + rewrite filter_cons_False by done. by exists i'.
Qed.

Lemma list_find_delete_keep l i x j y :
  list_find Q l = Some (i, x) → l !! j = Some y → ¬ Q y →
  ∃ i', list_find Q (delete j l) = Some (i', x).
Proof.
  revert i j. induction l as [|a l IH]; intros i j; simpl; [done |].
  destruct j as [|j]; simpl.
  - intros Hfind [= ->] Hy. case_decide; [done |].
    destruct (list_find Q l) as [[i0 x0]|]; [| done].
    injection Hfind as <- <-. by exists i0.
  - case_decide as Ha.
    + intros [= <- <-] _ _. by exists 0%nat.
    + destruct (list_find Q l) as [[i0 x0]|] eqn:Hl; [| done].
      simpl. intros [= <- <-] Hj Hy.
      destruct (IH i0 j eq_refl Hj Hy) as [i' Hi'].
      exists (S i'). by rewrite Hi'.
Qed.
End list_find_remove.

Lemma form_locked_rewrites eventId evs evs' :
  rewrites_locked eventId evs evs' →
  form_locked_in evs eventId → form_locked_in evs' eventId.
Proof.
  intros [-> | (i' & ev & ev' & Hi' & Hid & Hlock & ->)]; [done |].
  intros (i & event & Hfind & Hflag).
  destruct (decide (i = i')) as [<- | Hne].
  - pose proof Hfind as (Hi & Heid & _)%list_find_Some.
    assert (ev = event) as -> by congruence.
    exists i, ev'. split; [| by apply Hlock].
    unfold Event_findById. eapply list_find_insert_same; [| exact Hfind].
    simpl. congruence.
  - exists i, event. split; [| done].
    unfold Event_findById. eapply list_find_insert_other; [exact Hi' | | done..].
    simpl. by rewrite Hid.
Qed.

Lemma rewrites_locked_insert eventId evs e i ev ev' :
  Event_findById e evs = Some (i, ev) →
  Event._id ev' = Event._id ev →
  (Event._id ev = eventId → Event.isFormLocked ev = true →
   Event.isFormLocked ev' = true) →
  rewrites_locked eventId evs (<[i := ev']> evs).
Proof.
  intros (Hi & _ & _)%list_find_Some Hid Hlock. right. by exists i, ev, ev'.
Qed.

(** The handlers that rewrite at most one event, keeping its identity
    and a set lock. *)
Lemma register_events eventId st userId e formData now rnd :
  rewrites_locked eventId (events st)
                  (events (register st userId e formData now rnd).1).
Proof.
  unfold register. simpl.
  destruct (Event_findById _ _) as [[i event]|] eqn:Hev; [| by left].
  repeat (case_match; try (by left)); simpl;
    by eapply rewrites_locked_insert.
Qed.

Lemma order_events eventId st userId e variantId quantity now rnd :
  rewrites_locked eventId (events st)
                  (events (order st userId e variantId quantity now rnd).1).
Proof.
  unfold order. simpl.
  destruct (Event_findById _ _) as [[i event]|] eqn:Hev; [| by left].
  repeat (case_match; try (by left)); simpl;
    by eapply rewrites_locked_insert.
Qed.

Lemma approve_events eventId st userId e regId now rnd :
  rewrites_locked eventId (events st)
                  (events (approve st userId e regId now rnd).1).
Proof.
  unfold approve.
  destruct (Organizer_findOne _ _) as [[o organizer]|]; [| by left].
  destruct (Event_findById _ _) as [[i event]|] eqn:Hev; [| by left].
  repeat (case_match; try (by left)); simpl;
    by eapply rewrites_locked_insert.
Qed.

Lemma uploadProof_events st userId e regId url :
  events (uploadProof st userId e regId url).1 = events st.
Proof. unfold uploadProof. by repeat case_match. Qed.

Lemma reject_events st userId e regId :
  events (reject st userId e regId).1 = events st.
Proof. unfold reject. by repeat case_match. Qed.

Lemma override_events st userId e regId attended reason now :
  events (override st userId e regId attended reason now).1 = events st.
Proof. unfold override. by repeat case_match. Qed.

Lemma assign_id u event : Event._id (assign u event) = Event._id event.
Proof. by destruct u. Qed.

Lemma Object_assign_id event updates :
  Event._id (Object_assign event updates) = Event._id event.
Proof.
  revert event. induction updates as [|u rest IH]; intros event; [done |].
  change (Object_assign event (u :: rest))
    with (Object_assign (assign u event) rest).
  by rewrite IH, assign_id.
Qed.

Lemma Object_assign_lock event updates :
  U_isFormLocked false ∉ updates →
  Event.isFormLocked event = true →
  Event.isFormLocked (Object_assign event updates) = true.
Proof.
  revert event. induction updates as [|u rest IH]; intros event Hnot Hflag;
    [done |].
  apply not_elem_of_cons in Hnot as [Hu Hrest].
  change (Object_assign event (u :: rest))
    with (Object_assign (assign u event) rest).
  apply IH; [done |].
  destruct u as [| | | | | | | | | | | | |[]| | | |]; simpl; done.
Qed.

Lemma editPublished_id_lock event updates event' :
  editPublished event updates = inr event' →
  Event._id event' = Event._id event ∧
  Event.isFormLocked event' = Event.isFormLocked event.
Proof.
  revert event. induction updates as [|u rest IH]; intros event; simpl.
  - by intros [= <-].
  - case_bool_decide as Hk; [done |].
    assert (Hstep : editPublished (assign u event) rest = inr event' →
              Event._id event' = Event._id event ∧
              Event.isFormLocked event' = Event.isFormLocked event).
    { intros [-> ->]%IH. rewrite assign_id. split; [done |].
      by destruct (allowed_cases _ Hk) as [Hc | [Hc | [Hc | Hc]]];
        destruct u. }
    destruct u; try exact Hstep.
    + case_decide; [done | exact Hstep].
    + destruct (lt_limit _ _); [done | exact Hstep].
Qed.

Lemma editBranches_id_lock event currentStatus updates event' modified :
  editBranches event currentStatus updates = inr (event', modified) →
  (currentStatus = Draft → U_isFormLocked false ∉ updates) →
  Event._id event' = Event._id event ∧
  (Event.isFormLocked event = true → Event.isFormLocked event' = true).
Proof.
  unfold editBranches. intros Hb Hdraft.
  repeat case_decide.
  - injection Hb as <- <-. split; [apply Object_assign_id |].
    apply Object_assign_lock. by apply Hdraft.
  - destruct (editPublished _ _) as [r|ev] eqn:Hp; [done |].
    injection Hb as <- <-.
    apply editPublished_id_lock in Hp as [-> ->]. done.
  - destruct updates as [|[] []]; try done. by injection Hb as <- <-.
  - by injection Hb as <- <-.
Qed.

Lemma editEvent_events eventId st userId e updates now :
  ¬ (e = eventId ∧ in_draft st eventId now ∧ U_isFormLocked false ∈ updates) →
  rewrites_locked eventId (events st)
                  (events (editEvent st userId e updates now).1).
Proof.
  intros Hsafe. unfold editEvent.
  destruct (Organizer_findOne _ _) as [[o organizer]|]; [| by left].
  destruct (Event_findById _ _) as [[i event]|] eqn:Hev; [| by left].
  case_decide; [by left |].
  destruct (editBranches _ _ _) as [r|[event' modified]] eqn:Hb; [by left |].
  destruct (Event_validate _ _); [| by left].
  simpl.
  assert (Hid : Event._id event' = Event._id event ∧
                (Event._id event = eventId →
                 Event.isFormLocked event = true →
                 Event.isFormLocked event' = true)).
  { assert (Hdraft : Event._id event = eventId →
              getEffectiveStatus event now = Draft →
              U_isFormLocked false ∉ updates).
    { intros Heq Hstatus Hin. apply Hsafe.
      pose proof (Event_findById_id _ _ _ _ Hev) as He.
      assert (e = eventId) as -> by congruence.
      split_and!; [done | by exists i, event | done]. }
    destruct (decide (Event._id event = eventId)) as [Heq | Hne].
    - apply editBranches_id_lock in Hb as [? ?]; [by split | by apply Hdraft].
    - unfold editBranches in Hb. split; [| done].
      repeat case_decide.
      + injection Hb as <- <-. apply Object_assign_id.
      + destruct (editPublished _ _) as [r|ev] eqn:Hp; [done |].
        injection Hb as <- <-. by apply editPublished_id_lock in Hp as [-> _].
      + destruct updates as [|[] []]; try done. by injection Hb as <- <-.
      + by injection Hb as <- <-. }
  destruct Hid as [Hid Hlock]. by eapply rewrites_locked_insert.
Qed.

Lemma createEvent_locked st userId body eventId :
  form_locked st eventId → form_locked (createEvent st userId body).1 eventId.
Proof.
  intros (i & event & Hfind & Hflag). unfold createEvent.
  repeat (case_match; try (by exists i, event)).
  exists i, event. split; [| done]. simpl.
  by apply list_find_app_l.
Qed.

Lemma deleteEvent_locked st userId e now eventId :
  ¬ (e = eventId ∧ in_draft st eventId now) →
  form_locked st eventId → form_locked (deleteEvent st userId e now).1 eventId.
Proof.
  intros Hsafe (i & event & Hfind & Hflag). unfold deleteEvent.
  destruct (Organizer_findOne _ _) as [[o organizer]|]; [| by exists i, event].
  destruct (Event_findById e _) as [[i' event']|] eqn:Hev;
    [| by exists i, event].
  case_decide; [by exists i, event |].
  destruct (decide (getEffectiveStatus event' now ≠ Draft)) as [|Hdraft];
    [by exists i, event |].
  apply dec_stable in Hdraft. simpl.
  pose proof Hev as (Hi' & He & _)%list_find_Some.
  assert (Hne : Event._id event' ≠ eventId).
  { intros Heq. apply Hsafe.
    assert (e = eventId) as -> by congruence.
    split; [done | by exists i', event']. }
  destruct (list_find_delete_keep _ _ _ _ _ _ Hfind Hi' Hne) as [i'' Hi''].
  by exists i'', event.
Qed.

Lemma adminDeleteOrganizer_locked st userId eventId :
  ¬ (∃ i event, owns st userId eventId i event) →
  form_locked st eventId →
  form_locked (adminDeleteOrganizer st userId).1 eventId.
Proof.
  intros Hsafe (i & event & Hfind & Hflag). unfold adminDeleteOrganizer.
  destruct (list_find _ (users st)) as [[u user]|] eqn:Hu;
    [| by exists i, event].
  destruct (Organizer_findOne _ _) as [[o organizer]|] eqn:Ho;
    [| by exists i, event].
  simpl.
  apply list_find_Some in Hu as (_ & [Hid _] & _). rewrite Hid in Ho.
  assert (Hkeep : ¬ Event.organizerId event = Organizer._id organizer).
  { intros Hown. apply Hsafe. exists i, event, o, organizer. done. }
  destruct (list_find_filter_keep
              (λ e, Event._id e = eventId)
              (λ e, ¬ Event.organizerId e = Organizer._id organizer)
              _ _ _ Hfind Hkeep) as [i' Hi'].
  by exists i', event.
Qed.

(** A successful registration leaves the form of its event locked. *)
Lemma register_locks st userId eventId formData now rnd :
  succeeded (register st userId eventId formData now rnd).2 →
  form_locked (register st userId eventId formData now rnd).1 eventId.
Proof.
  assert (Hfail : ∀ s b, ¬ (200 <= s < 300) → ¬ succeeded (res s b)) by done.
  unfold register. simpl.
  destruct (Event_findById _ _) as [[i event]|] eqn:Hev;
    [| intros []%Hfail; lia].
  case_decide; [intros []%Hfail; lia |].
  case_bool_decide; [intros []%Hfail; lia |].
  case_decide; [intros []%Hfail; lia |].
  destruct (eligibility_guard _ _) as [r|] eqn:Hel.
  { apply eligibility_guard_error in Hel as [-> | [-> | ->]];
      intros []%Hfail; lia. }
  destruct (limit_reached _ _); [intros []%Hfail; lia |].
  destruct (Registration_findOne _ _ _); [intros []%Hfail; lia |].
  destruct (Registration_create _ _) as [err|regs']; [intros []%Hfail; lia |].
  destruct (snd <$> _); [| intros []%Hfail; lia].
  intros _. destruct (Event.isFormLocked event) eqn:Hflag.
  - by exists i, event.
  - exists i, (Event.set_isFormLocked true event). split; [| done].
    simpl. eapply list_find_insert_same; [| exact Hev].
    simpl. by apply Event_findById_id in Hev.
Qed.

(** Every request other than those of [unlocks] keeps a locked form
    locked. *)
Lemma step_keeps_lock st eventId op env :
  ¬ unlocks st eventId op env →
  form_locked st eventId → form_locked (step st op env).1 eventId.
Proof.
  intros Hsafe Hlocked. destruct op; simpl in *.
  - by apply createEvent_locked.
  - eapply form_locked_rewrites; [| exact Hlocked].
    by apply editEvent_events.
  - by apply deleteEvent_locked.
  - eapply form_locked_rewrites; [apply register_events | exact Hlocked].
  - eapply form_locked_rewrites; [apply order_events | exact Hlocked].
  - unfold form_locked. by rewrite uploadProof_events.
  - eapply form_locked_rewrites; [apply approve_events | exact Hlocked].
  - unfold form_locked. by rewrite reject_events.
  - unfold form_locked.
    by destruct (scan_frame st userId eventId0 ticketId (now env)) as [-> _].
  - unfold form_locked. by rewrite override_events.
  - by apply adminDeleteOrganizer_locked.
Qed.

Lemma run_keeps_lock st eventId trace :
  never_unlocks st eventId trace →
  form_locked st eventId → form_locked (run st trace) eventId.
Proof.
  revert st. induction trace as [|[op env] trace IH]; intros st; [done |].
  intros [Hsafe Hrest] Hlocked.
  change (run st ((op, env) :: trace)) with (run (step st op env).1 trace).
  apply IH; [done |]. by apply step_keeps_lock.
Qed.

(** C8 (the code departs from the claim). The register route sets
    [isFormLocked] under the comment "Lock form after first registration",
    and no route ever reads the flag. After Alice's registration has locked
    the form of the fest, its owner sets the status override back to Draft
    (a key the Published branch allows); in the Draft branch
    [Object.assign] takes every key, so
    - an edit that replaces the custom form is answered 200 "Saved." and
      stored while the flag is still true, and the event is published
      again with the new form;
    - an edit that sets [isFormLocked] to false is answered 200 "Saved."
      and clears the flag.
    The claim requires the flag to stay true and the custom form to stay
    as it was under every later operation. *)
Theorem C8_form_lock_not_enforced :
  let st0 := Sample.store [Sample.fest Published] [] in
  let first := register st0 20 1 [] 40 "AB12CD" in
  let question := FormField.mk "T-shirt size" ft_text false [] in
  let withdrawn := editEvent first.1 10 1 [U_statusOverride Draft] 41 in
  let replaced := editEvent withdrawn.1 10 1 [U_customForm [question]] 42 in
  let republished :=
    editEvent replaced.1 10 1 [U_statusOverride Published] 43 in
  let unlocked := editEvent withdrawn.1 10 1 [U_isFormLocked false] 42 in
  (first.2 = res 201 (Registered "TKT-40-AB12CD")
   ∧ form_locked first.1 1
   ∧ Event.customForm <$> events first.1 = [[]])
  ∧ (withdrawn.2 = res 200 Saved
     ∧ replaced.2 = res 200 Saved
     ∧ republished.2 = res 200 Saved
     ∧ form_locked republished.1 1
     ∧ (λ e, getEffectiveStatus e 44) <$> events republished.1 = [Published]
     ∧ Event.customForm <$> events republished.1 = [[question]]
     ∧ length (registrations republished.1) = 1%nat)
  ∧ (unlocked.2 = res 200 Saved
     ∧ ¬ form_locked unlocked.1 1
     ∧ Event.isFormLocked <$> events unlocked.1 = [false]).
Proof.
  split_and!; try reflexivity.
  - exists 0%nat, (Event.set_isFormLocked true (Sample.fest Published)).
    split; reflexivity.
  - eexists 0%nat, _. split; reflexivity.
  - intros (i & event & Hfind & Hflag).
    vm_compute in Hfind. injection Hfind as <- <-. discriminate.
Qed.

(** ** Attendance scanner *)

(** A scan of an attended ticket answers 409 with the stored timestamp and
    writes nothing. *)
Lemma scan_duplicate st userId eventId ticketId scannedAt now :
  ticketId ≠ EmptyString →
  scanned_at st userId eventId ticketId scannedAt →
  scan st userId eventId (Some ticketId) now
  = (st, res 409 (DuplicateScan (Some scannedAt))).
Proof.
  intros Ht (i & event & k & reg & (o & organizer & Horg & Hev & Hown)
             & Hfind & He & Hatt & Hts).
  unfold scan. rewrite truthy_Some, Horg, Hev, Hfind by done.
  rewrite decide_False by (by rewrite Hown; intros []).
  rewrite decide_False by (by rewrite He; intros []).
  by rewrite Hatt, Hts.
Qed.

(** No scan request, of any ticket at any event, disturbs a registration
    that is already marked attended. *)
Lemma scan_preserves_scanned_at st userId eventId ticketId scannedAt u e t now :
  scanned_at st userId eventId ticketId scannedAt →
  scanned_at (scan st u e t now).1 userId eventId ticketId scannedAt.
Proof.
  intros (i & event & k & reg & Hown & Hfind & He & Hatt & Hts).
  exists i, event, k, reg. split_and!; try done.
  - destruct Hown as (o & organizer & Horg & Hev & Hown).
    unfold owns. destruct (scan_frame st u e t now) as [-> ->].
    by exists o, organizer.
  - unfold scan. repeat (case_match; try done). simpl.
    match goal with
    | H : Registration_findByTicket _ _ = Some (?k', ?r') |- _ =>
        pose proof H as (Hk' & Ht' & _)%list_find_Some;
        destruct (decide (k = k')) as [<- | Hne]
    end.
    + apply list_find_Some in Hfind as (Hk & _ & _). congruence.
    + eapply list_find_insert_other; [exact Hk' | done | done | done].
Qed.

Lemma scans_preserve_scanned_at st userId eventId ticketId scannedAt trace :
  scans_only trace →
  scanned_at st userId eventId ticketId scannedAt →
  scanned_at (run st trace) userId eventId ticketId scannedAt.
Proof.
  revert st. induction trace as [|[op env] trace IH]; intros st Hscans Hst.
  - done.
  - apply Forall_cons in Hscans as [(u & e & t & Hop) Hscans].
    simpl in Hop. subst op.
    change (run st ((OpScan u e t, env) :: trace))
      with (run (scan st u e t (now env)).1 trace).
    apply IH; [done |]. by apply scan_preserves_scanned_at.
Qed.

(** *** Who writes the attendance mark *)

Lemma keeps_attendance_refl regs : keeps_attendance regs regs.
Proof. intros k r Hk. by exists r. Qed.

Lemma keeps_attendance_trans regs1 regs2 regs3 :
  keeps_attendance regs1 regs2 → keeps_attendance regs2 regs3 →
  keeps_attendance regs1 regs3.
Proof.
  intros H12 H23 k r Hk.
  destruct (H12 k r Hk) as (r2 & Hk2 & Hkeep2).
  destruct (H23 k r2 Hk2) as (r3 & Hk3 & Hkeep3).
  exists r3. split; [done |]. intros Hatt.
  destruct (Hkeep2 Hatt) as [Hatt2 Hts2].
  destruct (Hkeep3 Hatt2) as [Hatt3 Hts3]. split; congruence.
Qed.

Lemma keeps_attendance_app regs docs : keeps_attendance regs (regs ++ docs).
Proof. intros k r Hk. exists r. split; [by apply lookup_app_l_Some | done]. Qed.

Lemma keeps_attendance_insert regs k r r' :
  regs !! k = Some r →
  (Registration.attended r = true →
   Registration.attended r' = true ∧
   Registration.attendanceTimestamp r' = Registration.attendanceTimestamp r) →
  keeps_attendance regs (<[k := r']> regs).
Proof.
  intros Hk Hkeep k0 r0 Hk0. destruct (decide (k0 = k)) as [-> | Hne].
  - exists r'. assert (r0 = r) as -> by congruence.
    split; [| done].
    rewrite list_lookup_insert_eq; [done | by eapply lookup_lt_Some].
  - exists r0. by rewrite list_lookup_insert_ne.
Qed.

Lemma keeps_attendance_found {P : Registration.t → Prop}
    `{!∀ r, Decision (P r)} regs k r r' :
  list_find P regs = Some (k, r) →
  (Registration.attended r = true →
   Registration.attended r' = true ∧
   Registration.attendanceTimestamp r' = Registration.attendanceTimestamp r) →
  keeps_attendance regs (<[k := r']> regs).
Proof.
  intros (Hk & _ & _)%list_find_Some. by apply keeps_attendance_insert.
Qed.

(** Among the requests, only the override writes the attendance mark of a
    registration already marked, and only the deletions remove one. *)
Lemma step_keeps_attendance st op env :
  match op with
  | OpOverride _ _ _ _ _ | OpDeleteEvent _ _ | OpAdminDeleteOrganizer _ =>
      False
  | _ => True
  end →
  keeps_attendance (registrations st) (registrations (step st op env).1).
Proof.
  destruct op; try done; intros _; simpl.
  - unfold createEvent.
    repeat (case_match; try apply keeps_attendance_refl).
  - unfold editEvent.
    repeat (case_match; try apply keeps_attendance_refl).
  - destruct (register_effect st userId eventId formData (now env) (rnd env))
      as [[-> _] | (doc & _ & _ & ->)];
      [apply keeps_attendance_refl | apply keeps_attendance_app].
  - destruct (order_effect st userId eventId variantId quantity
                           (now env) (rnd env))
      as [[-> _] | (doc & _ & _ & ->)];
      [apply keeps_attendance_refl | apply keeps_attendance_app].
  - unfold uploadProof.
    repeat (case_match; try apply keeps_attendance_refl).
    simpl. by eapply keeps_attendance_found.
  - unfold approve, Registration_save_ticket.
    repeat (case_match; try apply keeps_attendance_refl);
      simplify_eq; simpl; by eapply keeps_attendance_found.
  - unfold reject.
    repeat (case_match; try apply keeps_attendance_refl).
    simpl. by eapply keeps_attendance_found.
  - unfold scan.
    repeat (case_match; try apply keeps_attendance_refl).
    simpl. eapply keeps_attendance_found; [done |]. congruence.
Qed.

Lemma run_keeps_attendance st trace :
  no_override_or_deletion trace →
  keeps_attendance (registrations st) (registrations (run st trace)).
Proof.
  revert st. induction trace as [|[op env] trace IH]; intros st Hops.
  - apply keeps_attendance_refl.
  - apply Forall_cons in Hops as [Hop Hops]. simpl in Hop.
    change (run st ((op, env) :: trace)) with (run (step st op env).1 trace).
    eapply keeps_attendance_trans; [by apply step_keeps_attendance |].
    by apply IH.
Qed.

(** C7. A scan by the event's owner of a ticket of that event: when the
    registration is already attended, the store is unchanged and the answer
    is the 409 duplicate-scan response carrying the stored timestamp; when
    it is not, the registration becomes attended with timestamp [now] and
    the answer is 200 "Attendance marked."; after that first scan,
    whatever scans follow (of any ticket, at any event, at any time), every
    scan of this ticket answers the duplicate-scan response with the first
    scan's timestamp and changes nothing; and along every sequence of
    requests without a manual override (and without a deletion of events)
    the registration keeps the attended mark and the first scan's
    timestamp. *)
Theorem C7_scan_first_then_duplicate
    (st : Store) (userId eventId : ObjectId) (i : nat) (event : Event.t)
    (ticketId : string) (k : nat) (reg : Registration.t) (now : Date) :
  owns st userId eventId i event →
  ticketId ≠ EmptyString →
  Registration_findByTicket ticketId (registrations st) = Some (k, reg) →
  Registration.eventId reg = eventId →
  let out := scan st userId eventId (Some ticketId) now in
  (Registration.attended reg = true →
     out = (st, res 409 (DuplicateScan (Registration.attendanceTimestamp reg))))
  ∧ (Registration.attended reg = false →
     out.1 = set_registrations
               (<[k := Registration.set_attendanceTimestamp (Some now)
                         (Registration.set_attended true reg)]>
                  (registrations st)) st
     ∧ (∃ total scanned,
          out.2 = res 200 (AttendanceMarked now total scanned
                                            (total - scanned)))
     ∧ (∀ (trace : list (Op * Env)) (now' : Date),
          scans_only trace →
          scan (run out.1 trace) userId eventId (Some ticketId) now'
          = (run out.1 trace, res 409 (DuplicateScan (Some now))))
     ∧ (∀ trace : list (Op * Env),
          no_override_or_deletion trace →
          ∃ reg',
            registrations (run out.1 trace) !! k = Some reg' ∧
            Registration.attended reg' = true ∧
            Registration.attendanceTimestamp reg' = Some now)).
Proof.
  intros Hown Ht Hfind He out.
  assert (Hout : out =
    if Registration.attended reg
    then (st, res 409 (DuplicateScan (Registration.attendanceTimestamp reg)))
    else
      let regs' := <[k := Registration.set_attendanceTimestamp (Some now)
                            (Registration.set_attended true reg)]>
                     (registrations st) in
      (set_registrations regs' st,
       res 200 (AttendanceMarked now
                  (countDocuments (Event._id event) regs')
                  (countAttended (Event._id event) regs')
                  (countDocuments (Event._id event) regs'
                   - countAttended (Event._id event) regs')))).
  { subst out. destruct Hown as (o & organizer & Horg & Hev & Hown).
    unfold scan. rewrite truthy_Some, Horg, Hev, Hfind by done.
    rewrite decide_False by (by rewrite Hown; intros []).
    rewrite decide_False by (by rewrite He; intros []).
    done. }
  split.
  - intros Hatt. by rewrite Hout, Hatt.
  - intros Hatt. rewrite Hout, Hatt. simpl. split_and!.
    + done.
    + by eexists _, _.
    + intros trace now' Hscans. apply scan_duplicate; [done |].
      apply scans_preserve_scanned_at; [done |].
      exists i, event, k,
        (Registration.set_attendanceTimestamp (Some now)
           (Registration.set_attended true reg)).
      split_and!; try done.
      simpl. eapply list_find_insert_same; [| exact Hfind].
      simpl. by apply list_find_Some in Hfind as (_ & ? & _).
    + intros trace Hops.
      pose proof Hfind as (Hk & _ & _)%list_find_Some.
      destruct (run_keeps_attendance
                  (set_registrations
                     (<[k := Registration.set_attendanceTimestamp (Some now)
                               (Registration.set_attended true reg)]>
                        (registrations st)) st) trace Hops k
                  (Registration.set_attendanceTimestamp (Some now)
                     (Registration.set_attended true reg)))
        as (reg' & Hk' & Hkeep).
      { simpl. rewrite list_lookup_insert_eq; [done |].
        by eapply lookup_lt_Some. }
      exists reg'. split; [done |]. by apply Hkeep.
Qed.

(** Two scans of Alice's ticket at the fest, at times 150 and 160, with a
    third scan in between. *)
Lemma C7_scan_witness :
  let st := Sample.store [Sample.fest Published]
                         [Sample.reg_fest "TKT-1" false None] in
  let st1 := (scan st 10 1 (Some "TKT-1") 150).1 in
  st1 = Sample.store [Sample.fest Published]
                     [Sample.reg_fest "TKT-1" true (Some 150)]
  ∧ scan (run st1 [(OpScan 10 1 (Some "TKT-1"), mkEnv 155 "r")])
         10 1 (Some "TKT-1") 160
    = (run st1 [(OpScan 10 1 (Some "TKT-1"), mkEnv 155 "r")],
       res 409 (DuplicateScan (Some 150))).
Proof.
  intros st st1.
  assert (Hown : owns st 10 1 0 (Sample.fest Published)).
  { exists 0%nat, Sample.organiser. split_and!; reflexivity. }
  destruct (C7_scan_first_then_duplicate st 10 1 0 (Sample.fest Published)
              "TKT-1" 0 (Sample.reg_fest "TKT-1" false None) 150
              Hown ltac:(discriminate) eq_refl eq_refl) as [_ Hfirst].
  destruct (Hfirst eq_refl) as (Hst1 & _ & Hlater & _).
  split; [exact Hst1 |].
  apply Hlater. repeat constructor. by exists 10, 1, (Some "TKT-1").
Defined.

(** * Further properties of the routes *)

(** ** Invariants of the store under every request *)

Lemma run_cons st op env trace :
  run st ((op, env) :: trace) = run (step st op env).1 trace.
Proof. done. Qed.

(** An invariant of single requests is an invariant of traces. *)
Lemma run_invariant (I : Store → Prop) :
  (∀ st op env, I st → I (step st op env).1) →
  ∀ st trace, I st → I (run st trace).
Proof.
  intros Hstep st trace. revert st.
  induction trace as [|[op env] trace IH]; intros st HI; [done |].
  rewrite run_cons. by apply IH, Hstep.
Qed.

Lemma Event_findById_lookup eventId evs i event :
  Event_findById eventId evs = Some (i, event) → evs !! i = Some event.
Proof. by intros (? & _ & _)%list_find_Some. Qed.

Lemma Event_findById_elem eventId evs i event :
  Event_findById eventId evs = Some (i, event) → event ∈ evs.
Proof. intros H%Event_findById_lookup. by eapply list_elem_of_lookup_2. Qed.

Lemma Object_assign_variants event updates :
  KmerchandiseVariants ∉ key <$> updates →
  Event.merchandiseVariants (Object_assign event updates)
  = Event.merchandiseVariants event.
Proof.
  revert event. induction updates as [|u rest IH]; intros event Hnotin.
  - done.
  - rewrite fmap_cons in Hnotin.
    apply not_elem_of_cons in Hnotin as [Hne Hnotin].
    change (Object_assign event (u :: rest))
      with (Object_assign (assign u event) rest).
    rewrite IH by done. destruct u; simpl in *; done.
Qed.

Lemma editPublished_variants event updates event' :
  editPublished event updates = inr event' →
  Event.merchandiseVariants event' = Event.merchandiseVariants event.
Proof.
  revert event. induction updates as [|u rest IH]; intros event; simpl.
  - by intros [= <-].
  - case_bool_decide as Hk; [done |].
    assert (Hstep : editPublished (assign u event) rest = inr event' →
              Event.merchandiseVariants event'
              = Event.merchandiseVariants event).
    { intros ->%IH.
      by destruct (allowed_cases _ Hk) as [Hc | [Hc | [Hc | Hc]]];
        destruct u. }
    destruct u; try exact Hstep.
    + case_decide; [done | exact Hstep].
    + destruct (lt_limit _ _); [done | exact Hstep].
Qed.

Lemma path_valid_variants event :
  path_valid KmerchandiseVariants event = true →
  Forall (λ v, 0 <= Variant.stock v) (Event.merchandiseVariants event).
Proof.
  simpl. intros Hall. apply Forall_forall. intros v Hv.
  eapply forallb_forall in Hall; [| by apply list_elem_of_In].
  apply andb_true_iff in Hall as [Hs _]. by apply bool_decide_eq_true in Hs.
Qed.

Lemma Event_validate_variants modified event :
  Event_validate modified event = true →
  KmerchandiseVariants ∈ modified →
  Forall (λ v, 0 <= Variant.stock v) (Event.merchandiseVariants event).
Proof.
  unfold Event_validate. intros Hall Hin. apply path_valid_variants.
  eapply forallb_forall in Hall; [done | by apply list_elem_of_In].
Qed.

(** What an accepted edit leaves in the variants: validated stocks, or the
    variants as they were. *)
Lemma editBranches_variants event currentStatus updates event' modified :
  editBranches event currentStatus updates = inr (event', modified) →
  Event_validate modified event' = true →
  Forall (λ v, 0 <= Variant.stock v) (Event.merchandiseVariants event) →
  Forall (λ v, 0 <= Variant.stock v) (Event.merchandiseVariants event').
Proof.
  unfold editBranches. intros Hb Hvalid Hold.
  repeat case_decide.
  - injection Hb as <- <-.
    destruct (decide (KmerchandiseVariants ∈ key <$> updates)).
    + by eapply Event_validate_variants.
    + by rewrite Object_assign_variants.
  - destruct (editPublished _ _) as [r|ev] eqn:Hp; [done |].
    injection Hb as <- <-. by rewrite (editPublished_variants _ _ _ Hp).
  - destruct updates as [|[] []]; try done. by injection Hb as <- <-.
  - by injection Hb as <- <-.
Qed.

Lemma with_stock_taken_nonneg event j variant quantity :
  Forall (λ v, 0 <= Variant.stock v) (Event.merchandiseVariants event) →
  ¬ Variant.stock variant - quantity < 0 →
  Forall (λ v, 0 <= Variant.stock v)
         (Event.merchandiseVariants (with_stock_taken event j variant quantity)).
Proof. intros Hall Hge. simpl. apply Forall_insert; [done |]. simpl. lia. Qed.

Lemma step_stock_nonneg st op env :
  stock_nonneg st → stock_nonneg (step st op env).1.
Proof.
  unfold stock_nonneg. intros Hinv.
  assert (Hfound : ∀ e i event,
            Event_findById e (events st) = Some (i, event) →
            Forall (λ v, 0 <= Variant.stock v)
                   (Event.merchandiseVariants event)).
  { intros e i event Hev%Event_findById_elem.
    by eapply Forall_forall in Hinv. }
  destruct op; simpl.
  - unfold createEvent. repeat (case_match; try done). simpl.
    apply Forall_app. split; [done |]. apply Forall_singleton.
    match goal with
    | H : Event_validate schema_paths ?ev = true |- _ =>
        apply (Event_validate_variants _ _ H)
    end.
    unfold schema_paths. rewrite !elem_of_cons. tauto.
  - unfold editEvent.
    destruct (Organizer_findOne _ _) as [[o organizer]|]; [| done].
    destruct (Event_findById _ _) as [[i event]|] eqn:Hev; [| done].
    case_decide; [done |].
    destruct (editBranches _ _ _) as [r|[event' modified]] eqn:Hb; [done |].
    destruct (Event_validate _ _) eqn:Hvalid; [| done]. simpl.
    apply Forall_insert; [done |].
    eapply editBranches_variants; eauto.
  - unfold deleteEvent. repeat (case_match; try done). simpl.
    by apply Forall_delete.
  - unfold register.
    destruct (Event_findById _ _) as [[i event]|] eqn:Hev; [| done].
    repeat (case_match; try done); simpl;
      (apply Forall_insert; [done |]); simpl; eauto.
  - unfold order.
    destruct (Event_findById _ _) as [[i event]|] eqn:Hev; [| done].
    repeat (case_match; try done); simpl;
      (apply Forall_insert; [done |]);
      apply with_stock_taken_nonneg; eauto.
  - by rewrite uploadProof_events.
  - unfold approve.
    destruct (Organizer_findOne _ _) as [[o organizer]|]; [| done].
    destruct (Event_findById _ _) as [[i event]|] eqn:Hev; [| done].
    repeat (case_match; try done); simpl;
      (apply Forall_insert; [done |]);
      apply with_stock_taken_nonneg; eauto.
  - by rewrite reject_events.
  - by destruct (scan_frame st userId eventId ticketId (now env)) as [-> _].
  - by rewrite override_events.
  - unfold adminDeleteOrganizer. repeat (case_match; try done); simpl;
      apply Forall_forall; intros e [_ He]%list_elem_of_filter;
      by eapply Forall_forall in Hinv.
Qed.

Lemma Registration_create_fresh doc regs regs' :
  Registration_create doc regs = inr regs' →
  regs' = regs ++ [doc] ∧
  ¬ pair_indexed (Registration.eventId doc)
                 (Registration.participantId doc) regs ∧
  ¬ ticket_indexed (Registration.ticketId doc) regs.
Proof.
  unfold Registration_create. repeat case_decide; try done.
  by intros [= <-].
Qed.

Lemma Event_findById_indexed eventId evs i event :
  Event_findById eventId evs = Some (i, event) →
  Event._id event ∈ Event._id <$> evs.
Proof. intros H%Event_findById_elem. by apply list_elem_of_fmap_2. Qed.

Lemma list_find_lookup {A} (P : A → Prop) `{!∀ x, Decision (P x)}
    (l : list A) i x :
  list_find P l = Some (i, x) → l !! i = Some x.
Proof. by intros (? & _ & _)%list_find_Some. Qed.

(** What one request does to the registrations. *)
Lemma step_registrations_effect st op env :
  let regs' := registrations (step st op env).1 in
  regs' = registrations st ∨ reg_appended st regs' ∨ reg_rewritten st regs'
  ∨ (is_deletion op ∧ regs' `sublist_of` registrations st).
Proof.
  assert (Hsetter : ∀ (k : nat) (r r' : Registration.t)
            (P : Registration.t → Prop) `{!∀ x, Decision (P x)},
            list_find P (registrations st) = Some (k, r) →
            pair_of r' = pair_of r →
            Registration.ticketId r' = Registration.ticketId r →
            Registration.paymentStatus r' = Registration.paymentStatus r
            ∨ Registration.paymentStatus r = Pending →
            reg_rewritten st (<[k := r']> (registrations st))).
  { intros k r r' P ? Hfind Hpair Hticket Hstatus.
    exists k, r, r'. split_and!; [by eapply list_find_lookup | done.. | | ].
    - by left.
    - intros Hne. by destruct Hstatus. }
  destruct op; simpl.
  - left. unfold createEvent. by repeat case_match.
  - left. unfold editEvent. by repeat case_match.
  - unfold deleteEvent. repeat (case_match; try by left); simpl;
      do 3 right; (split; [done | apply sublist_filter]).
  - unfold register.
    destruct (Event_findById _ _) as [[i event]|] eqn:Hev; [| by left].
    repeat (case_match; try by left);
      match goal with
      | H : Registration_create _ _ = inr _ |- _ =>
          apply Registration_create_fresh in H as (-> & Hpair & Hticket)
      end;
      right; left; eexists; (split; [by simpl |]);
      split_and!; try done; simpl; by eapply Event_findById_indexed.
  - unfold order.
    destruct (Event_findById _ _) as [[i event]|] eqn:Hev; [| by left].
    repeat (case_match; try by left);
      match goal with
      | H : Registration_create _ _ = inl _ |- _ => by left
      | H : Registration_create _ _ = inr _ |- _ =>
          apply Registration_create_fresh in H as (-> & Hpair & Hticket)
      end;
      right; left; eexists; (split; [by simpl |]);
      split_and!; try done; simpl; by eapply Event_findById_indexed.
  - unfold uploadProof. repeat (case_match; try by left); simpl;
      do 2 right; left; eapply Hsetter; eauto.
  - unfold approve, Registration_save_ticket.
    repeat (case_match; try by left); simplify_eq; simpl.
    all: do 2 right; left.
    all: match goal with
         | H : Registration_findOrder _ _ _ = Some (?k, ?r) |- _ =>
             exists k, r, (Registration.set_ticketId
                             (Some (generateTicketId (now env) (rnd env)))
                             (Registration.set_paymentStatus Approved r));
             split_and!; [by eapply list_find_lookup | done | done | | ]
         end.
    all: try (right; split; [by apply dec_stable | done]).
    all: intros Hne; by exfalso.
  - unfold reject. repeat (case_match; try by left); simpl;
      do 2 right; left; eapply Hsetter; eauto;
      right; by apply dec_stable.
  - unfold scan. repeat (case_match; try by left); simpl;
      do 2 right; left; eapply Hsetter; eauto.
  - unfold override. repeat (case_match; try by left); simpl;
      do 2 right; left; eapply Hsetter; eauto.
  - unfold adminDeleteOrganizer. repeat (case_match; try by left); simpl;
      do 3 right; (split; [done | apply sublist_filter]).
Qed.

Lemma ticket_indexed_tickets t regs :
  ticket_indexed (Some t) regs ↔ t ∈ tickets regs.
Proof.
  unfold ticket_indexed, tickets.
  rewrite Exists_exists, list_elem_of_omap.
  split; intros (r & Hr & Ht); by exists r.
Qed.

Lemma tickets_sublist regs1 regs2 :
  regs1 `sublist_of` regs2 → tickets regs1 `sublist_of` tickets regs2.
Proof.
  unfold tickets. induction 1 as [|r l1 l2 _ IH|r l1 l2 _ IH]; simpl.
  - constructor.
  - destruct (Registration.ticketId r); [by constructor | done].
  - destruct (Registration.ticketId r); [by constructor | done].
Qed.

Lemma tickets_split regs k r :
  regs !! k = Some r →
  tickets regs
  = tickets (take k regs) ++ tickets [r] ++ tickets (drop (S k) regs).
Proof.
  intros Hk. rewrite <- (take_drop_middle regs k r Hk) at 1.
  unfold tickets. rewrite omap_app. simpl.
  by destruct (Registration.ticketId r).
Qed.

Lemma tickets_insert regs k r r' :
  regs !! k = Some r →
  tickets (<[k := r']> regs)
  = tickets (take k regs) ++ tickets [r'] ++ tickets (drop (S k) regs).
Proof.
  intros Hk. rewrite insert_take_drop by (by eapply lookup_lt_Some).
  unfold tickets. rewrite omap_app. simpl.
  by destruct (Registration.ticketId r').
Qed.

Lemma tickets_delete regs k :
  tickets (delete k regs) = tickets (take k regs) ++ tickets (drop (S k) regs).
Proof. rewrite delete_take_drop. unfold tickets. by rewrite omap_app. Qed.

(** One request keeps the tickets distinct. *)
Lemma step_unique_tickets st op env :
  unique_tickets (registrations st) →
  unique_tickets (registrations (step st op env).1).
Proof.
  unfold unique_tickets. intros Hinv.
  destruct (step_registrations_effect st op env)
    as [-> | [(doc & -> & _ & Hfresh & _)
           | [(k & r & r' & Hk & -> & _ & Hticket & _) | [_ Hsub]]]].
  - done.
  - unfold tickets. rewrite omap_app. apply NoDup_app. split_and!; [done | |].
    + intros t Ht. simpl. destruct (Registration.ticketId doc) as [t'|];
        [| apply not_elem_of_nil].
      intros ->%list_elem_of_singleton. by apply Hfresh, ticket_indexed_tickets.
    + simpl. destruct (Registration.ticketId doc);
        [apply NoDup_singleton | apply NoDup_nil_2].
  - rewrite (tickets_insert _ _ _ _ Hk).
    rewrite (tickets_split _ _ _ Hk) in Hinv.
    destruct Hticket as [Hsame | [_ Hfresh]].
    + unfold tickets at 2. unfold tickets at 2 in Hinv. simpl in *.
      by rewrite Hsame.
    + apply NoDup_app in Hinv as (Hl & Hdisj & Hr).
      apply NoDup_app in Hr as (_ & _ & Hr).
      assert (Hlr : ∀ t, t ∈ tickets (take k (registrations st)) →
                         t ∉ tickets (drop (S k) (registrations st))).
      { intros t Ht Ht'. apply (Hdisj t Ht). apply elem_of_app. by right. }
      unfold tickets at 2. simpl.
      destruct (Registration.ticketId r') as [t'|] eqn:Ht'.
      * assert (Hnew : t' ∉ tickets (delete k (registrations st))).
        { intros Hin. by apply Hfresh, ticket_indexed_tickets. }
        rewrite tickets_delete in Hnew.
        apply not_elem_of_app in Hnew as [Hnl Hnr].
        apply NoDup_app. split_and!; [done | |].
        -- intros t Ht [-> | Hin]%elem_of_cons; [done | by eapply Hlr].
        -- by apply NoDup_cons.
      * apply NoDup_app. split_and!; [done | | done].
        intros t Ht. simpl. by apply Hlr.
  - eapply sublist_NoDup; [exact Hinv | by apply tickets_sublist].
Qed.

(** One request keeps the (event, participant) pairs distinct. *)
Lemma step_unique_pairs st op env :
  unique_pairs (registrations st) →
  unique_pairs (registrations (step st op env).1).
Proof.
  unfold unique_pairs. intros Hinv.
  destruct (step_registrations_effect st op env)
    as [-> | [(doc & -> & Hfresh & _)
           | [(k & r & r' & Hk & -> & Hpair & _) | [_ Hsub]]]].
  - done.
  - by apply unique_pairs_insert.
  - rewrite list_fmap_insert, Hpair, list_insert_id; [done |].
    by rewrite list_lookup_fmap, Hk.
  - eapply sublist_NoDup; [exact Hinv | by apply fmap_sublist].
Qed.

Lemma newObjectId_fresh (used : list ObjectId) : newObjectId used ∉ used.
Proof.
  assert (Hmax : ∀ x, x ∈ used → x <= foldr Z.max 0 used).
  { induction used as [|y used IH]; intros x Hx.
    - by apply elem_of_nil in Hx.
    - apply elem_of_cons in Hx as [-> | Hx]; simpl; [lia |].
      specialize (IH x Hx). lia. }
  intros Hin%Hmax. unfold newObjectId in Hin. lia.
Qed.

(** What one request does to the events. *)
Lemma step_events_effect st op env :
  let evs' := events (step st op env).1 in
  evs' = events st ∨ ev_rewritten st evs' ∨ ev_appended st evs'
  ∨ (is_deletion op ∧ evs' `sublist_of` events st).
Proof.
  assert (Hrw : ∀ eventId evs',
            rewrites_locked eventId (events st) evs' →
            evs' = events st ∨ ev_rewritten st evs').
  { intros eventId evs' [-> | (i & ev & ev' & Hi & Hid & _ & ->)];
      [by left | right; by exists i, ev, ev']. }
  destruct op; simpl.
  - unfold createEvent. repeat (case_match; try by left). simpl.
    do 2 right. left. by eexists.
  - unfold editEvent.
    destruct (Organizer_findOne _ _) as [[o organizer]|]; [| by left].
    destruct (Event_findById _ _) as [[i event]|] eqn:Hev; [| by left].
    case_decide; [by left |].
    destruct (editBranches _ _ _) as [r|[event' modified]] eqn:Hb; [by left |].
    destruct (Event_validate _ _); [| by left]. simpl.
    right. left. exists i, event, event'.
    split_and!; [by eapply Event_findById_lookup | | done].
    unfold editBranches in Hb. repeat case_decide.
    + injection Hb as <- <-. apply Object_assign_id.
    + destruct (editPublished _ _) as [r|ev] eqn:Hp; [done |].
      injection Hb as <- <-. by apply editPublished_id_lock in Hp as [-> _].
    + destruct updates as [|[] []]; try done. by injection Hb as <- <-.
    + by injection Hb as <- <-.
  - unfold deleteEvent. repeat (case_match; try by left); simpl;
      do 3 right; (split; [done | apply sublist_delete]).
  - destruct (Hrw 0 _ (register_events 0 st userId eventId formData
                         (now env) (rnd env))); auto.
  - destruct (Hrw 0 _ (order_events 0 st userId eventId variantId quantity
                         (now env) (rnd env))); auto.
  - left. apply uploadProof_events.
  - destruct (Hrw 0 _ (approve_events 0 st userId eventId regId
                         (now env) (rnd env))); auto.
  - left. apply reject_events.
  - left. by destruct (scan_frame st userId eventId ticketId (now env)).
  - left. apply override_events.
  - unfold adminDeleteOrganizer. repeat (case_match; try by left); simpl;
      do 3 right; (split; [done | apply sublist_filter]).
Qed.

(** One request keeps the event identifiers distinct. *)
Lemma step_unique_event_ids st op env :
  unique_event_ids (events st) →
  unique_event_ids (events (step st op env).1).
Proof.
  unfold unique_event_ids. intros Hinv.
  destruct (step_events_effect st op env)
    as [-> | [(i & ev & ev' & Hi & Hid & ->)
           | [(ev & -> & Hid) | [_ Hsub]]]].
  - done.
  - rewrite list_fmap_insert, Hid, list_insert_id; [done |].
    by rewrite list_lookup_fmap, Hi.
  - rewrite fmap_app. apply NoDup_app. split_and!; [done | |].
    + intros x Hx ->%list_elem_of_singleton. simpl in Hx.
      rewrite Hid in Hx. by apply newObjectId_fresh in Hx.
    + apply NoDup_singleton.
  - eapply sublist_NoDup; [exact Hinv | by apply fmap_sublist].
Qed.

Lemma elem_of_fmap_delete {A B} (f : A → B) (l : list A) i y x :
  x ∈ f <$> l → l !! i = Some y → f y ≠ x → x ∈ f <$> delete i l.
Proof.
  intros (z & -> & Hz)%list_elem_of_fmap Hi Hne.
  apply list_elem_of_lookup in Hz as [j Hj].
  apply list_elem_of_fmap_2, list_elem_of_lookup.
  destruct (decide (j < i)%nat).
  - exists j. by rewrite list_lookup_delete_lt.
  - assert (j ≠ i) by (intros ->; congruence).
    exists (pred j). rewrite list_lookup_delete_ge by lia.
    by replace (S (pred j)) with j by lia.
Qed.

(** One request keeps every registration attached to a stored event. *)
Lemma step_refers_to_events st op env :
  refers_to_events st → refers_to_events (step st op env).1.
Proof.
  unfold refers_to_events. intros Hinv.
  destruct (decide (is_deletion op)) as [Hdel | Hkeep].
  - destruct op; try done; simpl.
    + unfold deleteEvent.
      destruct (Organizer_findOne _ _) as [[o organizer]|]; [| done].
      destruct (Event_findById _ _) as [[i event]|] eqn:Hev; [| done].
      repeat (case_decide; try done). simpl.
      apply Forall_forall. intros r [Hne Hr]%list_elem_of_filter.
      eapply elem_of_fmap_delete.
      * by eapply Forall_forall in Hinv.
      * by eapply Event_findById_lookup.
      * rewrite (Event_findById_id _ _ _ _ Hev). by intros ->.
    + unfold adminDeleteOrganizer.
      repeat (case_match; try done); simpl;
        apply Forall_forall; intros r [Hout Hr]%list_elem_of_filter;
        (eapply Forall_forall in Hinv; [| exact Hr]);
        apply list_elem_of_fmap in Hinv as (z & Hz & Hin);
        apply list_elem_of_fmap; exists z; (split; [done |]);
        apply list_elem_of_filter; (split; [| done]);
        intros Hown; apply Hout; rewrite Hz;
        apply list_elem_of_fmap_2; by apply list_elem_of_filter.
  - assert (Hids : ∀ x, x ∈ Event._id <$> events st →
                        x ∈ Event._id <$> events (step st op env).1).
    { intros x Hx.
      destruct (step_events_effect st op env)
        as [-> | [(i & ev & ev' & Hi & Hid & ->)
               | [(ev & -> & Hid) | [Hdel _]]]]; [done | | | done].
      - rewrite list_fmap_insert, Hid, list_insert_id; [done |].
        by rewrite list_lookup_fmap, Hi.
      - rewrite fmap_app. apply elem_of_app. by left. }
    destruct (step_registrations_effect st op env)
      as [-> | [(doc & -> & _ & _ & Hdoc)
             | [(k & r & r' & Hk & -> & Hpair & _) | [Hdel _]]]];
      [| | | done].
    + eapply Forall_impl; [exact Hinv | eauto].
    + apply Forall_app. split.
      * eapply Forall_impl; [exact Hinv | eauto].
      * apply Forall_singleton. by apply Hids.
    + apply Forall_insert.
      * eapply Forall_impl; [exact Hinv | eauto].
      * injection Hpair as -> _. apply Hids.
        eapply Forall_forall in Hinv; [exact Hinv |].
        by eapply list_elem_of_lookup_2.
Qed.

Lemma keeps_payment_refl regs : keeps_payment regs regs.
Proof. intros k r Hk. by exists r. Qed.

Lemma keeps_payment_trans regs1 regs2 regs3 :
  keeps_payment regs1 regs2 → keeps_payment regs2 regs3 →
  keeps_payment regs1 regs3.
Proof.
  intros H12 H23 k r Hk.
  destruct (H12 k r Hk) as (r2 & Hk2 & Hpair2 & Hkeep2).
  destruct (H23 k r2 Hk2) as (r3 & Hk3 & Hpair3 & Hkeep3).
  exists r3. split_and!; [done | congruence |].
  intros Hne. destruct (Hkeep2 Hne) as [Hs2 Ht2].
  destruct Hkeep3 as [Hs3 Ht3]; [congruence |]. split; congruence.
Qed.

(** Apart from the deletions, a request keeps every registration in
    place, and never changes a payment status other than Pending nor the
    ticket of such a registration. *)
Lemma step_keeps_payment st op env :
  ¬ is_deletion op →
  keeps_payment (registrations st) (registrations (step st op env).1).
Proof.
  intros Hkeep.
  destruct (step_registrations_effect st op env)
    as [-> | [(doc & -> & _)
           | [(k & r & r' & Hk & -> & Hpair & Hticket & Hstatus)
             | [Hdel _]]]]; [| | | done].
  - apply keeps_payment_refl.
  - intros k r Hk. exists r. split; [by apply lookup_app_l_Some | done].
  - intros k0 r0 Hk0. destruct (decide (k0 = k)) as [-> | Hne].
    + assert (r0 = r) as -> by congruence. exists r'.
      split_and!; [| done |].
      * rewrite list_lookup_insert_eq; [done | by eapply lookup_lt_Some].
      * intros Hnp. split; [by apply Hstatus |].
        by destruct Hticket as [? | [? _]].
    + exists r0. by rewrite list_lookup_insert_ne.
Qed.

Lemma run_keeps_payment st trace :
  no_deletion trace →
  keeps_payment (registrations st) (registrations (run st trace)).
Proof.
  revert st. induction trace as [|[op env] trace IH]; intros st Hops.
  - apply keeps_payment_refl.
  - apply Forall_cons in Hops as [Hop Hops]. rewrite run_cons.
    eapply keeps_payment_trans; [by apply step_keeps_payment |].
    by apply IH.
Qed.

(** X1. Stock never goes negative. If no variant has a negative stock, none
    has after any sequence of requests: orders and approvals take stock
    only when enough is left, and created or edited variants pass the
    schema's [min: 0] validator. *)
Theorem stock_never_negative (st : Store) (trace : list (Op * Env)) :
  stock_nonneg st → stock_nonneg (run st trace).
Proof.
  intros Hinv. apply (run_invariant stock_nonneg); [| done].
  intros. by apply step_stock_nonneg.
Qed.

Lemma stock_never_negative_witness :
  stock_nonneg (run SampleTrace.start SampleTrace.busy).
Proof.
  apply stock_never_negative. repeat constructor; simpl; lia.
Defined.

(** X2. Tickets stay unique. If no two stored registrations carry the same
    ticket, none do after any sequence of requests: the unique sparse
    index on [ticketId] refuses a colliding insert or approval, and no
    other request writes a ticket. *)
Theorem tickets_stay_unique (st : Store) (trace : list (Op * Env)) :
  unique_tickets (registrations st) →
  unique_tickets (registrations (run st trace)).
Proof.
  intros Hinv.
  apply (run_invariant (λ s, unique_tickets (registrations s))); [| done].
  intros. by apply step_unique_tickets.
Qed.

Lemma tickets_stay_unique_witness :
  unique_tickets (registrations (run SampleTrace.start SampleTrace.busy)).
Proof. apply tickets_stay_unique. apply NoDup_nil_2. Defined.

(** X3. One registration per (event, participant) under every request, not
    only under register and order: payment proof, approval, rejection,
    scan and override rewrite a registration in place for the same pair,
    and the deletions only remove registrations. *)
Theorem pairs_stay_unique (st : Store) (trace : list (Op * Env)) :
  unique_pairs (registrations st) →
  unique_pairs (registrations (run st trace)).
Proof.
  intros Hinv.
  apply (run_invariant (λ s, unique_pairs (registrations s))); [| done].
  intros. by apply step_unique_pairs.
Qed.

Lemma pairs_stay_unique_witness :
  unique_pairs (registrations (run SampleTrace.start SampleTrace.busy)).
Proof. apply pairs_stay_unique. apply NoDup_nil_2. Defined.

(** X4. No orphan registration. If every registration refers to a stored
    event, this still holds after any sequence of requests: a registration
    is created only for an event that was found, and both deletions remove
    the registrations of the events they remove. *)
Theorem registrations_refer_to_events (st : Store) (trace : list (Op * Env)) :
  refers_to_events st → refers_to_events (run st trace).
Proof.
  intros Hinv. apply (run_invariant refers_to_events); [| done].
  intros. by apply step_refers_to_events.
Qed.

Lemma registrations_refer_to_events_witness :
  refers_to_events
    (run SampleTrace.start
         (SampleTrace.busy ++ [(OpAdminDeleteOrganizer 10, mkEnv 170 "r")])).
Proof. apply registrations_refer_to_events. constructor. Defined.

(** X5. A settled payment is final. Along every sequence of requests without
    a deletion, each stored registration stays at its position for the
    same event and participant, and one whose payment status is Approved,
    Rejected or Not Applicable keeps that status and its ticket: only a
    Pending order is ever given another status or a ticket. *)
Theorem settled_payment_is_final
    (st : Store) (trace : list (Op * Env)) (k : nat) (r : Registration.t) :
  no_deletion trace →
  registrations st !! k = Some r →
  ∃ r',
    registrations (run st trace) !! k = Some r' ∧
    Registration.eventId r' = Registration.eventId r ∧
    Registration.participantId r' = Registration.participantId r ∧
    (Registration.paymentStatus r ≠ Pending →
     Registration.paymentStatus r' = Registration.paymentStatus r ∧
     Registration.ticketId r' = Registration.ticketId r).
Proof.
  intros Hops Hk.
  destruct (run_keeps_payment st trace Hops k r Hk)
    as (r' & Hk' & [= He Hp] & Hkeep).
  by exists r'.
Qed.

(** Alice's order, approved with its ticket, seen after a second approval
    attempt, a rejection attempt and a late proof upload. *)
Lemma settled_payment_is_final_witness :
  let st := Sample.store [Sample.merch 3 2 true]
              [Sample.reg_merch (Some "TKT-44-EEEEEE") 2 Approved] in
  ∃ r',
    registrations
      (run st [(OpApprove 10 2 502, mkEnv 50 "FFFFFF");
               (OpReject 10 2 502, mkEnv 51 "r");
               (OpUploadProof 20 2 502 (Some "https://pay/1"), mkEnv 52 "r")])
    !! 0%nat = Some r' ∧
    Registration.paymentStatus r' = Approved ∧
    Registration.ticketId r' = Some "TKT-44-EEEEEE".
Proof.
  intros st.
  destruct (settled_payment_is_final st
              [(OpApprove 10 2 502, mkEnv 50 "FFFFFF");
               (OpReject 10 2 502, mkEnv 51 "r");
               (OpUploadProof 20 2 502 (Some "https://pay/1"), mkEnv 52 "r")]
              0%nat (Sample.reg_merch (Some "TKT-44-EEEEEE") 2 Approved))
    as (r' & Hk & _ & _ & Hkeep).
  - repeat constructor; simpl; tauto.
  - reflexivity.
  - exists r'. split; [exact Hk |]. apply Hkeep. discriminate.
Defined.

(** ** Rejections *)

(** X6. A request answered with a 4xx status writes nothing: every guard that
    answers 400, 403, 404 or 409 runs before the first write of its
    handler. (A 500 can follow a write: X9 and X10.) *)
Theorem client_error_writes_nothing (st : Store) (op : Op) (env : Env) :
  400 <= status (step st op env).2 < 500 →
  (step st op env).1 = st.
Proof.
  destruct op; simpl.
  - unfold createEvent. repeat (case_match; try done); simpl; lia.
  - unfold editEvent. repeat (case_match; try done); simpl; lia.
  - unfold deleteEvent. repeat (case_match; try done); simpl; lia.
  - unfold register. repeat (case_match; try done); simpl; lia.
  - unfold order. repeat (case_match; try done); simpl; lia.
  - unfold uploadProof. repeat (case_match; try done); simpl; lia.
  - unfold approve. repeat (case_match; try done); simpl; lia.
  - unfold reject. repeat (case_match; try done); simpl; lia.
  - unfold scan. repeat (case_match; try done); simpl; lia.
  - unfold override. repeat (case_match; try done); simpl; lia.
  - unfold adminDeleteOrganizer. repeat (case_match; try done); simpl; lia.
Qed.

(** Bob's order of five t-shirts exceeds the purchase limit of two. *)
Lemma client_error_writes_nothing_witness :
  (step SampleTrace.start (OpOrder 21 2 (Some 31) (Some 5)) (mkEnv 42 "C")).1
  = SampleTrace.start.
Proof.
  apply client_error_writes_nothing. simpl. lia.
Defined.

(** ** What a confirmation implies *)





(** ** Writes that precede a failure *)

(** X9. [/order] without payment approval saves the decremented stock before it
    creates the registration. When the generated ticket is already held by
    a stored registration, the create fails on the unique ticket index: the
    request is answered 500, no registration is stored, and the stock stays
    decremented. *)
Theorem order_ticket_collision
    st userId eventId variantId quantity now rnd i event j variant :
  order_cleared st userId eventId variantId (default 1 quantity) now
                i event j variant →
  Event.requiresPaymentApproval event = false →
  default 1 quantity <= Variant.stock variant →
  ticket_indexed (Some (generateTicketId now rnd)) (registrations st) →
  order st userId eventId (Some variantId) quantity now rnd
  = (set_events
       (<[i := with_stock_taken event j variant (default 1 quantity)]>
          (events st)) st,
     res 500 (ServerError E11000_duplicate_key)).
Proof.
  intros Hclr Happroval Hstock Hticket.
  rewrite (order_cleared_unfold _ _ _ _ _ _ _ _ _ _ _ Hclr). cbv zeta.
  rewrite Happroval. rewrite decide_False by lia.
  unfold Registration_create. simpl.
  case_decide; [done |]. by rewrite decide_True.
Qed.

(** Bob orders a t-shirt at the instant and with the suffix of Alice's
    fest ticket: one t-shirt leaves the stock and Bob gets no order. *)
Lemma order_ticket_collision_witness :
  let st := Sample.store [Sample.fest Published; Sample.merch 3 2 false]
                         [Sample.reg_fest "TKT-41-BBBBBB" false None] in
  order st 21 2 (Some 31) None 41 "BBBBBB"
  = (Sample.store [Sample.fest Published; Sample.merch 2 2 false]
                  [Sample.reg_fest "TKT-41-BBBBBB" false None],
     res 500 (ServerError E11000_duplicate_key)).
Proof.
  intros st.
  apply (order_ticket_collision st 21 2 31 None 41 "BBBBBB"
           1 (Sample.merch 3 2 false) 0 (Sample.tshirt 3)).
  - split; [| split; [simpl; lia | reflexivity]].
    unfold order_open. split_and!; try reflexivity.
    + apply elem_of_cons. by left.
    + simpl. lia.
    + exists 2%nat, Sample.bob. split; reflexivity.
  - reflexivity.
  - simpl. lia.
  - apply Exists_cons. by left.
Defined.

(** X10. The approve route has the same order of writes: the decremented stock
    is saved before the order. When the generated ticket is held by another
    registration, the save of the order fails on the unique ticket index:
    the request is answered 500 and the order stays Pending without a
    ticket, while its quantity has left the stock, so that a repeated
    approval takes the quantity a second time. *)
Theorem approve_ticket_collision
    st userId eventId regId now rnd i event k reg j variant :
  order_located st userId eventId regId i event k reg →
  Registration.paymentStatus reg = Pending →
  in_stock event reg j variant →
  ticket_indexed (Some (generateTicketId now rnd))
                 (delete k (registrations st)) →
  approve st userId eventId regId now rnd
  = (set_events
       (<[i := with_stock_taken event j variant (Registration.quantity reg)]>
          (events st)) st,
     res 500 (ServerError E11000_duplicate_key)).
Proof.
  intros Hloc Hpending [Hvariant Hstock] Hticket.
  rewrite (approve_located_unfold _ _ _ _ _ _ _ _ _ _ Hloc).
  rewrite decide_False by (by rewrite Hpending; intros []).
  rewrite Hvariant. rewrite decide_False by lia. cbv zeta.
  unfold Registration_save_ticket. by rewrite decide_True.
Qed.

(** Olga approves Alice's pending order at the instant and with the
    suffix of Alice's fest ticket: two t-shirts leave the stock and the
    order stays Pending. *)
Lemma approve_ticket_collision_witness :
  let regs := [Sample.reg_fest "TKT-44-EEEEEE" false None;
               Sample.reg_merch None 2 Pending] in
  approve (Sample.store [Sample.fest Published; Sample.merch 3 2 true] regs)
          10 2 502 44 "EEEEEE"
  = (Sample.store [Sample.fest Published; Sample.merch 1 2 true] regs,
     res 500 (ServerError E11000_duplicate_key)).
Proof.
  intros regs.
  apply (approve_ticket_collision
           (Sample.store [Sample.fest Published; Sample.merch 3 2 true] regs)
           10 2 502 44 "EEEEEE" 1 (Sample.merch 3 2 true)
           1 (Sample.reg_merch None 2 Pending) 0 (Sample.tshirt 3)).
  - split; [| reflexivity].
    exists 0%nat, Sample.organiser. split_and!; reflexivity.
  - reflexivity.
  - split; [reflexivity | simpl; lia].
  - apply Exists_cons. by left.
Defined.

(** ** Ownership *)

(** X11. Every organizer route that names an event (edit, delete, approve,
    reject, scan, override) writes nothing for a caller who has no
    organizer profile or does not own the event, and answers 400, 403 or
    404. *)
Theorem organizer_routes_need_ownership st op env userId eventId :
  organizer_route op = Some (userId, eventId) →
  (∀ i event, ¬ owns st userId eventId i event) →
  (step st op env).1 = st ∧ status (step st op env).2 ∈ [400; 403; 404].
Proof.
  assert (H400 : 400 ∈ [400; 403; 404]) by (apply elem_of_cons; by left).
  assert (H403 : 403 ∈ [400; 403; 404])
    by (apply elem_of_cons; right; apply elem_of_cons; by left).
  assert (H404 : 404 ∈ [400; 403; 404])
    by (do 2 (apply elem_of_cons; right); apply elem_of_cons; by left).
  intros Hroute Hnot.
  assert (Hguard : ∀ o organizer i event,
            Organizer_findOne userId (organizers st) = Some (o, organizer) →
            Event_findById eventId (events st) = Some (i, event) →
            Event.organizerId event ≠ Organizer._id organizer).
  { intros o organizer i event Ho He Heq.
    apply (Hnot i event). by exists o, organizer. }
  destruct op; simpl in Hroute; try discriminate;
    injection Hroute as -> ->; simpl.
  - unfold editEvent.
    destruct (Organizer_findOne _ _) as [[o organizer]|] eqn:Ho; [| done].
    destruct (Event_findById _ _) as [[i event]|] eqn:He; [| done].
    rewrite decide_True by eauto. done.
  - unfold deleteEvent.
    destruct (Organizer_findOne _ _) as [[o organizer]|] eqn:Ho; [| done].
    destruct (Event_findById _ _) as [[i event]|] eqn:He; [| done].
    rewrite decide_True by eauto. done.
  - unfold approve.
    destruct (Organizer_findOne _ _) as [[o organizer]|] eqn:Ho; [| done].
    destruct (Event_findById _ _) as [[i event]|] eqn:He; [| done].
    rewrite decide_True by eauto. done.
  - unfold reject.
    destruct (Organizer_findOne _ _) as [[o organizer]|] eqn:Ho; [| done].
    destruct (Event_findById _ _) as [[i event]|] eqn:He; [| done].
    rewrite decide_True by eauto. done.
  - unfold scan. destruct (truthy _); [| done].
    destruct (Organizer_findOne _ _) as [[o organizer]|] eqn:Ho; [| done].
    destruct (Event_findById _ _) as [[i event]|] eqn:He; [| done].
    rewrite decide_True by eauto. done.
  - unfold override. destruct attended; [| done].
    destruct (truthy _); [| done].
    destruct (Organizer_findOne _ _) as [[o organizer]|] eqn:Ho; [| done].
    destruct (Event_findById _ _) as [[i event]|] eqn:He; [| done].
    rewrite decide_True by eauto. done.
Qed.


(** Bob has no organizer profile: his request to close the fest is
    answered 404 and changes nothing. *)
Lemma organizer_routes_need_ownership_witness :
  (step SampleTrace.start (OpEditEvent 21 1 [U_statusOverride Closed])
        (mkEnv 60 "r")).1 = SampleTrace.start
  ∧ status (step SampleTrace.start (OpEditEvent 21 1 [U_statusOverride Closed])
                 (mkEnv 60 "r")).2 ∈ [400; 403; 404].
Proof.
  apply (organizer_routes_need_ownership _ _ _ 21 1).
  - reflexivity.
  - intros i event (o & organizer & Ho & _). vm_compute in Ho. discriminate.
Defined.

(** ** Status over time and the public listing *)

(** X12. With the event unchanged, its effective status never moves back as
    time advances: Published may become Ongoing and then Completed, never
    the reverse; Draft and Closed stay. *)
Theorem effective_status_never_goes_back (event : Event.t) (now now' : Date) :
  now <= now' →
  phase (getEffectiveStatus event now) <= phase (getEffectiveStatus event now').
Proof.
  intros Hle. unfold getEffectiveStatus.
  case_bool_decide; [lia |].
  repeat case_decide; simpl; lia.
Qed.

(** The fest is Published at 60 and Ongoing at 150. *)
Lemma effective_status_never_goes_back_witness :
  phase (getEffectiveStatus (Sample.fest Published) 60)
  <= phase (getEffectiveStatus (Sample.fest Published) 150).
Proof.
  apply effective_status_never_goes_back. lia.
Defined.

(** X13. The base query of the browse route lists no Draft and no Closed event:
    an event it returns is effectively Published or Ongoing, unless it was
    completed by hand before its end date, in which case it is listed as
    Completed. *)
Theorem browse_lists_open_events (evs : list Event.t) (now : Date)
    (event : Event.t) :
  event ∈ browse_base evs now →
  event ∈ evs ∧
  (getEffectiveStatus event now ∈ [Published; Ongoing] ∨
   (Event.statusOverride event = Completed ∧
    getEffectiveStatus event now = Completed)).
Proof.
  unfold browse_base. intros [[Hvisible Hend] Hin]%list_elem_of_filter.
  split; [done |]. unfold getEffectiveStatus.
  rewrite bool_decide_eq_false_2 by done.
  case_decide as Hcompleted; [by right |]. left.
  case_decide; [apply elem_of_cons; by left |].
  rewrite decide_True by lia.
  apply elem_of_cons. right. apply elem_of_cons. by left.
Qed.

(** The published fest is listed at time 60. *)
Lemma browse_lists_open_events_witness :
  Sample.fest Published ∈ events SampleTrace.start ∧
  (getEffectiveStatus (Sample.fest Published) 60 ∈ [Published; Ongoing] ∨
   (Event.statusOverride (Sample.fest Published) = Completed ∧
    getEffectiveStatus (Sample.fest Published) 60 = Completed)).
Proof.
  apply browse_lists_open_events.
  apply list_elem_of_filter. split.
  - split; [| simpl; lia].
    intros [H | [H | H%elem_of_nil]%elem_of_cons]%elem_of_cons;
      discriminate || done.
  - apply elem_of_cons. by left.
Defined.

(** ** Creation and deletion of events *)

Lemma register_not_open st userId eventId formData now rnd i event :
  Event_findById eventId (events st) = Some (i, event) →
  getEffectiveStatus event now ∉ [Published; Ongoing] →
  register st userId eventId formData now rnd =
  (st, if decide (Event.type event ≠ normal)
       then res 400 UseOrderForMerchandise
       else res 400 (RegistrationNotAvailable (getEffectiveStatus event now))).
Proof.
  intros Hev Hstatus. unfold register. rewrite Hev. cbv zeta.
  case_decide; [done |]. by rewrite bool_decide_eq_true_2.
Qed.

Lemma order_not_open st userId eventId variantId quantity now rnd i event :
  Event_findById eventId (events st) = Some (i, event) →
  getEffectiveStatus event now ∉ [Published; Ongoing] →
  order st userId eventId variantId quantity now rnd =
  (st, if decide (Event.type event ≠ merchandise)
       then res 400 MerchandiseOnly
       else res 400 (OrdersNotAvailable (getEffectiveStatus event now))).
Proof.
  intros Hev Hstatus. unfold order. rewrite Hev. cbv zeta.
  case_decide; [done |]. by rewrite bool_decide_eq_true_2.
Qed.

Lemma Event_findById_fresh (evs : list Event.t) (event : Event.t) :
  Event._id event = newObjectId (Event._id <$> evs) →
  Event_findById (Event._id event) (evs ++ [event])
  = Some (length evs, event).
Proof.
  intros Hid. unfold Event_findById.
  rewrite list_find_app_r.
  - simpl. rewrite decide_True by done. simpl. repeat f_equal; lia.
  - apply list_find_None, Forall_forall. intros e He Heq.
    apply (newObjectId_fresh (Event._id <$> evs)).
    rewrite <- Hid, <- Heq. by apply list_elem_of_fmap_2.
Qed.

(** X14. A created event is stored as a Draft of the caller's organizer profile
    whatever status and owner the request body names, under a new
    identifier; at no time does it accept a registration or an order. *)
Theorem created_event_is_a_closed_draft st userId body :
  succeeded (createEvent st userId body).2 →
  ∃ i event o organizer,
    Event_findById (newObjectId (Event._id <$> events st))
                   (events (createEvent st userId body).1)
    = Some (i, event) ∧
    Organizer_findOne userId (organizers st) = Some (o, organizer) ∧
    Event.organizerId event = Organizer._id organizer ∧
    (∀ now, getEffectiveStatus event now = Draft) ∧
    (∀ participantId formData variantId quantity now rnd,
       ¬ succeeded (register (createEvent st userId body).1 participantId
                      (Event._id event) formData now rnd).2 ∧
       ¬ succeeded (order (createEvent st userId body).1 participantId
                      (Event._id event) variantId quantity now rnd).2).
Proof.
  unfold createEvent.
  destruct (Organizer_findOne _ _) as [[o organizer]|] eqn:Ho;
    [| intros []; simpl in *; lia].
  cbv zeta. case_match; [| intros []; simpl in *; lia].
  intros _. simpl.
  set (event := Event.set_statusOverride Draft _).
  assert (Hid : Event._id event = newObjectId (Event._id <$> events st))
    by done.
  assert (Hdraft : ∀ now, getEffectiveStatus event now = Draft).
  { intros now. unfold getEffectiveStatus. by simpl. }
  pose proof (Event_findById_fresh (events st) event Hid) as Hfind.
  exists (length (events st)), event, o, organizer.
  split_and!; try done.
  intros participantId formData variantId quantity now rnd.
  assert (Hclosed : getEffectiveStatus event now ∉ [Published; Ongoing]).
  { rewrite Hdraft.
    intros [Hd | [Hd | Hd%elem_of_nil]%elem_of_cons]%elem_of_cons;
      discriminate || done. }
  split.
  - erewrite register_not_open; [| exact Hfind | exact Hclosed].
    simpl. case_decide; intros []; simpl in *; lia.
  - erewrite order_not_open; [| exact Hfind | exact Hclosed].
    simpl. case_decide; intros []; simpl in *; lia.
Qed.

(** Olga posts the fest with the status "Ongoing" in the body. *)
Lemma created_event_is_a_closed_draft_witness :
  ∃ i event o organizer,
    Event_findById (newObjectId (Event._id <$> events SampleTrace.start))
      (events (createEvent SampleTrace.start 10 (Sample.fest Ongoing)).1)
    = Some (i, event) ∧
    Organizer_findOne 10 (organizers SampleTrace.start)
    = Some (o, organizer) ∧
    Event.organizerId event = Organizer._id organizer ∧
    (∀ now, getEffectiveStatus event now = Draft) ∧
    (∀ participantId formData variantId quantity now rnd,
       ¬ succeeded
           (register (createEvent SampleTrace.start 10
                        (Sample.fest Ongoing)).1 participantId
              (Event._id event) formData now rnd).2 ∧
       ¬ succeeded
           (order (createEvent SampleTrace.start 10
                     (Sample.fest Ongoing)).1 participantId
              (Event._id event) variantId quantity now rnd).2).
Proof.
  apply created_event_is_a_closed_draft. unfold succeeded. simpl. lia.
Defined.

Lemma filter_event_after_cascade (eventId e : ObjectId)
    (regs : list Registration.t) :
  e ≠ eventId →
  filter (λ r, Registration.eventId r = e)
         (filter (λ r, Registration.eventId r ≠ eventId) regs)
  = filter (λ r, Registration.eventId r = e) regs.
Proof.
  intros Hne. induction regs as [|r regs IH]; [done |].
  destruct (decide (Registration.eventId r = eventId)) as [Heq | Hneq].
  - rewrite (filter_cons_False _ r regs) by (intros Hr; by apply Hr).
    rewrite (filter_cons_False _ r regs) by congruence. done.
  - rewrite (filter_cons_True (λ r, Registration.eventId r ≠ eventId))
      by done.
    destruct (decide (Registration.eventId r = e)).
    + rewrite !filter_cons_True by done. by rewrite IH.
    + rewrite !filter_cons_False by done. done.
Qed.

Lemma countDocuments_after_cascade (eventId : ObjectId)
    (regs : list Registration.t) :
  countDocuments eventId
    (filter (λ r, Registration.eventId r ≠ eventId) regs) = 0.
Proof.
  unfold countDocuments. induction regs as [|r regs IH]; [done |].
  destruct (decide (Registration.eventId r = eventId)) as [Heq | Hneq].
  - by rewrite filter_cons_False by (intros Hr; by apply Hr).
  - rewrite filter_cons_True by done. by rewrite filter_cons_False by done.
Qed.

Lemma Event_findById_delete_same (evs : list Event.t) eventId i event :
  unique_event_ids evs →
  Event_findById eventId evs = Some (i, event) →
  Event_findById eventId (delete i evs) = None.
Proof.
  intros Hunique Hev. apply list_find_None, Forall_forall.
  intros e [k Hk]%list_elem_of_lookup Heq.
  pose proof (Event_findById_lookup _ _ _ _ Hev) as Hi.
  pose proof (Event_findById_id _ _ _ _ Hev) as Hid.
  assert (Hother : ∃ k', k' ≠ i ∧ evs !! k' = Some e).
  { destruct (decide (k < i)%nat).
    - exists k. split; [lia |]. by rewrite list_lookup_delete_lt in Hk.
    - exists (S k). split; [lia |].
      by rewrite list_lookup_delete_ge in Hk by lia. }
  destruct Hother as (k' & Hne & Hk'). apply Hne.
  apply (NoDup_lookup (Event._id <$> evs) k' i eventId Hunique).
  - by rewrite list_lookup_fmap, Hk'; simpl; rewrite Heq.
  - by rewrite list_lookup_fmap, Hi; simpl; rewrite Hid.
Qed.

Lemma Event_findById_delete_other (evs : list Event.t) eventId e i event :
  evs !! i = Some event → Event._id event = eventId → e ≠ eventId →
  snd <$> Event_findById e (delete i evs) = snd <$> Event_findById e evs.
Proof.
  intros Hi Hid Hne. unfold Event_findById.
  destruct (list_find _ evs) as [[k x]|] eqn:Hfind.
  - destruct (list_find_delete_keep (λ ev, Event._id ev = e) evs k x i event)
      as [k' ->]; try done. congruence.
  - apply list_find_None in Hfind.
    by rewrite (proj2 (list_find_None _ _) (Forall_delete _ _ i Hfind)).
Qed.

(** X15. [DELETE /:id] succeeds only for the owner of an event that is
    effectively Draft. With event identifiers unique, the event can then no
    longer be found, no registration of it is left, and the other events
    and the registrations of every other event are as before. *)
Theorem deleted_draft_leaves_nothing_behind st userId eventId now :
  unique_event_ids (events st) →
  succeeded (deleteEvent st userId eventId now).2 →
  (∃ i event, owns st userId eventId i event ∧
              getEffectiveStatus event now = Draft) ∧
  Event_findById eventId (events (deleteEvent st userId eventId now).1)
  = None ∧
  countDocuments eventId
    (registrations (deleteEvent st userId eventId now).1) = 0 ∧
  ∀ e, e ≠ eventId →
    snd <$> Event_findById e (events (deleteEvent st userId eventId now).1)
    = snd <$> Event_findById e (events st) ∧
    filter (λ r, Registration.eventId r = e)
           (registrations (deleteEvent st userId eventId now).1)
    = filter (λ r, Registration.eventId r = e) (registrations st).
Proof.
  intros Hunique. unfold deleteEvent.
  destruct (Organizer_findOne _ _) as [[o organizer]|] eqn:Ho;
    [| intros []; simpl in *; lia].
  destruct (Event_findById _ _) as [[i event]|] eqn:Hev;
    [| intros []; simpl in *; lia].
  case_decide as Howner; [intros []; simpl in *; lia |].
  case_decide as Hdraft; [intros []; simpl in *; lia |].
  intros _. simpl. split_and!.
  - exists i, event. split; [by exists o, organizer |]. done.
  - by apply (Event_findById_delete_same _ _ _ event).
  - apply countDocuments_after_cascade.
  - intros e Hne. split.
    + apply (Event_findById_delete_other _ eventId e i event); try done.
      * by eapply Event_findById_lookup.
      * by eapply Event_findById_id.
    + by apply filter_event_after_cascade.
Qed.

(** Olga deletes the draft fest, for which Alice holds a registration,
    while Alice's t-shirt order stays. *)
Lemma deleted_draft_leaves_nothing_behind_witness :
  let st := Sample.store [Sample.fest Draft; Sample.merch 3 2 true]
              [Sample.reg_fest "TKT-40-AAAAAA" false None;
               Sample.reg_merch None 2 Pending] in
  (∃ i event, owns st 10 1 i event ∧ getEffectiveStatus event 60 = Draft) ∧
  Event_findById 1 (events (deleteEvent st 10 1 60).1) = None ∧
  countDocuments 1 (registrations (deleteEvent st 10 1 60).1) = 0 ∧
  ∀ e, e ≠ 1 →
    snd <$> Event_findById e (events (deleteEvent st 10 1 60).1)
    = snd <$> Event_findById e (events st) ∧
    filter (λ r, Registration.eventId r = e)
           (registrations (deleteEvent st 10 1 60).1)
    = filter (λ r, Registration.eventId r = e) (registrations st).
Proof.
  intros st. apply deleted_draft_leaves_nothing_behind.
  - unfold unique_event_ids. simpl.
    apply NoDup_cons. split; [| apply NoDup_singleton].
    intros Hin%list_elem_of_singleton. discriminate.
  - unfold succeeded. simpl. lia.
Defined.

(** The owner can set the status override of an event that is not
    effectively Closed to any value, from every branch of [PUT /:id]. *)
Lemma editEvent_status st userId eventId x now i event :
  owns st userId eventId i event →
  getEffectiveStatus event now ≠ Closed →
  editEvent st userId eventId [U_statusOverride x] now
  = (set_events (<[i := Event.set_statusOverride x event]> (events st)) st,
     res 200 Saved).
Proof.
  intros (o & organizer & Horg & Hev & Hown) Hstatus.
  unfold editEvent, editBranches. rewrite Horg, Hev.
  rewrite decide_False by (by rewrite Hown; intros []).
  cbv zeta. by destruct (getEffectiveStatus event now).
Qed.

(** X16. The Draft-only guard of [DELETE /:id] does not protect a running
    event: its owner can set the status override of an event in any
    status but Closed to Draft through [PUT /:id] and then delete it,
    which removes the event and every registration of it. *)
Theorem withdrawn_event_can_be_deleted st userId eventId now now' i event :
  owns st userId eventId i event →
  getEffectiveStatus event now ≠ Closed →
  let st1 := (editEvent st userId eventId [U_statusOverride Draft] now).1 in
  succeeded (editEvent st userId eventId [U_statusOverride Draft] now).2 ∧
  deleteEvent st1 userId eventId now'
  = (mkStore (delete i (events st))
             (filter (λ r, Registration.eventId r ≠ eventId)
                     (registrations st))
             (organizers st) (users st),
     res 200 EventDeleted).
Proof.
  intros Hown Hstatus.
  rewrite (editEvent_status _ _ _ Draft _ _ _ Hown Hstatus). simpl.
  split; [unfold succeeded; simpl; lia |].
  destruct Hown as (o & organizer & Horg & Hev & Howner).
  unfold deleteEvent. simpl. rewrite Horg.
  unfold Event_findById in *.
  rewrite (list_find_insert_same _ _ _ _
             (Event.set_statusOverride Draft event)
             (Event_findById_id _ _ _ _ Hev) Hev).
  simpl. rewrite decide_False by (by rewrite Howner; intros []).
  unfold set_registrations, set_events. simpl. do 2 f_equal.
  apply list_find_Some in Hev as (Hi & _ & _).
  rewrite !delete_take_drop.
  rewrite take_insert_ge by lia.
  by rewrite drop_insert_lt by lia.
Qed.

(** The ongoing fest, for which Alice holds a ticket, is set to Draft at
    time 150 and deleted at time 151 together with her registration. *)
Lemma withdrawn_event_can_be_deleted_witness :
  let st := Sample.store [Sample.fest Published]
              [Sample.reg_fest "TKT-40-AAAAAA" false None] in
  let st1 := (editEvent st 10 1 [U_statusOverride Draft] 150).1 in
  succeeded (editEvent st 10 1 [U_statusOverride Draft] 150).2 ∧
  deleteEvent st1 10 1 151
  = (mkStore (delete 0%nat (events st))
             (filter (λ r, Registration.eventId r ≠ 1) (registrations st))
             (organizers st) (users st),
     res 200 EventDeleted).
Proof.
  intros st.
  apply (withdrawn_event_can_be_deleted st 10 1 150 151 0
           (Sample.fest Published)).
  - exists 0%nat, Sample.organiser. split_and!; reflexivity.
  - vm_compute. discriminate.
Defined.

(** ** The form lock outside Draft *)

Lemma never_rewrites_form_unlocks st eventId trace :
  never_rewrites_form st eventId trace → never_unlocks st eventId trace.
Proof.
  revert st. induction trace as [|[op env] trace IH]; intros st; [done |].
  intros [Hsafe Hrest]. split; [| by apply IH].
  intros Hunlocks. apply Hsafe. by left.
Qed.

Lemma has_form_keeps eventId evs evs' form :
  keeps_form eventId evs evs' →
  has_form_in evs eventId form → has_form_in evs' eventId form.
Proof.
  intros [-> | (i' & ev & ev' & Hi' & Hid & Hform & ->)]; [done |].
  intros (i & event & Hfind & Hevent).
  destruct (decide (i = i')) as [<- | Hne].
  - pose proof Hfind as (Hi & Heid & _)%list_find_Some.
    assert (ev = event) as -> by congruence.
    exists i, ev'. split; [| by rewrite Hform].
    unfold Event_findById. eapply list_find_insert_same; [| exact Hfind].
    simpl. congruence.
  - exists i, event. split; [| done].
    unfold Event_findById. eapply list_find_insert_other; [exact Hi' | | done..].
    simpl. by rewrite Hid.
Qed.

Lemma keeps_form_insert eventId evs e i ev ev' :
  Event_findById e evs = Some (i, ev) →
  Event._id ev' = Event._id ev →
  (Event._id ev = eventId → Event.customForm ev' = Event.customForm ev) →
  keeps_form eventId evs (<[i := ev']> evs).
Proof.
  intros (Hi & _ & _)%list_find_Some Hid Hform. right. by exists i, ev, ev'.
Qed.

Lemma register_keeps_form eventId st userId e formData now rnd :
  keeps_form eventId (events st)
             (events (register st userId e formData now rnd).1).
Proof.
  unfold register. simpl.
  destruct (Event_findById _ _) as [[i event]|] eqn:Hev; [| by left].
  repeat (case_match; try (by left)); simpl;
    by eapply keeps_form_insert.
Qed.

Lemma order_keeps_form eventId st userId e variantId quantity now rnd :
  keeps_form eventId (events st)
             (events (order st userId e variantId quantity now rnd).1).
Proof.
  unfold order. simpl.
  destruct (Event_findById _ _) as [[i event]|] eqn:Hev; [| by left].
  repeat (case_match; try (by left)); simpl;
    by eapply keeps_form_insert.
Qed.

Lemma approve_keeps_form eventId st userId e regId now rnd :
  keeps_form eventId (events st)
             (events (approve st userId e regId now rnd).1).
Proof.
  unfold approve.
  destruct (Organizer_findOne _ _) as [[o organizer]|]; [| by left].
  destruct (Event_findById _ _) as [[i event]|] eqn:Hev; [| by left].
  repeat (case_match; try (by left)); simpl;
    by eapply keeps_form_insert.
Qed.

Lemma Object_assign_form event updates :
  KcustomForm ∉ key <$> updates →
  Event.customForm (Object_assign event updates) = Event.customForm event.
Proof.
  revert event. induction updates as [|u rest IH]; intros event Hnot;
    [done |].
  rewrite fmap_cons in Hnot. apply not_elem_of_cons in Hnot as [Hu Hrest].
  change (Object_assign event (u :: rest))
    with (Object_assign (assign u event) rest).
  rewrite IH by done. by destruct u.
Qed.

Lemma editPublished_form event updates event' :
  editPublished event updates = inr event' →
  Event.customForm event' = Event.customForm event.
Proof.
  revert event. induction updates as [|u rest IH]; intros event; simpl.
  - by intros [= <-].
  - case_bool_decide as Hk; [done |].
    assert (Hstep : editPublished (assign u event) rest = inr event' →
              Event.customForm event' = Event.customForm event).
    { intros ->%IH.
      by destruct (allowed_cases _ Hk) as [Hc | [Hc | [Hc | Hc]]];
        destruct u. }
    destruct u; try exact Hstep.
    + case_decide; [done | exact Hstep].
    + destruct (lt_limit _ _); [done | exact Hstep].
Qed.

Lemma editBranches_form event currentStatus updates event' modified :
  editBranches event currentStatus updates = inr (event', modified) →
  (currentStatus = Draft → KcustomForm ∉ key <$> updates) →
  Event.customForm event' = Event.customForm event.
Proof.
  unfold editBranches. intros Hb Hdraft.
  repeat case_decide.
  - injection Hb as <- <-. apply Object_assign_form. by apply Hdraft.
  - destruct (editPublished _ _) as [r|ev] eqn:Hp; [done |].
    injection Hb as <- <-. by apply editPublished_form in Hp.
  - destruct updates as [|[] []]; try done. by injection Hb as <- <-.
  - by injection Hb as <- <-.
Qed.

Lemma editEvent_keeps_form eventId st userId e updates now :
  ¬ (e = eventId ∧ in_draft st eventId now ∧ KcustomForm ∈ key <$> updates) →
  keeps_form eventId (events st)
             (events (editEvent st userId e updates now).1).
Proof.
  intros Hsafe. unfold editEvent.
  destruct (Organizer_findOne _ _) as [[o organizer]|]; [| by left].
  destruct (Event_findById _ _) as [[i event]|] eqn:Hev; [| by left].
  case_decide; [by left |].
  destruct (editBranches _ _ _) as [r|[event' modified]] eqn:Hb; [by left |].
  destruct (Event_validate _ _); [| by left].
  simpl. eapply keeps_form_insert; [exact Hev | |].
  - unfold editBranches in Hb. repeat case_decide.
    + injection Hb as <- <-. apply Object_assign_id.
    + destruct (editPublished _ _) as [r|ev] eqn:Hp; [done |].
      injection Hb as <- <-. by apply editPublished_id_lock in Hp as [-> _].
    + destruct updates as [|[] []]; try done. by injection Hb as <- <-.
    + by injection Hb as <- <-.
  - intros Heq. eapply editBranches_form; [exact Hb |].
    intros Hstatus Hin. apply Hsafe.
    pose proof (Event_findById_id _ _ _ _ Hev) as He.
    assert (e = eventId) as -> by congruence.
    split_and!; [done | by exists i, event | done].
Qed.

Lemma createEvent_has_form st userId body eventId form :
  has_form st eventId form → has_form (createEvent st userId body).1 eventId form.
Proof.
  intros (i & event & Hfind & Hform). unfold createEvent.
  repeat (case_match; try (by exists i, event)).
  exists i, event. split; [| done]. simpl.
  by apply list_find_app_l.
Qed.

Lemma deleteEvent_has_form st userId e now eventId form :
  ¬ (e = eventId ∧ in_draft st eventId now) →
  has_form st eventId form → has_form (deleteEvent st userId e now).1 eventId form.
Proof.
  intros Hsafe (i & event & Hfind & Hform). unfold deleteEvent.
  destruct (Organizer_findOne _ _) as [[o organizer]|]; [| by exists i, event].
  destruct (Event_findById e _) as [[i' event']|] eqn:Hev;
    [| by exists i, event].
  case_decide; [by exists i, event |].
  destruct (decide (getEffectiveStatus event' now ≠ Draft)) as [|Hdraft];
    [by exists i, event |].
  apply dec_stable in Hdraft. simpl.
  pose proof Hev as (Hi' & He & _)%list_find_Some.
  assert (Hne : Event._id event' ≠ eventId).
  { intros Heq. apply Hsafe.
    assert (e = eventId) as -> by congruence.
    split; [done | by exists i', event']. }
  destruct (list_find_delete_keep _ _ _ _ _ _ Hfind Hi' Hne) as [i'' Hi''].
  by exists i'', event.
Qed.

Lemma adminDeleteOrganizer_has_form st userId eventId form :
  ¬ (∃ i event, owns st userId eventId i event) →
  has_form st eventId form →
  has_form (adminDeleteOrganizer st userId).1 eventId form.
Proof.
  intros Hsafe (i & event & Hfind & Hform). unfold adminDeleteOrganizer.
  destruct (list_find _ (users st)) as [[u user]|] eqn:Hu;
    [| by exists i, event].
  destruct (Organizer_findOne _ _) as [[o organizer]|] eqn:Ho;
    [| by exists i, event].
  simpl.
  apply list_find_Some in Hu as (_ & [Hid _] & _). rewrite Hid in Ho.
  assert (Hkeep : ¬ Event.organizerId event = Organizer._id organizer).
  { intros Hown. apply Hsafe. exists i, event, o, organizer. done. }
  destruct (list_find_filter_keep
              (λ e, Event._id e = eventId)
              (λ e, ¬ Event.organizerId e = Organizer._id organizer)
              _ _ _ Hfind Hkeep) as [i' Hi'].
  by exists i', event.
Qed.

(** Every request other than those of [rewrites_form] keeps the custom
    form of the event. *)
Lemma step_keeps_form st eventId form op env :
  ¬ rewrites_form st eventId op env →
  has_form st eventId form → has_form (step st op env).1 eventId form.
Proof.
  intros Hsafe Hform.
  assert (Hunlocks : ¬ unlocks st eventId op env)
    by (intros H; apply Hsafe; by left).
  destruct op; simpl in *.
  - by apply createEvent_has_form.
  - eapply has_form_keeps; [| exact Hform].
    apply editEvent_keeps_form. intros H. apply Hsafe. by right.
  - by apply deleteEvent_has_form.
  - eapply has_form_keeps; [apply register_keeps_form | exact Hform].
  - eapply has_form_keeps; [apply order_keeps_form | exact Hform].
  - unfold has_form. by rewrite uploadProof_events.
  - eapply has_form_keeps; [apply approve_keeps_form | exact Hform].
  - unfold has_form. by rewrite reject_events.
  - unfold has_form.
    by destruct (scan_frame st userId eventId0 ticketId (now env)) as [-> _].
  - unfold has_form. by rewrite override_events.
  - by apply adminDeleteOrganizer_has_form.
Qed.

Lemma run_keeps_form st eventId form trace :
  never_rewrites_form st eventId trace →
  has_form st eventId form → has_form (run st trace) eventId form.
Proof.
  revert st. induction trace as [|[op env] trace IH]; intros st; [done |].
  intros [Hsafe Hrest] Hform.
  change (run st ((op, env) :: trace)) with (run (step st op env).1 trace).
  apply IH; [done |]. by apply step_keeps_form.
Qed.

(** X27. What does hold of the form lock: a successful registration for a
    normal event leaves the flag true and the custom form as it was, and
    both stay so along every later sequence of requests of the system
    (create, edit, delete, register, order, payment proof, approve, reject,
    scan, attendance override, organizer deletion) in which no request is
    an edit sent while the event's effective status is Draft that sets the
    flag to false or names the custom form, a deletion of the event while
    it is Draft, or the deletion of the organizer who owns it. Once
    published, an event's form changes only through a return to Draft. *)
Theorem locked_form_kept_outside_draft
    (st : Store) (userId eventId : ObjectId)
    (formData : list (string * string)) (now : Date) (rnd : string)
    (trace : list (Op * Env)) :
  let out := register st userId eventId formData now rnd in
  succeeded out.2 →
  ∃ i event,
    Event_findById eventId (events st) = Some (i, event) ∧
    form_locked out.1 eventId ∧
    has_form out.1 eventId (Event.customForm event) ∧
    (never_rewrites_form out.1 eventId trace →
     form_locked (run out.1 trace) eventId ∧
     has_form (run out.1 trace) eventId (Event.customForm event)).
Proof.
  intros out Hs.
  assert (Hlocked : form_locked out.1 eventId) by by apply register_locks.
  destruct (Event_findById eventId (events st)) as [[i event]|] eqn:Hev.
  - assert (Hform : has_form out.1 eventId (Event.customForm event)).
    { eapply has_form_keeps; [apply register_keeps_form |].
      by exists i, event. }
    exists i, event. split_and!; try done.
    intros Hsafe. split.
    + apply run_keeps_lock; [| done]. by apply never_rewrites_form_unlocks.
    + by apply run_keeps_form.
  - exfalso. revert Hs. unfold out, register. rewrite Hev. cbv zeta.
    intros []. simpl in *. lia.
Qed.

(** After Alice's registration, the owner edits the description and marks
    the event Completed, and Alice's ticket is scanned: the form stays
    locked and empty. *)
Lemma locked_form_kept_outside_draft_witness :
  let st0 := Sample.store [Sample.fest Published] [] in
  let st1 := (register st0 20 1 [] 40 "AB12CD").1 in
  let trace :=
    [(OpEditEvent 10 1 [U_description "Doors open at 9"], mkEnv 41 "r");
     (OpScan 10 1 (Some "TKT-40-AB12CD"), mkEnv 150 "r");
     (OpEditEvent 10 1 [U_statusOverride Completed], mkEnv 160 "r")] in
  form_locked (run st1 trace) 1 ∧ has_form (run st1 trace) 1 [].
Proof.
  intros st0 st1 trace.
  destruct (locked_form_kept_outside_draft st0 20 1 [] 40 "AB12CD" trace)
    as (i & event & Hfind & _ & _ & Hkept).
  - unfold succeeded. simpl. lia.
  - vm_compute in Hfind. injection Hfind as <- <-. apply Hkept.
    simpl. split_and!; try done.
    + intros [(_ & _ & Hin) | (_ & _ & Hin)];
        apply list_elem_of_singleton in Hin; discriminate.
    + intros [[] | []].
    + intros [(_ & _ & Hin) | (_ & _ & Hin)];
        apply list_elem_of_singleton in Hin; discriminate.
Defined.

(** ** Manual override and scan *)

Lemma override_located_unfold
    st userId eventId regId attended reason now i event k reg :
  order_located st userId eventId regId i event k reg →
  reason ≠ EmptyString →
  override st userId eventId regId (Some attended) (Some reason) now
  = (set_registrations
       (<[k := overridden userId attended reason now reg]> (registrations st))
       st,
     res 200 (AttendanceManuallySet attended)).
Proof.
  intros ((o & organizer & Horg & Hev & Hown) & Hfind) Hreason.
  unfold override. rewrite truthy_Some, Horg, Hev, Hfind by done.
  by rewrite decide_False by (by rewrite Hown; intros []).
Qed.

Lemma scan_located_unfold st userId eventId ticketId now i event k reg :
  owns st userId eventId i event →
  ticketId ≠ EmptyString →
  Registration_findByTicket ticketId (registrations st) = Some (k, reg) →
  Registration.eventId reg = eventId →
  scan st userId eventId (Some ticketId) now
  = if Registration.attended reg
    then (st, res 409 (DuplicateScan (Registration.attendanceTimestamp reg)))
    else
      let regs' :=
        <[k := Registration.set_attendanceTimestamp (Some now)
                 (Registration.set_attended true reg)]> (registrations st) in
      let totalRegs := countDocuments (Event._id event) regs' in
      let totalScanned := countAttended (Event._id event) regs' in
      (set_registrations regs' st,
       res 200 (AttendanceMarked now totalRegs totalScanned
                                 (totalRegs - totalScanned))).
Proof.
  intros (o & organizer & Horg & Hev & Hown) Ht Hfind He.
  unfold scan. rewrite truthy_Some, Horg, Hev, Hfind by done.
  rewrite decide_False by (by rewrite Hown; intros []).
  by rewrite decide_False by (by rewrite He; intros []).
Qed.

(** X17. A scan meets what the last manual override left. After an override to
    present, the scan of the ticket is answered as a duplicate carrying the
    time of the override. After an override to absent, which also erases
    the time of an earlier scan, the scan marks the registration present
    again with its own time and leaves the override flag, reason and
    author in place. *)
Theorem scan_after_override
    st userId eventId regId ticketId reason now now' i event k reg :
  order_located st userId eventId regId i event k reg →
  Registration_findByTicket ticketId (registrations st) = Some (k, reg) →
  ticketId ≠ EmptyString →
  reason ≠ EmptyString →
  let present :=
    (override st userId eventId regId (Some true) (Some reason) now).1 in
  let absent :=
    (override st userId eventId regId (Some false) (Some reason) now).1 in
  scan present userId eventId (Some ticketId) now'
  = (present, res 409 (DuplicateScan (Some now)))
  ∧ (scan absent userId eventId (Some ticketId) now').1
    = set_registrations
        (<[k := Registration.set_attendanceTimestamp (Some now')
                  (Registration.set_attended true
                     (overridden userId false reason now reg))]>
           (registrations st)) st
  ∧ succeeded (scan absent userId eventId (Some ticketId) now').2.
Proof.
  intros Hloc Hticket Ht Hreason present absent.
  subst present absent.
  rewrite !(override_located_unfold _ _ _ _ _ _ _ _ _ _ _ Hloc Hreason).
  destruct Hloc as (Hown & Hfind).
  assert (Hreg : Registration.eventId reg = eventId).
  { destruct Hown as (o & organizer & _ & Hev & _).
    apply Event_findById_id in Hev.
    apply list_find_Some in Hfind as (_ & (_ & He) & _). congruence. }
  assert (Htk : Registration.ticketId reg = Some ticketId).
  { by apply list_find_Some in Hticket as (_ & Htk & _). }
  assert (Hfind' : ∀ a,
    Registration_findByTicket ticketId
      (registrations
         (set_registrations
            (<[k := overridden userId a reason now reg]> (registrations st))
            st))
    = Some (k, overridden userId a reason now reg)).
  { intros a. unfold Registration_findByTicket in *. simpl.
    by eapply list_find_insert_same; [| exact Hticket]. }
  pose proof (λ a, scan_located_unfold
                     (set_registrations
                        (<[k := overridden userId a reason now reg]>
                           (registrations st)) st)
                     userId eventId ticketId now' i event k
                     (overridden userId a reason now reg)
                     Hown Ht (Hfind' a) Hreg) as Hscan.
  cbn [fst]. rewrite !Hscan. simpl. split_and!; try done.
  unfold set_registrations. simpl. by rewrite list_insert_insert_eq.
Qed.

(** Alice's fest ticket was scanned at 150; Olga overrides the attendance
    at 160, and the ticket is scanned again at 170. *)
Lemma scan_after_override_witness :
  let st := Sample.store [Sample.fest Published]
              [Sample.reg_fest "TKT-1" true (Some 150)] in
  let present := (override st 10 1 501 (Some true) (Some "late") 160).1 in
  let absent := (override st 10 1 501 (Some false) (Some "late") 160).1 in
  scan present 10 1 (Some "TKT-1") 170
  = (present, res 409 (DuplicateScan (Some 160)))
  ∧ (scan absent 10 1 (Some "TKT-1") 170).1
    = set_registrations
        (<[0%nat := Registration.set_attendanceTimestamp (Some 170)
                  (Registration.set_attended true
                     (overridden 10 false "late" 160
                        (Sample.reg_fest "TKT-1" true (Some 150))))]>
           (registrations st)) st
  ∧ succeeded (scan absent 10 1 (Some "TKT-1") 170).2.
Proof.
  intros st.
  apply (scan_after_override st 10 1 501 "TKT-1" "late" 160 170 0
           (Sample.fest Published) 0
           (Sample.reg_fest "TKT-1" true (Some 150))).
  - split; [| reflexivity].
    exists 0%nat, Sample.organiser. split_and!; reflexivity.
  - reflexivity.
  - discriminate.
  - discriminate.
Defined.

(** ** Attendance counts *)

Lemma filter_attended_of_event (eventId : ObjectId)
    (regs : list Registration.t) :
  filter (λ r, Registration.attended r = true)
         (filter (λ r, Registration.eventId r = eventId) regs)
  = filter (λ r, Registration.eventId r = eventId ∧
                 Registration.attended r = true) regs.
Proof.
  induction regs as [|r regs IH]; [done |].
  destruct (decide (Registration.eventId r = eventId)) as [He | He].
  - rewrite (filter_cons_True (λ r, Registration.eventId r = eventId))
      by done.
    destruct (decide (Registration.attended r = true)) as [Ha | Ha].
    + rewrite !filter_cons_True by done. by rewrite IH.
    + rewrite !filter_cons_False by tauto. done.
  - rewrite !filter_cons_False by tauto. done.
Qed.

Lemma length_filter_complement {A} (P : A → Prop) `{!∀ x, Decision (P x)}
    (l : list A) :
  (length (filter P l) + length (filter (λ x, ¬ P x) l) = length l)%nat.
Proof.
  rewrite <- length_app. apply Permutation_length, filter_app_complement.
Qed.

Lemma countAttended_le (eventId : ObjectId) (regs : list Registration.t) :
  countAttended eventId regs <= countDocuments eventId regs.
Proof.
  unfold countAttended, countDocuments.
  rewrite <- filter_attended_of_event.
  pose proof (length_filter (λ r, Registration.attended r = true)
                (filter (λ r, Registration.eventId r = eventId) regs)).
  lia.
Qed.

(** X18. The live counts a successful scan reports are those the attendance
    dashboard shows right after it: the registrations of the event, those
    marked present, and the difference of the two as absent. The scanned
    ticket is among the present, so at least one is. *)
Theorem scan_counts_match_dashboard st userId eventId ticketId now :
  succeeded (scan st userId eventId ticketId now).2 →
  ∃ total scanned,
    body (scan st userId eventId ticketId now).2
    = AttendanceMarked now total scanned (total - scanned) ∧
    attendance (scan st userId eventId ticketId now).1 userId eventId
    = inr (Summary.mk total scanned (total - scanned)) ∧
    1 <= scanned <= total.
Proof.
  assert (Hfail : ∀ s b P, ¬ (200 <= s < 300) → succeeded (res s b) → P).
  { intros s b P Hs Hsucc. by destruct Hs. }
  unfold scan.
  destruct (truthy ticketId) as [t|]; [| apply Hfail; lia].
  destruct (Organizer_findOne _ _) as [[o organizer]|] eqn:Horg;
    [| apply Hfail; lia].
  destruct (Event_findById _ _) as [[i event]|] eqn:Hev;
    [| apply Hfail; lia].
  case_decide as Hown; [apply Hfail; lia |].
  destruct (Registration_findByTicket _ _) as [[k reg]|] eqn:Hfind;
    [| apply Hfail; lia].
  case_decide as He; [apply Hfail; lia |].
  destruct (Registration.attended reg) eqn:Hatt; [apply Hfail; lia |].
  intros _. cbv zeta. cbn [fst snd body].
  set (reg' := Registration.set_attendanceTimestamp (Some now)
                 (Registration.set_attended true reg)).
  set (regs' := <[k := reg']> (registrations st)).
  exists (countDocuments (Event._id event) regs'),
         (countAttended (Event._id event) regs').
  pose proof (Event_findById_id _ _ _ _ Hev) as Hid.
  split; [done | split].
  - unfold attendance. simpl. rewrite Horg, Hev.
    rewrite decide_False by (by rewrite Hown; intros []). cbv zeta. f_equal.
    unfold countDocuments, countAttended.
    rewrite filter_attended_of_event.
    pose proof (length_filter_complement
                  (λ r, Registration.attended r = true)
                  (filter (λ r, Registration.eventId r = Event._id event)
                          regs')) as Hsplit.
    rewrite filter_attended_of_event in Hsplit.
    f_equal. lia.
  - assert (Hin : reg' ∈ filter
              (λ r, Registration.eventId r = Event._id event ∧
                    Registration.attended r = true) regs').
    { apply list_elem_of_filter. split.
      - split; [simpl; congruence | done].
      - apply list_find_Some in Hfind as (Hk & _ & _).
        apply (list_elem_of_lookup_2 _ k). subst regs'.
        apply list_lookup_insert_eq. by eapply lookup_lt_Some. }
    pose proof (countAttended_le (Event._id event) regs') as Hle.
    split; [| exact Hle]. unfold countAttended.
    destruct (filter _ regs') as [|x xs];
      [by apply elem_of_nil in Hin | simpl; lia].
Qed.

(** Olga scans Alice's fest ticket: one registration, one present. *)
Lemma scan_counts_match_dashboard_witness :
  let st := Sample.store [Sample.fest Published]
              [Sample.reg_fest "TKT-1" false None] in
  ∃ total scanned,
    body (scan st 10 1 (Some "TKT-1") 150).2
    = AttendanceMarked 150 total scanned (total - scanned) ∧
    attendance (scan st 10 1 (Some "TKT-1") 150).1 10 1
    = inr (Summary.mk total scanned (total - scanned)) ∧
    1 <= scanned <= total.
Proof.
  intros st. apply scan_counts_match_dashboard.
  unfold succeeded. simpl. lia.
Defined.

(** ** Analytics *)

Lemma same_for_analytics_insert (regs : list Registration.t) k r r' :
  regs !! k = Some r → same_for_analytics r r' →
  Forall2 same_for_analytics regs (<[k := r']> regs).
Proof.
  intros Hk Hsame. rewrite <- (list_insert_id regs k r Hk) at 1.
  apply Forall2_insert; [| done].
  clear. induction regs; constructor; [by repeat split | done].
Qed.

Lemma totalRevenue_agree event (regs regs' : list Registration.t) :
  Forall2 same_for_analytics regs regs' →
  totalRevenue event regs = totalRevenue event regs'.
Proof.
  intros Hall. unfold totalRevenue.
  destruct (Event.type event).
  - by rewrite (Forall2_length _ _ _ Hall).
  - generalize 0. induction Hall as [|r r' regs regs' Hr _ IH]; [done |].
    intros acc. simpl. destruct Hr as (_ & _ & -> & ->). apply IH.
Qed.

Lemma organizerDetails_agree st st' userId eventId :
  events st' = events st → organizers st' = organizers st →
  Forall2 same_for_analytics (registrations st) (registrations st') →
  organizerDetails st' userId eventId = organizerDetails st userId eventId.
Proof.
  intros Hev Horg Hall. unfold organizerDetails. rewrite Hev, Horg.
  destruct (Organizer_findOne _ _) as [[o organizer]|]; [| done].
  destruct (Event_findById _ _) as [[i event]|]; [| done].
  case_decide; [done |]. cbv zeta.
  assert (Hfound : Forall2 same_for_analytics
            (Registration_findByEvent (Event._id event) (registrations st))
            (Registration_findByEvent (Event._id event) (registrations st'))).
  { unfold Registration_findByEvent. apply Forall2_reverse.
    apply Forall2_filter; [| done]. intros r r' (-> & _). done. }
  f_equal. f_equal.
  - by rewrite (Forall2_length _ _ _ Hfound).
  - f_equal. symmetry. eapply Forall2_length, Forall2_filter; [| exact Hfound].
    intros r r' (_ & -> & _). done.
  - symmetry. by apply totalRevenue_agree.
Qed.

(** X19. The analytics of the organizer details read no payment status: the
    revenue of a merchandise event sums quantity times price over every
    order whose variant exists, so rejecting an order changes none of the
    reported numbers, for any event and caller. *)
Theorem rejected_order_still_counts st userId eventId regId :
  succeeded (reject st userId eventId regId).2 →
  ∀ u e, organizerDetails (reject st userId eventId regId).1 u e
         = organizerDetails st u e.
Proof.
  unfold reject.
  destruct (Organizer_findOne _ _) as [[o organizer]|];
    [| intros []; simpl in *; lia].
  destruct (Event_findById _ _) as [[i event]|];
    [| intros []; simpl in *; lia].
  case_decide; [intros []; simpl in *; lia |].
  destruct (Registration_findOrder _ _ _) as [[k reg]|] eqn:Hfind;
    [| intros []; simpl in *; lia].
  case_decide; [intros []; simpl in *; lia |].
  intros _ u e. apply organizerDetails_agree; try done. simpl.
  apply (same_for_analytics_insert _ _ reg); [| by repeat split].
  by apply list_find_Some in Hfind as (? & _ & _).
Qed.

(** Alice's pending order of two t-shirts at 250 each is rejected; the
    event still reports a revenue of 500. *)
Lemma rejected_order_still_counts_witness :
  let st := Sample.store [Sample.merch 3 2 true]
              [Sample.reg_merch None 2 Pending] in
  organizerDetails (reject st 10 2 502).1 10 2
  = inr (Analytics.mk 1 0 500).
Proof.
  intros st.
  rewrite (rejected_order_still_counts st 10 2 502).
  - reflexivity.
  - unfold succeeded. simpl. lia.
Defined.

(** ** Forum access *)

Lemma canAccessForum_participant st userId eventId :
  canAccessForum st userId role_participant eventId = true
  ↔ pair_indexed eventId userId (registrations st).
Proof.
  unfold canAccessForum, Registration_findOne, pair_indexed.
  destruct (list_find _ _) as [[k r]|] eqn:Hfind.
  - split; [intros _ | done].
    apply list_find_Some in Hfind as (Hk & Hr & _).
    apply Exists_exists. exists r. split; [| done].
    by eapply list_elem_of_lookup_2.
  - split; [done |]. intros (r & Hin & Hr)%Exists_exists.
    apply list_find_None in Hfind.
    by destruct (proj1 (Forall_forall _ _) Hfind r Hin).
Qed.

(** X20. A participant has access to the forum of an event from a confirmed
    registration or order on, whatever its payment status becomes: no
    sequence of requests without a deletion of the event or of its
    organizer takes the access away, so the holder of a rejected order
    keeps it. *)
Theorem forum_access_follows_registration st userId eventId :
  (∀ formData now rnd,
     succeeded (register st userId eventId formData now rnd).2 →
     canAccessForum (register st userId eventId formData now rnd).1
                    userId role_participant eventId = true) ∧
  (∀ variantId quantity now rnd,
     succeeded (order st userId eventId variantId quantity now rnd).2 →
     canAccessForum (order st userId eventId variantId quantity now rnd).1
                    userId role_participant eventId = true) ∧
  (∀ trace,
     no_deletion trace →
     canAccessForum st userId role_participant eventId = true →
     canAccessForum (run st trace) userId role_participant eventId = true).
Proof.
  split_and!.
  - intros formData now rnd Hsucc. apply canAccessForum_participant.
    destruct (register_effect st userId eventId formData now rnd)
      as [[_ Hno] | (doc & Hpair & _ & ->)]; [done |].
    apply Exists_app. right. apply Exists_cons. left.
    by injection Hpair as <- <-.
  - intros variantId quantity now rnd Hsucc. apply canAccessForum_participant.
    destruct (order_effect st userId eventId variantId quantity now rnd)
      as [[_ Hno] | (doc & Hpair & _ & ->)]; [done |].
    apply Exists_app. right. apply Exists_cons. left.
    by injection Hpair as <- <-.
  - intros trace Hnodel Haccess. apply canAccessForum_participant.
    apply canAccessForum_participant in Haccess.
    apply Exists_exists in Haccess as (r & [k Hk]%list_elem_of_lookup & Hr).
    destruct (run_keeps_payment st trace Hnodel k r Hk)
      as (r' & Hk' & Hpair & _).
    apply Exists_exists. exists r'. split; [by eapply list_elem_of_lookup_2 |].
    unfold pair_of in Hpair. injection Hpair as He Hp.
    destruct Hr as [Hre Hrp]. split; congruence.
Qed.

(** Alice's pending order is rejected: she still has access to the forum
    of the merchandise event. *)
Lemma forum_access_follows_registration_witness :
  let st := Sample.store [Sample.merch 3 2 true]
              [Sample.reg_merch None 2 Pending] in
  canAccessForum (run st [(OpReject 10 2 502, mkEnv 60 "r")])
                 20 role_participant 2 = true.
Proof.
  intros st.
  destruct (forum_access_follows_registration st 20 2) as (_ & _ & Hkept).
  apply Hkept.
  - repeat constructor. simpl. tauto.
  - reflexivity.
Defined.

(** ** Deletion of an organizer *)

Lemma list_find_delete_unique {A} (f : A → ObjectId) (b : ObjectId)
    (l : list A) i x :
  NoDup (f <$> l) →
  list_find (λ y, f y = b) l = Some (i, x) →
  list_find (λ y, f y = b) (delete i l) = None.
Proof.
  intros Hunique (Hi & Hx & _)%list_find_Some.
  apply list_find_None, Forall_forall.
  intros y [k Hk]%list_elem_of_lookup Hy.
  assert (Hother : ∃ k', k' ≠ i ∧ l !! k' = Some y).
  { destruct (decide (k < i)%nat).
    - exists k. split; [lia |]. by rewrite list_lookup_delete_lt in Hk.
    - exists (S k). split; [lia |].
      by rewrite list_lookup_delete_ge in Hk by lia. }
  destruct Hother as (k' & Hne & Hk'). apply Hne.
  apply (NoDup_lookup (f <$> l) k' i b Hunique).
  - by rewrite list_lookup_fmap, Hk'; simpl; rewrite Hy.
  - by rewrite list_lookup_fmap, Hi; simpl; rewrite Hx.
Qed.

(** X21. With the organizer collection unique on [_id] and [userId], an
    organizer deleted by the admin has no profile left: every later
    request of that user to an organizer route, with a token that is still
    valid, is refused and writes nothing, and so is the creation of an
    event. *)
Theorem deleted_organizer_cannot_act st userId :
  unique_organizers (organizers st) →
  succeeded (adminDeleteOrganizer st userId).2 →
  Organizer_findOne userId (organizers (adminDeleteOrganizer st userId).1)
  = None ∧
  (∀ body,
     createEvent (adminDeleteOrganizer st userId).1 userId body
     = ((adminDeleteOrganizer st userId).1,
        res 404 OrganizerProfileNotFound)) ∧
  (∀ op env eventId,
     organizer_route op = Some (userId, eventId) →
     (step (adminDeleteOrganizer st userId).1 op env).1
     = (adminDeleteOrganizer st userId).1 ∧
     status (step (adminDeleteOrganizer st userId).1 op env).2
     ∈ [400; 403; 404]).
Proof.
  intros [Hids Husers] Hsucc.
  assert (Hgone : Organizer_findOne userId
            (organizers (adminDeleteOrganizer st userId).1) = None).
  { revert Hsucc. unfold adminDeleteOrganizer.
    destruct (list_find _ (users st)) as [[u user]|] eqn:Huser;
      [| intros []; simpl in *; lia].
    apply list_find_Some in Huser as (_ & [Hid _] & _). rewrite Hid.
    destruct (Organizer_findOne _ _) as [[o organizer]|] eqn:Horg;
      [| intros []; simpl in *; lia].
    intros _. cbv zeta. cbn [fst organizers].
    unfold Organizer_findOne, Organizer_findById in *.
    destruct (list_find (λ o0, Organizer._id o0 = Organizer._id organizer)
                        (organizers st)) as [[o' organizer']|] eqn:Hbyid.
    - assert (o' = o) as ->.
      { apply list_find_Some in Hbyid as (Ho' & Hid' & _).
        pose proof Horg as (Ho & _ & _)%list_find_Some.
        apply (NoDup_lookup (Organizer._id <$> organizers st) o' o
                 (Organizer._id organizer) Hids).
        - by rewrite list_lookup_fmap, Ho'; simpl; rewrite Hid'.
        - by rewrite list_lookup_fmap, Ho. }
      by apply (list_find_delete_unique Organizer.userId userId _ o organizer).
    - apply list_find_None in Hbyid.
      apply list_find_Some in Horg as (Ho & _ & _).
      apply list_elem_of_lookup_2 in Ho.
      by destruct (proj1 (Forall_forall _ _) Hbyid organizer Ho). }
  split_and!; [done | |].
  - intros body. unfold createEvent. by rewrite Hgone.
  - assert (H400 : 400 ∈ [400; 403; 404]) by (apply elem_of_cons; by left).
    assert (H404 : 404 ∈ [400; 403; 404])
      by (do 2 (apply elem_of_cons; right); apply elem_of_cons; by left).
    intros op env eventId Hroute.
    destruct op; simpl in Hroute; try discriminate;
      injection Hroute as -> ->; simpl.
    + unfold editEvent. by rewrite Hgone.
    + unfold deleteEvent. by rewrite Hgone.
    + unfold approve. by rewrite Hgone.
    + unfold reject. by rewrite Hgone.
    + unfold scan. destruct (truthy _); [| done]. by rewrite Hgone.
    + unfold override. destruct attended; [| done].
      destruct (truthy _); [| done]. by rewrite Hgone.
Qed.

(** The admin deletes Olga: her request to close the fest finds no
    organizer profile. *)
Lemma deleted_organizer_cannot_act_witness :
  Organizer_findOne 10
    (organizers (adminDeleteOrganizer SampleTrace.start 10).1) = None.
Proof.
  apply (deleted_organizer_cannot_act SampleTrace.start 10).
  - split; simpl; apply NoDup_singleton.
  - unfold succeeded. simpl. lia.
Defined.

(** * The forum *)

Lemma toggleReaction_spec (reactions : list Reaction.t) userId emoji :
  NoDup reactions →
  let r := Reaction.mk userId emoji in
  NoDup (toggleReaction reactions userId emoji) ∧
  (r ∈ toggleReaction reactions userId emoji ↔ r ∉ reactions) ∧
  (∀ r', r' ≠ r →
     r' ∈ toggleReaction reactions userId emoji ↔ r' ∈ reactions).
Proof.
  intros Hunique r. unfold toggleReaction.
  destruct (list_find _ reactions) as [[i x]|] eqn:Hfind.
  - apply list_find_Some in Hfind as (Hi & [Hu He] & _).
    assert (x = r) as -> by (destruct x; simpl in *; by subst).
    pose proof (take_drop_middle _ _ _ Hi) as Hsplit.
    rewrite delete_take_drop. rewrite <- Hsplit in Hunique.
    apply NoDup_app in Hunique as (Htake & Hdisjoint & Hrest).
    apply NoDup_cons in Hrest as [Hnotin Hdrop].
    assert (Hin : r ∈ reactions) by (by eapply list_elem_of_lookup_2).
    split_and!.
    + apply NoDup_app. split_and!; [done | | done].
      intros y Hy Hy'. apply (Hdisjoint y Hy). apply elem_of_cons. by right.
    + split; [| done]. intros [Hl | Hr]%elem_of_app; [| done].
      exfalso. apply (Hdisjoint r Hl). apply elem_of_cons. by left.
    + intros r' Hne.
      assert (Hl : r' ∈ reactions ↔
                r' ∈ take i reactions ∨ r' = r
                ∨ r' ∈ drop (S i) reactions).
      { rewrite <- Hsplit at 1. rewrite elem_of_app, elem_of_cons. tauto. }
      rewrite elem_of_app. tauto.
  - apply list_find_None in Hfind.
    assert (Hnotin : r ∉ reactions).
    { intros Hin. by apply (proj1 (Forall_forall _ _) Hfind r Hin). }
    split_and!.
    + apply NoDup_app. split_and!; [done | | apply NoDup_singleton].
      intros y Hy ->%list_elem_of_singleton. done.
    + split; [done |]. intros _. apply elem_of_app. right.
      by apply list_elem_of_singleton.
    + intros r' Hne. rewrite elem_of_app, list_elem_of_singleton. tauto.
Qed.

(** X22. A reaction request of a caller with forum access to the event of the
    URL flips the caller's reaction with that emoji on the message and
    touches no other reaction, so a message never holds the same reaction
    of one user twice. The message is looked up by its identifier alone:
    it may belong to the forum of another event and may be deleted. *)
Theorem react_toggles_one_reaction
    st messages userId userRole eventId messageId emoji k msg :
  emoji ≠ EmptyString →
  canAccessForum st userId userRole eventId = true →
  Message_findById messageId messages = Some (k, msg) →
  NoDup (Message.reactions msg) →
  ∃ reactions,
    react st messages userId userRole eventId messageId (Some emoji)
    = (<[k := Message.set_reactions reactions msg]> messages,
       Forum.res 200 (Forum.ReactionUpdated reactions)) ∧
    NoDup reactions ∧
    (Reaction.mk userId emoji ∈ reactions
     ↔ Reaction.mk userId emoji ∉ Message.reactions msg) ∧
    (∀ r, r ≠ Reaction.mk userId emoji →
       r ∈ reactions ↔ r ∈ Message.reactions msg).
Proof.
  intros Hemoji Haccess Hfind Hunique.
  exists (toggleReaction (Message.reactions msg) userId emoji).
  split; [| by apply toggleReaction_spec].
  unfold react. by rewrite truthy_Some, Haccess, Hfind by done.
Qed.

(** Alice, registered for the fest, removes her thumbs-up from a message
    of the forum of another event. *)
Lemma react_toggles_one_reaction_witness :
  let st := Sample.store [Sample.fest Published]
              [Sample.reg_fest "TKT-1" false None] in
  let msg := Message.mk 900 2 21 "hello" None false false false
               [Reaction.mk 21 "+1"; Reaction.mk 20 "+1"] in
  ∃ reactions,
    react st [msg] 20 role_participant 1 900 (Some "+1")
    = (<[0%nat := Message.set_reactions reactions msg]> [msg],
       Forum.res 200 (Forum.ReactionUpdated reactions)) ∧
    NoDup reactions ∧
    (Reaction.mk 20 "+1" ∈ reactions
     ↔ Reaction.mk 20 "+1" ∉ Message.reactions msg) ∧
    (∀ r, r ≠ Reaction.mk 20 "+1" →
       r ∈ reactions ↔ r ∈ Message.reactions msg).
Proof.
  intros st msg. apply react_toggles_one_reaction.
  - discriminate.
  - reflexivity.
  - reflexivity.
  - simpl. apply NoDup_cons. split; [| apply NoDup_singleton].
    intros Hin%list_elem_of_singleton. discriminate.
Defined.

(** X23. An organizer who owns the event of the URL pins or unpins any message:
    the message is looked up by its identifier alone, whatever forum it
    belongs to. A second request restores the messages. *)
Theorem pin_flips_any_message st messages userId eventId messageId k msg :
  ownsEvent st userId eventId = true →
  Message_findById messageId messages = Some (k, msg) →
  pin st messages userId role_organizer eventId messageId
  = (<[k := Message.set_isPinned (negb (Message.isPinned msg)) msg]>
       messages,
     Forum.res 200 (Forum.MessagePinned (negb (Message.isPinned msg)))) ∧
  (pin st (pin st messages userId role_organizer eventId messageId).1
       userId role_organizer eventId messageId).1 = messages.
Proof.
  intros Howns Hfind.
  assert (Hfirst : pin st messages userId role_organizer eventId messageId
    = (<[k := Message.set_isPinned (negb (Message.isPinned msg)) msg]>
         messages,
       Forum.res 200 (Forum.MessagePinned (negb (Message.isPinned msg))))).
  { unfold pin. rewrite decide_False by (by intros []).
    by rewrite Howns, Hfind. }
  split; [done |]. rewrite Hfirst. cbn [fst]. unfold pin.
  rewrite decide_False by (by intros []). rewrite Howns. cbn [negb].
  unfold Message_findById in *.
  rewrite (list_find_insert_same _ _ _ _
             (Message.set_isPinned (negb (Message.isPinned msg)) msg)
             (proj1 (proj2 (proj1 (list_find_Some _ _ _ _) Hfind))) Hfind).
  cbn [fst]. rewrite list_insert_insert_eq.
  apply list_insert_id. apply list_find_Some in Hfind as (-> & _ & _).
  f_equal. destruct msg as [? ? ? ? ? []]; reflexivity.
Qed.

(** Olga, who owns the fest, pins a message of the forum of event 2. *)
Lemma pin_flips_any_message_witness :
  let msg := Message.mk 900 2 21 "hello" None false false false [] in
  pin SampleTrace.start [msg] 10 role_organizer 1 900
  = ([Message.set_isPinned true msg],
     Forum.res 200 (Forum.MessagePinned true)) ∧
  (pin SampleTrace.start
       (pin SampleTrace.start [msg] 10 role_organizer 1 900).1
       10 role_organizer 1 900).1 = [msg].
Proof.
  intros msg.
  apply (pin_flips_any_message SampleTrace.start [msg] 10 1 900 0 msg);
    reflexivity.
Defined.

(** X24. The delete route keeps the message as a tombstone: after a successful
    request the message is still found under its identifier, at the same
    position, marked deleted with its content replaced and its reactions
    and pin flag as before; the caller owns the event (an organizer) or
    wrote the message (any other role); and the same request succeeds
    again and changes nothing more. *)
Theorem deleted_message_is_a_tombstone
    st messages userId userRole eventId messageId :
  Forum.status (deleteMessage st messages userId userRole eventId
                              messageId).2 = 200 →
  ∃ k msg,
    Message_findById messageId messages = Some (k, msg) ∧
    Message.eventId msg = eventId ∧
    (if decide (userRole = role_organizer)
     then ownsEvent st userId eventId = true
     else Message.authorId msg = userId) ∧
    Message_findById messageId
      (deleteMessage st messages userId userRole eventId messageId).1
    = Some (k, Message.set_content "[Message deleted]"
                 (Message.set_isDeleted true msg)) ∧
    deleteMessage st
      (deleteMessage st messages userId userRole eventId messageId).1
      userId userRole eventId messageId
    = deleteMessage st messages userId userRole eventId messageId.
Proof.
  unfold deleteMessage at 1.
  destruct (Message_findById messageId messages) as [[k msg]|] eqn:Hfind;
    [| simpl; lia].
  case_decide as Hevent; [simpl; lia |]. cbv zeta.
  destruct (negb _) eqn:Hcan; [simpl; lia |]. intros _.
  apply negb_false_iff in Hcan.
  set (msg' := Message.set_content "[Message deleted]"
                 (Message.set_isDeleted true msg)).
  assert (Hfind' : Message_findById messageId (<[k := msg']> messages)
                   = Some (k, msg')).
  { unfold Message_findById in *.
    apply (list_find_insert_same _ _ _ msg); [| done].
    by apply list_find_Some in Hfind as (_ & ? & _). }
  assert (Hout : deleteMessage st messages userId userRole eventId messageId
                 = (<[k := msg']> messages, Forum.res 200 Forum.Deleted)).
  { unfold deleteMessage. rewrite Hfind.
    rewrite decide_False by (intros Hne; by apply Hne).
    cbv zeta. by rewrite Hcan. }
  exists k, msg. rewrite Hout. cbn [fst]. split_and!; try done.
  - case_decide; [done |]. by apply bool_decide_eq_true in Hcan.
  - unfold deleteMessage. rewrite Hfind'.
    rewrite decide_False by (intros Hne; by apply Hne).
    cbv zeta. simpl Message.authorId.
    rewrite Hcan. cbn [negb]. by rewrite list_insert_insert_eq.
Qed.

(** Bob deletes his own message. *)
Lemma deleted_message_is_a_tombstone_witness :
  let msg := Message.mk 900 1 21 "hello" None false false false [] in
  ∃ k msg',
    Message_findById 900 [msg] = Some (k, msg') ∧
    Message.eventId msg' = 1 ∧
    (if decide (role_participant = role_organizer)
     then ownsEvent SampleTrace.start 21 1 = true
     else Message.authorId msg' = 21) ∧
    Message_findById 900
      (deleteMessage SampleTrace.start [msg] 21 role_participant 1 900).1
    = Some (k, Message.set_content "[Message deleted]"
                 (Message.set_isDeleted true msg')) ∧
    deleteMessage SampleTrace.start
      (deleteMessage SampleTrace.start [msg] 21 role_participant 1 900).1
      21 role_participant 1 900
    = deleteMessage SampleTrace.start [msg] 21 role_participant 1 900.
Proof.
  intros msg. apply deleted_message_is_a_tombstone. reflexivity.
Defined.

(** * The organizer dashboard *)









(** X26. The dashboard counts every effectively Completed event as completed.
    It also counts events that are not: a Draft or Closed event past its
    end date; for an event that is neither, with a start not after its
    end, the two notions agree. *)
Theorem dashboard_completed_covers_effective (event : Event.t) (now : Date) :
  (getEffectiveStatus event now = Completed → dashboard_completed now event) ∧
  (Event.statusOverride event ∈ [Draft; Closed] →
   now > Event.endDate event →
   dashboard_completed now event ∧ getEffectiveStatus event now ≠ Completed) ∧
  (Event.statusOverride event ∉ [Draft; Closed] →
   Event.startDate event <= Event.endDate event →
   dashboard_completed now event → getEffectiveStatus event now = Completed).
Proof.
  unfold dashboard_completed, getEffectiveStatus. split_and!.
  - case_bool_decide as Hmanual.
    + intros Heq. by left.
    + repeat case_decide; try done; intros _; (by left) || (right; lia).
  - intros Hmanual Hlate. split; [by right |].
    rewrite bool_decide_eq_true_2 by done.
    apply elem_of_cons in Hmanual as [-> | Hmanual]; [done |].
    apply elem_of_cons in Hmanual as [-> | Hmanual%elem_of_nil]; done.
  - intros Hmanual Hdates Hdone.
    rewrite bool_decide_eq_false_2 by done.
    case_decide as Hcompleted; [done |].
    destruct Hdone as [Hdone | Hlate]; [done |].
    rewrite decide_False by lia. by rewrite decide_False by lia.
Qed.

(** The closed fest, past its end, is counted as completed. *)
Lemma dashboard_completed_covers_effective_witness :
  dashboard_completed 300 (Sample.fest Closed) ∧
  getEffectiveStatus (Sample.fest Closed) 300 ≠ Completed.
Proof.
  apply (dashboard_completed_covers_effective (Sample.fest Closed) 300).
  - apply elem_of_cons. right. apply elem_of_cons. by left.
  - simpl. lia.
Defined.
